(** * CodeGraph: a shallow embedding of the analysis / ingestion pipeline

    This development embeds the parts of the CodeGraph Python services that
    decide the behaviour of:
    - the identifier generator      (python_analyzer_service/id_generator.py)
    - the AST visitor and its scopes (python_analyzer_service/visitor.py,
                                      python_analyzer_service/scope_manager.py)
    - the file-watcher debouncer     (services/file_watcher_service/main.py)
    - the Python analyzer job loop   (services/analyzers/python_analyzer/main.py)
    - the Neo4j ingestion worker     (services/ingestion_worker/main.py)
    - the cross-language resolver    (api_gateway/orchestration_logic/*.py)

    Strings are Rocq strings whose characters are the bytes of the text; the
    character classes of Python's [re] module are modelled on ASCII. *)

From Stdlib Require Import String Ascii List ZArith Lia Bool.
From stdpp Require Import gmap strings list.
Import ListNotations.
Open Scope Z_scope.

(* ===================================================================== *)
(** * Identifier generation (id_generator.py) *)
(* ===================================================================== *)

Module Sha256.

(** 32-bit words written out with their wrap-around. *)
Definition w32 (x : Z) : Z := Z.land x (Z.ones 32).
Definition add32 (x y : Z) : Z := w32 (x + y).
Definition rotr (x : Z) (n : Z) : Z :=
  Z.lor (Z.shiftr x n) (w32 (Z.shiftl x (32 - n))).

Definition ch (x y z : Z) : Z := Z.lxor (Z.land x y) (Z.land (w32 (Z.lnot x)) z).
Definition maj (x y z : Z) : Z := Z.lxor (Z.lxor (Z.land x y) (Z.land x z)) (Z.land y z).
Definition bsig0 (x : Z) : Z := Z.lxor (Z.lxor (rotr x 2) (rotr x 13)) (rotr x 22).
Definition bsig1 (x : Z) : Z := Z.lxor (Z.lxor (rotr x 6) (rotr x 11)) (rotr x 25).
Definition ssig0 (x : Z) : Z := Z.lxor (Z.lxor (rotr x 7) (rotr x 18)) (Z.shiftr x 3).
Definition ssig1 (x : Z) : Z := Z.lxor (Z.lxor (rotr x 17) (rotr x 19)) (Z.shiftr x 10).

(** The constants of FIPS 180-4: the first 32 bits of the fractional parts
    of the square roots (initial hash) and cube roots (round constants) of
    the first primes, computed here from that description. *)
Definition is_prime (p : Z) : bool :=
  (2 <=? p) && forallb (fun d => negb (p mod d =? 0)) (map Z.of_nat (seq 2 (Z.to_nat p - 2))).

Definition first_primes (n : nat) : list Z :=
  firstn n (List.filter is_prime (map Z.of_nat (seq 0 512))).

(** Integer cube root by bisection, keeping [lo^3 <= n < hi^3]. *)
Fixpoint icbrt_aux (fuel : nat) (lo hi n : Z) : Z :=
  match fuel with
  | O => lo
  | S fuel' =>
    if hi - lo <=? 1 then lo else
    let mid := (lo + hi) / 2 in
    if mid * mid * mid <=? n then icbrt_aux fuel' mid hi n else icbrt_aux fuel' lo mid n
  end.

Definition icbrt (n : Z) : Z := icbrt_aux 80 0 (2 ^ 40) n.

Definition K : list Z :=
  map (fun p => icbrt (p * 2 ^ 96) mod 2 ^ 32) (first_primes 64).

Definition H0_words : list Z :=
  map (fun p => Z.sqrt (p * 2 ^ 64) mod 2 ^ 32) (first_primes 8).

(** The eight working variables / chaining values. *)
Record hstate := HS { ha : Z; hb : Z; hc : Z; hd : Z; he : Z; hf : Z; hg : Z; hh : Z }.

Definition H0 : hstate :=
  let w i := nth i H0_words 0 in
  HS (w 0%nat) (w 1%nat) (w 2%nat) (w 3%nat) (w 4%nat) (w 5%nat) (w 6%nat) (w 7%nat).

(** Padding: 0x80, zeros up to 56 mod 64, then the bit length, big endian. *)
Definition be_bytes (n : nat) (x : Z) : list Z :=
  map (fun i => Z.land (Z.shiftr x (8 * Z.of_nat (n - 1 - i))) 255) (seq 0 n).

Definition pad (msg : list Z) : list Z :=
  let len := Z.of_nat (length msg) in
  let zeros := Z.to_nat ((55 - len) mod 64) in
  msg ++ [0x80] ++ repeat 0 zeros ++ be_bytes 8 (8 * len).

Fixpoint blocks (n : nat) (l : list Z) : list (list Z) :=
  match n with
  | O => []
  | S n' => firstn 64 l :: blocks n' (skipn 64 l)
  end.

Definition word_at (blk : list Z) (i : nat) : Z :=
  let b k := nth (4 * i + k) blk 0 in
  Z.lor (Z.shiftl (b 0%nat) 24) (Z.lor (Z.shiftl (b 1%nat) 16)
    (Z.lor (Z.shiftl (b 2%nat) 8) (b 3%nat))).

(** Message schedule W[0..63], built by appending W[t] for t = 16..63. *)
Fixpoint extend (k : nat) (w : list Z) : list Z :=
  match k with
  | O => w
  | S k' =>
      let t := length w in
      let wt := add32 (add32 (ssig1 (nth (t - 2) w 0)) (nth (t - 7) w 0))
                      (add32 (ssig0 (nth (t - 15) w 0)) (nth (t - 16) w 0)) in
      extend k' (w ++ [wt])
  end.

Definition schedule (blk : list Z) : list Z :=
  extend 48 (map (word_at blk) (seq 0 16)).

Definition round (w : list Z) (s : hstate) (t : nat) : hstate :=
  let t1 := add32 (add32 (add32 (hh s) (bsig1 (he s))) (add32 (ch (he s) (hf s) (hg s)) (nth t K 0)))
                  (nth t w 0) in
  let t2 := add32 (bsig0 (ha s)) (maj (ha s) (hb s) (hc s)) in
  HS (add32 t1 t2) (ha s) (hb s) (hc s) (add32 (hd s) t1) (he s) (hf s) (hg s).

Definition compress (s : hstate) (blk : list Z) : hstate :=
  let w := schedule blk in
  let s' := fold_left (round w) (seq 0 64) s in
  HS (add32 (ha s) (ha s')) (add32 (hb s) (hb s')) (add32 (hc s) (hc s')) (add32 (hd s) (hd s'))
     (add32 (he s) (he s')) (add32 (hf s) (hf s')) (add32 (hg s) (hg s')) (add32 (hh s) (hh s')).

Definition digest_bytes (s : hstate) : list Z :=
  be_bytes 4 (ha s) ++ be_bytes 4 (hb s) ++ be_bytes 4 (hc s) ++ be_bytes 4 (hd s) ++
  be_bytes 4 (he s) ++ be_bytes 4 (hf s) ++ be_bytes 4 (hg s) ++ be_bytes 4 (hh s).

Definition sha256 (msg : list Z) : list Z :=
  let p := pad msg in
  digest_bytes (fold_left compress (blocks (length p / 64) p) H0).

(** [hexdigest]: two lower-case hex digits per byte. *)
Definition hex_digit (n : Z) : ascii :=
  if n <? 10 then ascii_of_nat (48 + Z.to_nat n) else ascii_of_nat (87 + Z.to_nat n).

Fixpoint hex_of_bytes (bs : list Z) : string :=
  match bs with
  | [] => EmptyString
  | b :: bs' => String (hex_digit (Z.land (Z.shiftr b 4) 15))
                  (String (hex_digit (Z.land b 15)) (hex_of_bytes bs'))
  end.

End Sha256.

Module IdGen.

Local Open Scope string_scope.

Definition LANGUAGE : string := "python".

(** [str.encode('utf-8')]: the characters of a Rocq string are its bytes. *)
Definition encode (s : string) : list Z :=
  map (fun c => Z.of_nat (nat_of_ascii c)) (list_ascii_of_string s).

Definition hexdigest_sha256 (s : string) : string :=
  Sha256.hex_of_bytes (Sha256.sha256 (encode s)).

(** generate_global_id: [f"{language}:{hash_hex}"]; [relative_path] is unused. *)
Definition generate_global_id (language relative_path canonical_identifier : string) : string :=
  let input_string := canonical_identifier in
  language ++ ":" ++ hexdigest_sha256 input_string.

(** [str.replace("\\", "/")] *)
Fixpoint replace_backslash (s : string) : string :=
  match s with
  | EmptyString => EmptyString
  | String c s' =>
      String (if Ascii.eqb c "092"%char then "/"%char else c) (replace_backslash s')
  end.

(** [str.lower()] on ASCII. *)
Definition lower_char (c : ascii) : ascii :=
  let n := nat_of_ascii c in
  if (65 <=? n)%nat && (n <=? 90)%nat then ascii_of_nat (n + 32) else c.

Fixpoint lower (s : string) : string :=
  match s with
  | EmptyString => EmptyString
  | String c s' => String (lower_char c) (lower s')
  end.

Definition normalize_path (relative_path : string) : string :=
  let normalized := replace_backslash relative_path in
  let normalized := if String.prefix "./" normalized
                    then substring 2 (String.length normalized - 2) normalized
                    else normalized in
  lower normalized.

Definition create_canonical_file (normalized_relative_path : string) : string :=
  if String.prefix "/" normalized_relative_path then normalized_relative_path
  else "/" ++ normalized_relative_path.

Definition create_canonical_class (normalized_file_path class_name : string) : string :=
  normalized_file_path ++ "#" ++ class_name.

Fixpoint join_comma (l : list string) : string :=
  match l with
  | [] => ""
  | [x] => x
  | x :: l' => x ++ "," ++ join_comma l'
  end.

Definition create_canonical_function (function_name normalized_file_path : string)
    (param_types : option (list string)) (class_name : option string) : string :=
  let param_types_str := match param_types with
                         | Some ((_ :: _) as ps) => join_comma ps
                         | _ => "" end in
  let signature_string := "(" ++ param_types_str ++ ")" in
  match class_name with
  | Some cn => if String.eqb cn "" then normalized_file_path ++ "#" ++ function_name ++ signature_string
               else normalized_file_path ++ "#" ++ cn ++ "::" ++ function_name ++ signature_string
  | None => normalized_file_path ++ "#" ++ function_name ++ signature_string
  end.

(** An entity for which the analyzer mints an identifier pair. *)
Inductive entity :=
  | EFile (relative_path : string)
  | EClass (relative_path class_name : string)
  | EFunction (relative_path name : string) (param_types : option (list string))
              (class_name : option string).

Definition entity_path (e : entity) : string :=
  match e with EFile p | EClass p _ | EFunction p _ _ _ => p end.

Definition canonical_of (e : entity) : string :=
  match e with
  | EFile p => create_canonical_file (normalize_path p)
  | EClass p c => create_canonical_class (normalize_path p) c
  | EFunction p f ps c => create_canonical_function f (normalize_path p) ps c
  end.

(** The (canonical_id, gid) pair as produced by the visitor's [_add_node]. *)
Definition generate_id (e : entity) : string * string :=
  let c := canonical_of e in
  (c, generate_global_id LANGUAGE (entity_path e) c).

Definition is_lower_hex (c : ascii) : bool :=
  let n := nat_of_ascii c in
  ((48 <=? n)%nat && (n <=? 57)%nat) || ((97 <=? n)%nat && (n <=? 102)%nat).

Definition all_lower_hex (s : string) : bool :=
  forallb is_lower_hex (list_ascii_of_string s).


(** The same entity with [f] applied to its path. *)
(** The entity [e] with [f] applied to its relative path. *)
Definition map_path (f : string -> string) (e : entity) : entity :=
  match e with
  | EFile p => EFile (f p)
  | EClass p c => EClass (f p) c
  | EFunction p n ps c => EFunction (f p) n ps c
  end.

End IdGen.

(* ===================================================================== *)
(** * The AST visitor (python_analyzer_service/visitor.py, scope_manager.py) *)
(* ===================================================================== *)

Module Visitor.

Local Open Scope string_scope.

(** scope_manager.py: a stack of (global_id, canonical_identifier, node_type);
    the top of the stack is the last element of the Python list. *)
Record scope_manager := ScopeManager {
  file_node_id : option string;
  scope_stack : list (string * string * string)
}.

Definition stack_top (sm : scope_manager) : option (string * string * string) :=
  match rev (scope_stack sm) with t :: _ => Some t | [] => None end.

Definition enter_scope (sm : scope_manager) (global_id canonical_identifier node_type : string)
    : scope_manager :=
  ScopeManager (file_node_id sm) (scope_stack sm ++ [(global_id, canonical_identifier, node_type)]).

(** [pop()] when the stack is nonempty, a warning otherwise. *)
Definition exit_scope (sm : scope_manager) : scope_manager :=
  match scope_stack sm with
  | [] => sm
  | _ => ScopeManager (file_node_id sm) (removelast (scope_stack sm))
  end.

Definition get_current_scope_id (sm : scope_manager) : option string :=
  match stack_top sm with Some (g, _, _) => Some g | None => file_node_id sm end.

Definition get_current_scope_type (sm : scope_manager) : option string :=
  match stack_top sm with Some (_, _, t) => Some t | None => Some "File" end.

Definition is_in_class_scope (sm : scope_manager) : bool :=
  match get_current_scope_type sm with Some t => String.eqb t "Class" | None => false end.

Definition get_current_class_canonical (sm : scope_manager) : option string :=
  match find (fun '(_, _, t) => String.eqb t "Class") (rev (scope_stack sm)) with
  | Some (_, c, _) => Some c
  | None => None
  end.

(** [s.split(ch)[0]]: the text before the first [ch]. *)
Fixpoint split_first (ch : ascii) (s : string) : string :=
  match s with
  | EmptyString => EmptyString
  | String c s' => if Ascii.eqb c ch then EmptyString else String c (split_first ch s')
  end.

Fixpoint has_char (ch : ascii) (s : string) : bool :=
  match s with
  | EmptyString => false
  | String c s' => Ascii.eqb c ch || has_char ch s'
  end.

(** [os.path.basename]: the text after the last slash. *)
Fixpoint basename (s : string) : string :=
  match s with
  | EmptyString => EmptyString
  | String c s' => if has_char "/" s' then basename s'
                   else if Ascii.eqb c "/" then s' else s
  end.

(** The two [replace] calls that drop double and single quote characters. *)
Fixpoint remove_quotes (s : string) : string :=
  match s with
  | EmptyString => EmptyString
  | String c s' => if Ascii.eqb c "034"%char || Ascii.eqb c "039"%char
                   then remove_quotes s' else String c (remove_quotes s')
  end.

Definition create_canonical_import (normalized_file_path imported_identifier source_module : string)
    : string :=
  normalized_file_path ++ "#IMPORT:" ++ imported_identifier ++ "@" ++ remove_quotes source_module.

(** [s.split(ch, 1)[1]] for an [s] that contains [ch]: the text after the
    first [ch]. *)
Fixpoint after_first (ch : ascii) (s : string) : string :=
  match s with
  | EmptyString => EmptyString
  | String c s' => if Ascii.eqb c ch then s' else after_first ch s'
  end.

(** [sep.join(l)] *)
Fixpoint join_sep (sep : string) (l : list string) : string :=
  match l with
  | [] => ""
  | [x] => x
  | x :: l' => x ++ sep ++ join_sep sep l'
  end.

(** The [name_part] that [get_current_scope_path] takes from one scope. *)
Definition scope_name_part (t : string * string * string) : string :=
  let '(_, canonical_id, node_type) := t in
  let name_part := canonical_id in
  let name_part := if has_char ":" name_part then after_first ":" name_part else name_part in
  let name_part := if has_char "(" name_part then split_first "(" name_part else name_part in
  if has_char "." name_part && String.eqb node_type "Method"
  then after_first "." name_part else name_part.

Definition get_current_scope_path (sm : scope_manager) : option string :=
  match scope_stack sm with
  | [] => None
  | stk => Some (join_sep "::" (map scope_name_part stk))
  end.

(** id_generator.py: [if scope_path:] tests for a non-empty string. *)
Definition create_canonical_variable (variable_name normalized_file_path : string)
    (scope_path : option string) : string :=
  match scope_path with
  | Some sp => if String.eqb sp "" then normalized_file_path ++ "#" ++ variable_name
               else normalized_file_path ++ "#" ++ sp ++ "." ++ variable_name
  | None => normalized_file_path ++ "#" ++ variable_name
  end.

(** [re.match] with the patterns of [API_CALL_PATTERNS] and
    [DB_CALL_PATTERNS] (visitor_helpers.py).  Each pattern is [.*] followed
    by literal segments separated by [.*]; a segment is given by its
    alternatives, a group [(get|post|...)] expanded.  As [.] matches every
    character but a newline and the match is anchored at the start only,
    [re.match] succeeds exactly when the segments occur in order, without
    overlapping, in the text before the first newline. *)
Fixpoint first_line (s : string) : string :=
  match s with
  | EmptyString => EmptyString
  | String c s' => if Ascii.eqb c "010"%char then EmptyString else String c (first_line s')
  end.

Fixpoint segs_match (segs : list (list string)) (s : string) : bool :=
  match segs with
  | [] => true
  | seg :: rest =>
      (fix try (s : string) : bool :=
         existsb (fun a => String.prefix a s &&
                   segs_match rest (substring (String.length a) (String.length s - String.length a) s)) seg
         || match s with EmptyString => false | String _ s' => try s' end) s
  end.

Definition pattern_match (segs : list (list string)) (s : string) : bool :=
  segs_match segs (first_line s).

Definition with_each (prefix : string) (alternatives : list string) : list string :=
  map (fun a => prefix ++ a) alternatives.

Definition HTTP_VERBS : list string := ["get"; "post"; "put"; "delete"; "patch"; "head"; "options"].

Definition API_CALL_PATTERNS : list (list (list string)) :=
  [ [with_each ".requests." HTTP_VERBS];
    [[".urllib.request.urlopen"]];
    [with_each "aiohttp.ClientSession." HTTP_VERBS];
    [with_each "httpx." HTTP_VERBS];
    [["Flask.route"]];
    [with_each "FastAPI." HTTP_VERBS];
    [["django.urls.path"]];
    [["django.urls.re_path"]] ].

Definition DB_CALL_PATTERNS : list (list (list string)) :=
  [ [[".cursor.execute"]];
    [[".connection.execute"]];
    [["sqlalchemy.orm.Session.query"]];
    [["sqlalchemy.orm.Session.execute"]];
    [["sqlalchemy.engine.Connection.execute"]];
    [with_each "django.db.models.Manager."
       ["filter"; "get"; "create"; "update"; "delete"; "all"; "count"; "aggregate"; "annotate"]];
    [["django.db.connection.cursor.execute"]];
    [["psycopg2."]; [".execute"]];
    [["sqlite3."]; [".execute"]];
    [["mysql.connector."]; [".execute"]] ].

(** The relationship type [visit_Call] picks for the unparsed callee. *)
Definition call_rel_type (call_target_str : string) : string :=
  if existsb (fun p => pattern_match p call_target_str) API_CALL_PATTERNS then "CALLS_API"
  else if existsb (fun p => pattern_match p call_target_str) DB_CALL_PATTERNS then "QUERIES_DB"
  else "CALLS".

(** A line range as returned by [helpers.get_location]. *)
Definition location : Type := (option Z * option Z)%type.

(** The nodes of Python's [ast] as the visitor walks them.  The node types
    with a [visit_] method of their own get a constructor each, with their
    fields in the order of [_fields]; [ast.AsyncFunctionDef] is
    [FunctionDef] with [is_async = true].  Every other node type
    (statements such as [If] or [Return], expressions, constants, ...) is
    [Other], whose children are its AST-valued fields in field order, the
    nodes [generic_visit] walks.  A [keyword] is the pair of its [arg] and
    its [value]; a function's [arg] is the pair of its name and its
    annotation; an [alias] is its name, its asname and its location.
    [type_params] is empty before Python 3.12. *)
Inductive pyast :=
  | ClassDef (name : string) (bases : list pyast) (keywords : list (option string * pyast))
             (body decorator_list type_params : list pyast) (loc : location)
  | FunctionDef (is_async : bool) (name : string) (args : list (string * option pyast))
                (body decorator_list : list pyast) (returns : option pyast) (loc : location)
  | Assign (targets : list pyast) (value : pyast) (loc : location)
  | AnnAssign (target annotation : pyast) (value : option pyast) (loc : location)
  | Name (id : string) (is_load : bool) (loc : location)
  | Attribute (value : pyast) (attr : string) (loc : location)
  | Call (func : pyast) (args : list pyast) (keywords : list (option string * pyast))
         (loc : location)
  | Import (names : list (string * option string * location)) (loc : location)
  | ImportFrom (module : option string) (names : list (string * option string * location))
               (level : nat) (loc : location)
  | Other (kind : string) (children : list pyast) (loc : location).

Definition loc_of (n : pyast) : location :=
  match n with
  | ClassDef _ _ _ _ _ _ loc | FunctionDef _ _ _ _ _ _ loc | Assign _ _ loc
  | AnnAssign _ _ _ loc | Name _ _ loc | Attribute _ _ loc | Call _ _ _ loc
  | Import _ loc | ImportFrom _ _ _ loc | Other _ _ loc => loc
  end.

(** The node dictionary of [_add_node]; the [properties] it builds are not
    stored in it. *)
Record node_dict := NodeDict {
  uniqueId : string;
  nd_name : string;
  filePath : string;
  startLine : option Z;
  endLine : option Z;
  language : string;
  labels : list string
}.

(** The relationship dictionary of [_add_relationship] (its properties
    dictionary left out). *)
Record rel_dict := RelDict {
  sourceId : string;
  targetIdentifier : string;
  rel_type : string
}.

(** The visitor's state; [import_map] is written but never read, so it is
    left out. *)
Record vstate := VState {
  relative_path : string;
  nodes_data : list node_dict;
  relationships_data : list rel_dict;
  scope : scope_manager;
  defined_node_ids_in_run : list string
}.

Definition normalized_path (st : vstate) : string := IdGen.normalize_path (relative_path st).

Definition set_scope (st : vstate) (sm : scope_manager) : vstate :=
  VState (relative_path st) (nodes_data st) (relationships_data st) sm (defined_node_ids_in_run st).

Definition _add_node (st : vstate) (node_type name canonical_identifier : string) (loc : location)
    : vstate * string :=
  let global_id := IdGen.generate_global_id IdGen.LANGUAGE (relative_path st) canonical_identifier in
  let node := NodeDict global_id name (relative_path st) (fst loc) (snd loc) IdGen.LANGUAGE [node_type] in
  if existsb (String.eqb global_id) (defined_node_ids_in_run st) then (st, global_id)
  else (VState (relative_path st) (nodes_data st ++ [node]) (relationships_data st) (scope st)
               (global_id :: defined_node_ids_in_run st), global_id).

Definition _add_relationship (st : vstate) (source_node_id target_identifier rel : string) : vstate :=
  VState (relative_path st) (nodes_data st)
         (relationships_data st ++ [RelDict source_node_id target_identifier rel])
         (scope st) (defined_node_ids_in_run st).

(** [if parent_scope_id: self._add_relationship(parent_scope_id, ...)] *)
Definition add_from_scope (st : vstate) (target rel : string) : vstate :=
  match get_current_scope_id (scope st) with
  | Some p => if String.eqb p "" then st else _add_relationship st p target rel
  | None => st
  end.

Definition visit_Import (st : vstate) (names : list (string * option string * location)) : vstate :=
  fold_left (fun st '(module_name, _, aloc) =>
      let import_canonical := create_canonical_import (normalized_path st) module_name module_name in
      let '(st, _) := _add_node st "Import" module_name import_canonical aloc in
      add_from_scope st module_name "IMPORTS") names st.

(** ["." * level] *)
Fixpoint dots (n : nat) : string :=
  match n with O => "" | S n' => String "." (dots n') end.

Definition visit_ImportFrom (st : vstate) (module : option string)
    (names : list (string * option string * location)) (level : nat) : vstate :=
  let module_source := match module with Some m => m | None => "" end in
  let source_path_for_id := if (0 <? level)%nat then dots level ++ module_source else module_source in
  fold_left (fun st '(imported_name, _, aloc) =>
      let import_canonical :=
        create_canonical_import (normalized_path st) imported_name source_path_for_id in
      let '(st, _) := _add_node st "Import" imported_name import_canonical aloc in
      add_from_scope st source_path_for_id "IMPORTS") names st.

(** [class_canonical.split('(')[0] if class_canonical else None] *)
Definition class_name_of (cc : option string) : option string :=
  match cc with
  | Some c => if String.eqb c "" then None else Some (split_first "(" c)
  | None => None
  end.

Definition is_attribute (n : pyast) : bool :=
  match n with Attribute _ _ _ => true | _ => false end.

Section WithUnparse.

(** [helpers.unparse_safely] on a present node: [ast.unparse], or "<?>"
    when that raises.  It is a parameter of the visitor, so what is proved
    below holds whatever text it gives. *)
Variable unparse : pyast -> string.

Definition param_types (args : list (string * option pyast)) : list string :=
  map (fun '(_, ann) => match ann with Some a => unparse a | None => "Any" end) args.

(** The body of the loop over [node.targets] in [visit_Assign]. *)
Definition assign_target (current_scope_path : option string) (st : vstate) (target : pyast)
    : vstate :=
  let var_name := unparse target in
  if String.eqb var_name "" || String.eqb var_name "<?>" then st else
  let node_type := if is_attribute target then "Attribute" else "Variable" in
  let var_canonical := create_canonical_variable var_name (normalized_path st) current_scope_path in
  let '(st, var_global_id) := _add_node st node_type var_name var_canonical (loc_of target) in
  add_from_scope st var_global_id "CONTAINS".

(** [self.visit(node)]: the node's [visit_] method, or [generic_visit]. *)
Fixpoint visit (st : vstate) (node : pyast) {struct node} : vstate :=
  match node with
  | ClassDef name bases keywords body decorator_list type_params loc =>
      let class_canonical := IdGen.create_canonical_class (normalized_path st) name in
      let '(st, class_global_id) := _add_node st "Class" name class_canonical loc in
      let st := add_from_scope st class_global_id "CONTAINS" in
      let st := set_scope st (enter_scope (scope st) class_global_id class_canonical "Class") in
      (* generic_visit: bases, keywords, body, decorator_list, type_params *)
      let st := (fix go st l := match l with [] => st | x :: l' => go (visit st x) l' end) st bases in
      let st := (fix gokw st (l : list (option string * pyast)) :=
                   match l with [] => st | (_, v) :: l' => gokw (visit st v) l' end) st keywords in
      let st := (fix go st l := match l with [] => st | x :: l' => go (visit st x) l' end) st body in
      let st := (fix go st l := match l with [] => st | x :: l' => go (visit st x) l' end)
                  st decorator_list in
      let st := (fix go st l := match l with [] => st | x :: l' => go (visit st x) l' end)
                  st type_params in
      set_scope st (exit_scope (scope st))
  | FunctionDef _ name args body _ _ loc =>
      let is_method := is_in_class_scope (scope st) in
      let node_type := if is_method then "Method" else "Function" in
      let class_canonical := if is_method then get_current_class_canonical (scope st) else None in
      let func_canonical := IdGen.create_canonical_function name (normalized_path st)
                              (Some (param_types args)) (class_name_of class_canonical) in
      let '(st, func_global_id) := _add_node st node_type name func_canonical loc in
      let st := add_from_scope st func_global_id "CONTAINS" in
      let st := set_scope st (enter_scope (scope st) func_global_id func_canonical node_type) in
      let st := (fix go st l := match l with [] => st | x :: l' => go (visit st x) l' end) st body in
      set_scope st (exit_scope (scope st))
  | Assign targets value _ =>
      let current_scope_path := get_current_scope_path (scope st) in
      let st := fold_left (assign_target current_scope_path) targets st in
      visit st value
  | AnnAssign target annotation value _ =>
      let var_name := unparse target in
      if String.eqb var_name "" || String.eqb var_name "<?>" then
        let st := match value with Some v => visit st v | None => st end in
        visit st annotation
      else
        let node_type := if is_attribute target then "Attribute" else "Variable" in
        let current_scope_path := get_current_scope_path (scope st) in
        let var_canonical :=
          create_canonical_variable var_name (normalized_path st) current_scope_path in
        let '(st, var_global_id) := _add_node st node_type var_name var_canonical (loc_of target) in
        let st := add_from_scope st var_global_id "CONTAINS" in
        let st := visit st annotation in
        match value with Some v => visit st v | None => st end
  | Name id is_load _ =>
      if is_load then add_from_scope st id "REFERENCES" else st
  | Attribute value _ _ => visit st value
  | Call func args keywords _ =>
      let call_target_str := unparse func in
      let st := add_from_scope st call_target_str (call_rel_type call_target_str) in
      let st := visit st func in
      let st := (fix go st l := match l with [] => st | x :: l' => go (visit st x) l' end) st args in
      (fix gokw st (l : list (option string * pyast)) :=
         match l with [] => st | (_, v) :: l' => gokw (visit st v) l' end) st keywords
  | Import names _ => visit_Import st names
  | ImportFrom module names level _ => visit_ImportFrom st module names level
  | Other _ children _ =>
      (fix go st l := match l with [] => st | x :: l' => go (visit st x) l' end) st children
  end.

Definition visit_list (st : vstate) (l : list pyast) : vstate := fold_left visit l st.

Definition is_import (s : pyast) : bool :=
  match s with Import _ _ | ImportFrom _ _ _ _ => true | _ => false end.

(** [get_location] of a Module: line 1 to the end line of its last statement. *)
Definition module_location (body : list pyast) : location :=
  (Some 1, match rev body with s :: _ => snd (loc_of s) | [] => Some 1 end).

(** [CodeAnalyzerVisitor(relative_path, code).visit(module)] followed by
    [get_results()], for the module whose body is [body]. *)
Definition visit_Module (rp : string) (body : list pyast) : list node_dict * list rel_dict :=
  let st := VState rp [] [] (ScopeManager None []) [] in
  let file_canonical := IdGen.create_canonical_file (normalized_path st) in
  let '(st, file_global_id) := _add_node st "File" (basename rp) file_canonical (module_location body) in
  let st := set_scope st (ScopeManager (Some file_global_id) []) in
  let st := visit_list st (List.filter is_import body) in
  let st := visit_list st (List.filter (fun s => negb (is_import s)) body) in
  (nodes_data st, relationships_data st).

End WithUnparse.

(** [unparse_safely]'s own fallback for Python versions without
    [ast.unparse], on names and attributes; every other node gives "<?>"
    (constants too, whose [repr] is not modelled). *)
Fixpoint unparse_fallback (n : pyast) : string :=
  match n with
  | Name id _ _ => id
  | Attribute value attr _ => unparse_fallback value ++ "." ++ attr
  | _ => "<?>"
  end.

(** Induction over [pyast] through its lists, options and keyword pairs. *)
Definition opt_P (P : pyast -> Prop) (o : option pyast) : Prop :=
  match o with Some v => P v | None => True end.

Definition pyast_ind' (P : pyast -> Prop)
  (HC : forall n b k body d t loc, Forall P b -> Forall (fun kv => P (snd kv)) k ->
          Forall P body -> Forall P d -> Forall P t -> P (ClassDef n b k body d t loc))
  (HF : forall a n args body d r loc, Forall P body -> P (FunctionDef a n args body d r loc))
  (HA : forall ts v loc, P v -> P (Assign ts v loc))
  (HN : forall t a v loc, P a -> opt_P P v -> P (AnnAssign t a v loc))
  (HNm : forall i l loc, P (Name i l loc))
  (HAt : forall v a loc, P v -> P (Attribute v a loc))
  (HCl : forall f a k loc, P f -> Forall P a -> Forall (fun kv => P (snd kv)) k -> P (Call f a k loc))
  (HI : forall ns loc, P (Import ns loc))
  (HIF : forall m ns l loc, P (ImportFrom m ns l loc))
  (HO : forall k c loc, Forall P c -> P (Other k c loc)) : forall n, P n :=
  fix F n :=
    let fix G l := match l return Forall P l with
                   | [] => @List.Forall_nil _ P
                   | x :: l' => @List.Forall_cons _ P x l' (F x) (G l') end in
    let fix K (l : list (option string * pyast)) := match l return Forall (fun kv => P (snd kv)) l with
                   | [] => @List.Forall_nil _ _
                   | x :: l' => @List.Forall_cons _ (fun kv => P (snd kv)) x l' (F (snd x)) (K l') end in
    match n with
    | ClassDef nm b k body d t loc => HC nm b k body d t loc (G b) (K k) (G body) (G d) (G t)
    | FunctionDef a nm args body d r loc => HF a nm args body d r loc (G body)
    | Assign ts v loc => HA ts v loc (F v)
    | AnnAssign t a v loc => HN t a v loc (F a) (match v return opt_P P v with Some x => F x | None => I end)
    | Name i l loc => HNm i l loc
    | Attribute v a loc => HAt v a loc (F v)
    | Call f a k loc => HCl f a k loc (F f) (G a) (K k)
    | Import ns loc => HI ns loc
    | ImportFrom m ns l loc => HIF m ns l loc
    | Other k c loc => HO k c loc (G c)
    end.

(** What every step of the visitor keeps: the path, the scope, and a growing output. *)
Definition vstep (st st' : vstate) : Prop :=
  relative_path st' = relative_path st /\
  (exists ns, nodes_data st' = (nodes_data st ++ ns)%list) /\
  (exists rs, relationships_data st' = (relationships_data st ++ rs)%list) /\
  incl (defined_node_ids_in_run st) (defined_node_ids_in_run st').

Definition scope_ok (sm : scope_manager) (d : list string) : Prop :=
  (forall g, file_node_id sm = Some g -> In g d) /\
  (forall t, In t (scope_stack sm) -> In (fst (fst t)) d).

Definition rels_ok (rs : list rel_dict) (d : list string) : Prop :=
  forall r, In r rs -> In (sourceId r) d /\ (rel_type r = "CONTAINS" -> In (targetIdentifier r) d).

Definition vinv (st : vstate) : Prop :=
  List.NoDup (map uniqueId (nodes_data st)) /\
  (forall g, In g (defined_node_ids_in_run st) <-> In g (map uniqueId (nodes_data st))) /\
  scope_ok (scope st) (defined_node_ids_in_run st) /\
  rels_ok (relationships_data st) (defined_node_ids_in_run st).

(** A step of the visitor that grows the output, leaves the scope as it
    found it and keeps the invariant. *)
Definition vgood (st st' : vstate) : Prop :=
  vstep st st' /\ scope st' = scope st /\ (vinv st -> vinv st').

End Visitor.


(* ===================================================================== *)
(** * File watcher (services/file_watcher_service/main.py) *)
(* ===================================================================== *)

Module Watcher.

Local Open Scope string_scope.

Definition DEBOUNCE_MS : Z := 500.

Definition CODEBASE_ROOT : string := "/codebase".

Definition DEFAULT_IGNORED_PATTERNS : list string :=
  ["node_modules"; ".git"; "__pycache__"; "venv"; ".env"].

Inductive event_type := CREATED | MODIFIED | DELETED.

Definition event_type_eqb (a b : event_type) : bool :=
  match a, b with
  | CREATED, CREATED | MODIFIED, MODIFIED | DELETED, DELETED => true
  | _, _ => false
  end.

(** The [event_type] of a watchdog event: created, modified, deleted, or
    another one (moved, opened, closed). *)
Inductive event_kind := EvCreated | EvModified | EvDeleted | EvOther.

(** [event.event_type.upper()] as [on_any_event] compares it. *)
Definition kind_type (k : event_kind) : option event_type :=
  match k with
  | EvCreated => Some CREATED
  | EvModified => Some MODIFIED
  | EvDeleted => Some DELETED
  | EvOther => None
  end.

(** A watchdog event.  [t_any] and [t_own] are the values of
    [time.time() * 1000] (taken here in whole milliseconds) that
    [_should_process_now] reads during the two handler calls of the event:
    the one made from [on_any_event], then the one made from
    [on_created]/[on_modified]/[on_deleted]. *)
Record fs_event := FsEvent {
  src_path : string; is_directory : bool; kind : event_kind; t_any : Z; t_own : Z }.

(** The message handed to [publish_with_retry]. *)
Record job := Job { job_file_path : string; job_event_type : event_type }.

(** The per-file timestamp table [self.file_timestamps]. *)
Abbreviation timestamps := (gmap string Z).

Definition ends_with (suf s : string) : bool :=
  (String.length suf <=? String.length s)%nat &&
  String.eqb (substring (String.length s - String.length suf) (String.length suf) s) suf.

(** The text between the slashes of [s]. *)
Fixpoint split_acc (cur s : string) : list string :=
  match s with
  | EmptyString => [cur]
  | String c s' => if Ascii.eqb c "/"%char then cur :: split_acc "" s'
                   else split_acc (cur ++ String c EmptyString) s'
  end.

(** The components of a [PurePosixPath]: empty and "." components are
    dropped (paths starting with exactly two slashes are not considered). *)
Definition parts (p : string) : list string :=
  List.filter (fun c => negb (String.eqb c "") && negb (String.eqb c ".")) (split_acc "" p).

Definition is_abs (p : string) : bool :=
  match p with String c _ => Ascii.eqb c "/"%char | EmptyString => false end.

Fixpoint join_slash (cs : list string) : string :=
  match cs with
  | [] => ""
  | [c] => c
  | c :: cs' => c ++ "/" ++ join_slash cs'
  end.

(** [str(Path(p))]. *)
Definition path_str (p : string) : string :=
  if is_abs p then "/" ++ join_slash (parts p)
  else match parts p with [] => "." | cs => join_slash cs end.

(** [Path(p).resolve()], for the absolute paths watchdog reports under an
    absolute [CODEBASE_ROOT], with no symbolic link and no ".." component on
    them: resolution only normalises the path. *)
Definition resolve (p : string) : string := path_str p.

(** [Path(p).name]: the last component. *)
Definition name (p : string) : string := List.last (parts p) "".

(** [Path(p).suffix == '.py']: the name ends in ".py" and its last dot is
    not its first character. *)
Definition py_suffix (p : string) : bool :=
  let b := name p in ends_with ".py" b && negb (String.eqb b ".py").

Fixpoint strip_prefix (pre l : list string) : option (list string) :=
  match pre, l with
  | [], _ => Some l
  | x :: pre', y :: l' => if String.eqb x y then strip_prefix pre' l' else None
  | _ :: _, [] => None
  end.

(** [str(Path(p).relative_to(root))]; [None] is the [ValueError] raised when
    [root] is not [p] or one of its parents. *)
Definition relative_to (p root : string) : option string :=
  if Bool.eqb (is_abs p) (is_abs root) then
    match strip_prefix (parts root) (parts p) with
    | Some [] => Some "."
    | Some cs => Some (join_slash cs)
    | None => None
    end
  else None.

(** [_should_ignore_path] on Linux: [fnmatch(path, f"*{pattern}*")], for
    patterns without wildcard characters. *)
Definition should_ignore_path (patterns : list string) (path : string) : bool :=
  existsb (fun pat => match String.index 0 pat path with Some _ => true | None => false end)
          patterns.

(** [_should_process_now]: returns the decision and the updated table;
    [current_time] is the clock reading of the call. *)
Definition should_process_now (ts : timestamps) (file_path : string) (et : event_type)
    (current_time : Z) : bool * timestamps :=
  match et with
  | DELETED => (true, delete file_path ts)
  | _ =>
      match ts !! file_path with
      | None => (false, <[file_path := current_time]> ts)
      | Some last_time =>
          let time_diff := current_time - last_time in
          ((DEBOUNCE_MS <=? time_diff)%Z, <[file_path := current_time]> ts)
      end
  end.

(** The [file_path] of the published message: the path relative to the
    resolved [CODEBASE_ROOT]; for a deletion outside it, the file name; for
    another event outside it, [str(event.src_path)] from the outer
    [except]. *)
Definition job_path (root : string) (e : fs_event) (et : event_type) : string :=
  match et with
  | DELETED =>
      match relative_to (src_path e) (resolve root) with
      | Some r => r
      | None => name (src_path e)
      end
  | _ =>
      match relative_to (resolve (src_path e)) (resolve root) with
      | Some r => r
      | None => src_path e
      end
  end.

(** [_process_event]: directory, extension and ignore filters, the relative
    path, then the debounce decision (keyed by [str(abs_path)]), then
    publication of [{file_path, event_type}]. *)
Definition process_event (root : string) (patterns : list string) (ts : timestamps)
    (e : fs_event) (et : event_type) (now : Z) : list job * timestamps :=
  if is_directory e then ([], ts)
  else
    let abs_path := resolve (src_path e) in
    if negb (event_type_eqb et DELETED) && negb (py_suffix abs_path) then ([], ts)
    else if event_type_eqb et DELETED && negb (ends_with ".py" (src_path e)) then ([], ts)
    else if should_ignore_path patterns abs_path then ([], ts)
    else
      let rel_path := job_path root e et in
      let '(go, ts') := should_process_now ts abs_path et now in
      if go then ([Job rel_path et], ts') else ([], ts').

(** watchdog's [dispatch]: [on_any_event(event)], which calls the handler
    of the upper-cased type, then [on_<event_type>(event)] itself, so a
    created, modified or deleted event runs [_process_event] twice; the
    [on_moved]/[on_opened]/[on_closed] handlers are those of the base class
    and do nothing. *)
Definition dispatch (root : string) (patterns : list string) (ts : timestamps) (e : fs_event)
    : list job * timestamps :=
  match kind_type (kind e) with
  | None => ([], ts)
  | Some et =>
      let '(out1, ts1) := process_event root patterns ts e et (t_any e) in
      let '(out2, ts2) := process_event root patterns ts1 e et (t_own e) in
      ((out1 ++ out2)%list, ts2)
  end.

Fixpoint run (root : string) (patterns : list string) (ts : timestamps) (evs : list fs_event)
    : list job * timestamps :=
  match evs with
  | [] => ([], ts)
  | e :: evs' =>
      let '(out, ts') := dispatch root patterns ts e in
      let '(out', ts'') := run root patterns ts' evs' in
      ((out ++ out')%list, ts'')
  end.

(** A burst: MODIFIED events on one path, each with its two clock readings. *)
Definition burst (p : string) (rs : list (Z * Z)) : list fs_event :=
  map (fun '(a, b) => FsEvent p false EvModified a b) rs.

(** All clock readings of a burst, in order. *)
Fixpoint readings (rs : list (Z * Z)) : list Z :=
  match rs with
  | [] => []
  | (a, b) :: rs' => a :: b :: readings rs'
  end.

(** Consecutive readings are less than [DEBOUNCE_MS] apart. *)
Fixpoint gaps_below (t : Z) (rest : list Z) : Prop :=
  match rest with
  | [] => True
  | t' :: rest' => (t' - t < DEBOUNCE_MS)%Z /\ gaps_below t' rest'
  end.

Definition gaps_ok (l : list Z) : Prop :=
  match l with [] => True | t :: rest => gaps_below t rest end.

(** Five writes of [/codebase/src/app.py] 100 ms apart; each event's two
    handler calls read the clock 1 ms apart. *)
Definition five_writes : list (Z * Z) :=
  [(0, 1); (100, 101); (200, 201); (300, 301); (400, 401)]%Z.

End Watcher.

(* ===================================================================== *)
(** * Python analyzer job handler (services/analyzers/python_analyzer) *)
(* ===================================================================== *)

Module Analyzer.

Local Open Scope string_scope.

(** A node dictionary built by [PythonAstVisitor] or synthesised for an
    external target; [None] is a key that is absent from the dict. *)
Record node_dict := NodeDict {
  nd_type : option string;
  nd_name : option string;
  nd_path : option string;
  nd_canonical_id : option string;
  nd_gid : option string;
  nd_external : option bool
}.

(** A relationship dictionary of the visitor; [rd_source = None] is Python's
    [None] (a call visited outside any function scope). *)
Record rel_dict := RelDict {
  rd_source_canonical_id : option string;
  rd_target_canonical_id : string;
  rd_type : string
}.

(** The job message, after [json.loads]; [None] is a missing key. *)
Record job_message := JobMessage {
  m_file_path : option string;
  m_event_type : option string;
  m_id : option string
}.

(** Pydantic models of shared/models/python/models.py. *)
Record node_stub := NodeStub {
  ns_gid : string; ns_canonical_id : string; ns_name : string;
  ns_file_path : string; ns_language : string; ns_labels : list string
}.

Record rel_stub := RelStub {
  rs_source_gid : string; rs_target_canonical_id : string; rs_type : string
}.

Record payload := Payload {
  pl_file_path : string;
  pl_language : string;
  pl_error : option string;
  pl_nodes_upserted : list node_stub;
  pl_relationships_upserted : list rel_stub;
  pl_nodes_deleted : list string
}.

Inductive ack := Acked | Nacked_requeue.

(** What [analyze_python_file] sees when it reads, parses and visits the
    file: either the visitor's lists or an exception (unreadable file,
    [SyntaxError] from [ast.parse], ...). *)
Inductive file_analysis :=
  | Visited (nodes : list node_dict) (rels : list rel_dict)
  | Raised.

(** [analyze_python_file]: any exception is logged and gives [([], [])]. *)
Definition analyze_python_file (a : file_analysis) : list node_dict * list rel_dict :=
  match a with
  | Visited ns rs => (ns, rs)
  | Raised => ([], [])
  end.

Definition nonempty (o : option string) : bool :=
  match o with Some s => negb (String.eqb s "") | None => false end.

(** [{k: v ... if v not in ('', None, [], {})}] on a string value. *)
Definition keep_nonempty (s : string) : option string :=
  if String.eqb s "" then None else Some s.

Definition is_some {A} (o : option A) : bool := match o with Some _ => true | None => false end.

Definition mem (x : string) (l : list string) : bool := existsb (String.eqb x) l.

Fixpoint dedup (l : list string) : list string :=
  match l with
  | [] => []
  | x :: l' => if mem x l' then dedup l' else x :: dedup l'
  end.

(** [batch_insert_nodes]: nothing to do for an empty list; otherwise a
    connection (which may fail) and a [KeyError] unless every node has
    canonical_id, name, type and path. *)
Definition batch_insert_nodes (pg_ok : bool) (nodes : list node_dict) : bool :=
  match nodes with
  | [] => true
  | _ => pg_ok && forallb (fun n => is_some (nd_canonical_id n) && is_some (nd_name n) &&
                                    is_some (nd_type n) && is_some (nd_path n)) nodes
  end.

Definition batch_insert_relationships (pg_ok : bool) (rels : list rel_dict) : bool :=
  match rels with [] => true | _ => pg_ok end.

Definition external_node (t : string) : node_dict :=
  NodeDict (Some "External") (keep_nonempty t) None (keep_nonempty t) None (Some true).

Definition create_analysis_node_stub (n : node_dict) : option node_stub :=
  match nd_type n with
  | Some ty => Some (NodeStub (default "" (nd_gid n)) (default "" (nd_canonical_id n))
                       (default "" (nd_name n)) (default "" (nd_path n)) "python" [ty])
  | None => None  (* KeyError on node['type'] *)
  end.

Definition create_analysis_relationship_stub (r : rel_dict) : option rel_stub :=
  match rd_source_canonical_id r with
  | Some s => Some (RelStub s (rd_target_canonical_id r) (rd_type r))
  | None => None  (* pydantic rejects None for a str field *)
  end.

Fixpoint all_some {A} (l : list (option A)) : option (list A) :=
  match l with
  | [] => Some []
  | Some x :: l' => match all_some l' with Some r => Some (x :: r) | None => None end
  | None :: _ => None
  end.

(** [process_message]: returns the acknowledgement and the payload
    published on the results queue, if any. [pg_ok] says whether the
    Postgres connection succeeds. *)
Definition process_message (m : job_message) (a : file_analysis) (pg_ok : bool)
    : ack * option payload :=
  if negb (nonempty (m_id m)) then (Acked, None) else
  match m_file_path m with
  | None => (Nacked_requeue, None)   (* None.endswith raises *)
  | Some file_path =>
  if negb (Watcher.ends_with ".py" file_path) then (Acked, None) else
  if match m_event_type m with Some et => String.eqb et "DELETED" | None => false end
  then (Acked, None) else
  let '(nodes, relationships) := analyze_python_file a in
  match nodes with
  | [] => (Acked, None)
  | _ =>
  match all_some (map nd_canonical_id nodes) with
  | None => (Nacked_requeue, None)    (* KeyError on n['canonical_id'] *)
  | Some node_canonical_ids =>
  let missing_targets :=
    dedup (List.filter (fun t => negb (mem t node_canonical_ids))
                  (map rd_target_canonical_id relationships)) in
  let external_nodes :=
    List.filter (fun n => is_some (nd_type n) && is_some (nd_canonical_id n) && is_some (nd_external n))
           (map external_node missing_targets) in
  let '(ok1, node_canonical_ids, nodes) :=
    match external_nodes with
    | [] => (true, node_canonical_ids, nodes)
    | _ => (batch_insert_nodes pg_ok external_nodes,
            (node_canonical_ids ++ missing_targets)%list, (nodes ++ external_nodes)%list)
    end in
  if negb ok1 then (Nacked_requeue, None) else
  let filtered_relationships :=
    List.filter (fun r => match rd_source_canonical_id r with
                     | Some s => mem s node_canonical_ids
                     | None => false end
                     && mem (rd_target_canonical_id r) node_canonical_ids) relationships in
  if negb (batch_insert_nodes pg_ok nodes) then (Nacked_requeue, None) else
  if negb (batch_insert_relationships pg_ok filtered_relationships) then (Nacked_requeue, None) else
  match all_some (map create_analysis_node_stub nodes),
        all_some (map create_analysis_relationship_stub filtered_relationships) with
  | Some node_stubs, Some relationship_stubs =>
      (Acked, Some (Payload file_path "python" None node_stubs relationship_stubs []))
  | _, _ => (Nacked_requeue, None)
  end
  end
  end
  end.

(** A sample job: [app.py] defines [f] and [g], and [f] calls [g]. *)
Definition sample_job : job_message := JobMessage (Some "app.py") (Some "MODIFIED") (Some "job-1").

Definition sample_nodes : list node_dict :=
  [NodeDict (Some "File") (Some "app.py") (Some "app.py") (Some "/app.py") (Some "python:1") None;
   NodeDict (Some "Function") (Some "f") (Some "app.py") (Some "/app.py#f()") (Some "python:2") None;
   NodeDict (Some "Function") (Some "g") (Some "app.py") (Some "/app.py#g()") (Some "python:3") None].

Definition sample_analysis : file_analysis :=
  Visited sample_nodes [RelDict (Some "/app.py#f()") "/app.py#g()" ":CALLS"].

Definition sample_payload : payload :=
  Payload "app.py" "python" None
    [NodeStub "python:1" "/app.py" "app.py" "app.py" "python" ["File"];
     NodeStub "python:2" "/app.py#f()" "f" "app.py" "python" ["Function"];
     NodeStub "python:3" "/app.py#g()" "g" "app.py" "python" ["Function"]]
    [RelStub "/app.py#f()" "/app.py#g()" ":CALLS"] [].


(** [f] of app.py calls the builtin [print], which no node of the file has
    as canonical id. *)
Definition print_analysis : file_analysis :=
  Visited sample_nodes [RelDict (Some "/app.py#f()") "/app.py#g()" ":CALLS";
                        RelDict (Some "/app.py#f()") "print" ":CALLS"].

End Analyzer.

(* ===================================================================== *)
(** * Ingestion worker: the Neo4j store and the Cypher queries
    (services/ingestion_worker/main.py) *)

Module Ingest.
Local Open Scope string_scope.

(** A graph node: Neo4j's internal identity [nid] and the properties
    the queries read ([gid], [canonical_id], [file_path]) plus its labels. *)
Record gnode := GNode {
  nid : nat; n_gid : string; n_canonical_id : string; n_file_path : string;
  n_labels : list string }.

(** A typed relationship between two node identities. *)
Record gedge := GEdge { e_src : nat; e_type : string; e_tgt : nat }.

(** A [:PendingRelationship] node: [sourceGid], [targetCanonicalId], [type]. *)
Record pending := Pending { p_source_gid : string; p_target_cid : string; p_type : string }.

Record store := Store {
  nodes : list gnode; edges : list gedge; pendings : list pending; fresh : nat }.

Definition empty_store : store := Store [] [] [] 0.

Definition set_nodes (s : store) ns := Store ns (edges s) (pendings s) (fresh s).
Definition set_edges (s : store) es := Store (nodes s) es (pendings s) (fresh s).
Definition set_pendings (s : store) ps := Store (nodes s) (edges s) ps (fresh s).

(** The value of a row's [properties] key: [None] when the key is absent or
    null, [Some m] when it is a map.  The analyzer's [AnalysisNodeStub] and
    [AnalysisRelationshipStub] always carry a map there (possibly empty). *)
Abbreviation properties_map := (option (list (string * string))).

(** Payload rows as the worker receives them: the keys the queries read, and
    the [properties] entry, which [SET n += row] and [SET r += row] copy onto
    the node or relationship along with the other keys. *)
Record node_row := NodeRow {
  r_gid : string; r_canonical_id : string; r_file_path : string; r_labels : list string;
  r_properties : properties_map }.
Record rel_row := RelRow {
  rr_source_gid : string; rr_target_canonical_id : string; rr_type : option string;
  rr_properties : properties_map }.
Record result_payload := ResultPayload {
  nodes_upserted : list node_row; relationships_upserted : list rel_row;
  nodes_deleted : list string; relationships_deleted : list rel_row }.

(** [defaultdict(list)] grouping: groups in first-occurrence order of their key. *)
Section GroupBy.
Context {A K : Type} (eqk : K -> K -> bool) (key : A -> K).
Fixpoint add_to_group (k : K) (x : A) (gs : list (K * list A)) : list (K * list A) :=
  match gs with
  | [] => [(k, [x])]
  | (k', ys) :: gs' => if eqk k k' then (k', (ys ++ [x])%list) :: gs'
                       else (k', ys) :: add_to_group k x gs'
  end.
Definition group_by (xs : list A) : list (K * list A) :=
  fold_left (fun gs x => add_to_group (key x) x gs) xs [].
End GroupBy.

Definition labels_eqb (a b : list string) : bool :=
  bool_decide (a = b).

(** [MERGE (n:label_str {gid: row.gid}) ON CREATE SET n += row ON MATCH SET n += row] *)
Definition merge_hit (labels : list string) (row : node_row) (n : gnode) : bool :=
  String.eqb (n_gid n) (r_gid row)
  && forallb (fun l => existsb (String.eqb l) (n_labels n)) labels.

Definition merge_node (labels : list string) (s : store) (row : node_row) : store :=
  if existsb (merge_hit labels row) (nodes s) then
    set_nodes s (map (fun n => if merge_hit labels row n
                               then GNode (nid n) (r_gid row) (r_canonical_id row)
                                          (r_file_path row) (n_labels n)
                               else n) (nodes s))
  else
    Store ((nodes s ++ [GNode (fresh s) (r_gid row) (r_canonical_id row)
                                (r_file_path row) labels])%list)
          (edges s) (pendings s) (S (fresh s)).

(** [SET x += row] copies every key of the row onto [x]; a key whose value is
    a map cannot be a property value in Neo4j, so the statement raises a type
    error for a row that carries a [properties] map. *)
Definition has_properties_map (m : properties_map) : bool :=
  match m with Some _ => true | None => false end.

(** [ingest_nodes]: one MERGE batch per label group.  Every row of the batch
    reaches [ON CREATE SET n += row] or [ON MATCH SET n += row], so a group
    with a row carrying a [properties] map fails as a whole: the auto-commit
    transaction is rolled back and the [except] of the group logs the error.
    Otherwise the MERGE runs, and the following
    [result.single()["count"] if result.single() else 0] calls [single()]
    twice; the second returns nothing and subscripting it raises, which the
    same [except] catches, so the per-node pending resolution after it is
    never reached. *)
Definition ingest_nodes (s : store) (rows : list node_row) : store :=
  match rows with
  | [] => s
  | _ => fold_left (fun s '(labels, group) =>
                      if existsb (fun r => has_properties_map (r_properties r)) group then s
                      else fold_left (merge_node labels) group s)
                   (group_by labels_eqb r_labels rows) s
  end.

Definition rel_type (r : rel_row) : string :=
  match rr_type r with Some t => t | None => "RELATED_TO" end.

(** [MATCH (source {gid: row.source_gid}) MATCH (target {canonical_id: row.target_canonical_id})] *)
Definition match_row (s : store) (r : rel_row) : list (gnode * gnode) :=
  flat_map (fun a => map (fun b => (a, b))
              (List.filter (fun b => String.eqb (n_canonical_id b) (rr_target_canonical_id r)) (nodes s)))
           (List.filter (fun a => String.eqb (n_gid a) (rr_source_gid r)) (nodes s)).

Definition gedge_eqb (e f : gedge) : bool :=
  Nat.eqb (e_src e) (e_src f) && String.eqb (e_type e) (e_type f) && Nat.eqb (e_tgt e) (e_tgt f).

(** [MERGE (source)-[r:`rel_type`]->(target)] *)
Definition merge_edge (s : store) (e : gedge) : store :=
  if existsb (gedge_eqb e) (edges s) then s else set_edges s ((edges s ++ [e])%list).

Definition key_eqb (k l : string * string) : bool :=
  String.eqb (fst k) (fst l) && String.eqb (snd k) (snd l).

Definition row_key (r : rel_row) : string * string := (rr_source_gid r, rr_target_canonical_id r).

(** A row for which the two [MATCH] clauses find at least one pair. *)
Definition matched (s : store) (r : rel_row) : bool :=
  match match_row s r with [] => false | _ => true end.

(** The MERGE batch of a type group fails when a row that reaches
    [SET r += row] (one that [MATCH]es a pair) carries a [properties] map. *)
Definition group_fails (s : store) (group : list rel_row) : bool :=
  existsb (fun r => has_properties_map (rr_properties r) && matched s r) group.

(** One type group of [ingest_relationships]: the MERGE batch, the rows it
    returned ([created_pairs]), and [CREATE (pr:PendingRelationship ...)] for
    every other row.  When the MERGE batch fails, the error is raised while
    its result is read, the transaction is rolled back and the [except] of
    the group catches it before the pending batch is built: the group leaves
    no edge and no pending.  (After the pending batch, the doubled
    [single()] raises as well, but the pendings are written by then.) *)
Definition ingest_rel_group (s : store) (t : string) (group : list rel_row) : store :=
  if group_fails s group then s else
  let s1 := fold_left (fun s r =>
              fold_left (fun s '(a, b) => merge_edge s (GEdge (nid a) t (nid b))) (match_row s r) s)
              group s in
  let created_pairs := map row_key (List.filter (matched s) group) in
  let pending_batch := List.filter (fun r => negb (existsb (key_eqb (row_key r)) created_pairs)) group in
  set_pendings s1 ((pendings s1 ++ map (fun r => Pending (rr_source_gid r) (rr_target_canonical_id r) t)
                                       pending_batch)%list).

Definition ingest_relationships (s : store) (rows : list rel_row) : store :=
  match rows with
  | [] => s
  | _ => fold_left (fun s '(t, group) => ingest_rel_group s t group)
                   (group_by String.eqb rel_type rows) s
  end.

(** The outcome of a Cypher statement: its effect, or an error raised to the
    Python caller. *)
Inductive query_outcome (A : Type) := QueryOk (a : A) | QueryError.
Arguments QueryOk {A} a.
Arguments QueryError {A}.

(** The second statement of [delete_nodes] (the cascade).  Neo4j's parser
    rejects it: in [WHERE pr.sourceGid IN [node.gid IN nodes | node.gid]]
    the brackets hold neither a list literal ([|] is no operator) nor a list
    comprehension, whose variable must be a plain name, not [node.gid].  The
    statement therefore never runs and always raises a syntax error. *)
Definition cascade_delete_query (s : store) (g : string) : query_outcome store := QueryError.

(** One gid of [delete_nodes]: the first statement ([MATCH (n {gid: $gid})
    ...]) yields a record exactly when a node has the gid; then the cascade
    statement raises, and the [except] of the gid logs the error. *)
Definition delete_node (s : store) (g : string) : store :=
  match List.filter (fun n => String.eqb (n_gid n) g) (nodes s) with
  | [] => s
  | _ => match cascade_delete_query s g with QueryOk s' => s' | QueryError => s end
  end.

Definition delete_nodes (s : store) (gids : list string) : store :=
  fold_left delete_node gids s.

(** One identifier of [delete_relationships]; the [type] filter is added
    only when the type is present and non-empty.  The edge [DELETE] runs;
    then [result.single()["deleted"] if result.single() else 0] calls
    [single()] twice, the second call returns nothing and subscripting it
    raises, so the [except] of the identifier is reached before the pending
    deletion: the pending-deletion statement is never run. *)
Definition delete_relationship (s : store) (r : rel_row) : store :=
  let type_ok t := match rr_type r with
                   | Some t' => if String.eqb t' "" then true else String.eqb t t'
                   | None => true end in
  let node_is i p := existsb (fun n => Nat.eqb (nid n) i && p n) (nodes s) in
  let hit e := node_is (e_src e) (fun n => String.eqb (n_gid n) (rr_source_gid r))
               && node_is (e_tgt e) (fun n => String.eqb (n_canonical_id n) (rr_target_canonical_id r))
               && type_ok (e_type e) in
  Store (nodes s) (List.filter (fun e => negb (hit e)) (edges s)) (pendings s) (fresh s).

Definition delete_relationships (s : store) (rs : list rel_row) : store :=
  fold_left delete_relationship rs s.

Definition RELATIONSHIP_BATCH_SIZE : nat := 100.

(** One row of the resolution query: [MATCH] source by gid, target by
    canonical id and the pendings with the row's three fields; for each match
    [MERGE] the edge and [DELETE pr].  The pendings carry no [properties],
    so [row.properties] is null; this model takes [SET r += null] to leave
    [r] unchanged, an assumption about Neo4j that the code itself does not
    settle. *)
Definition resolve_row (t : string) (s : store) (row : string * string) : store :=
  let '(src, tgt) := row in
  let pairs := match_row s (RelRow src tgt None None) in
  let hit q := String.eqb (p_source_gid q) src && String.eqb (p_target_cid q) tgt
               && String.eqb (p_type q) t in
  match pairs, List.filter hit (pendings s) with
  | [], _ | _, [] => s
  | _, _ => set_pendings
              (fold_left (fun s '(a, b) => merge_edge s (GEdge (nid a) t (nid b))) pairs s)
              (List.filter (fun q => negb (hit q)) (pendings s))
  end.

(** [resolve_pending_relationships]: [while True] over batches of
    [LIMIT batch_size] pendings (taken in store order), leaving only when a
    batch is empty or shorter than [batch_size].  The loop need not end, so
    it is run on fuel; [None] means the fuel ran out. *)
Fixpoint resolve_pending_relationships (fuel : nat) (s : store) : option store :=
  match fuel with
  | O => None
  | S fuel' =>
    let batch := firstn RELATIONSHIP_BATCH_SIZE (pendings s) in
    match batch with
    | [] => Some s
    | _ =>
      let s' := fold_left (fun s '(t, group) =>
                  fold_left (resolve_row t) (map (fun p => (p_source_gid p, p_target_cid p)) group) s)
                  (group_by String.eqb p_type batch) s in
      if Nat.ltb (length batch) RELATIONSHIP_BATCH_SIZE then Some s'
      else resolve_pending_relationships fuel' s'
    end
  end.

(** [process_message] of the ingestion worker. *)
Definition process_message (fuel : nat) (s : store) (pl : result_payload) : option store :=
  let s := ingest_nodes s (nodes_upserted pl) in
  let s := ingest_relationships s (relationships_upserted pl) in
  let s := delete_nodes s (nodes_deleted pl) in
  let s := delete_relationships s (relationships_deleted pl) in
  resolve_pending_relationships fuel s.

Definition counts (s : store) : nat * nat * nat :=
  (length (nodes s), length (edges s), length (pendings s)).
(** Sample payloads.  [app_payload]: the file [app.py] imports [os], which
    no node of the store has as canonical id. *)
Definition app_payload : result_payload :=
  ResultPayload [NodeRow "python:file" "/app.py" "app.py" ["File"] None]
                [RelRow "python:file" "os" (Some "IMPORTS") None] [] [].

(** [nested_payload]: [app.py] contains class [C], which contains method [m]. *)
Definition nested_payload : result_payload :=
  ResultPayload [NodeRow "python:file" "/app.py" "app.py" ["File"] None;
                 NodeRow "python:cls" "/app.py#C" "app.py" ["Class"] None;
                 NodeRow "python:meth" "/app.py#C::m()" "app.py" ["Function"] None]
                [RelRow "python:file" "/app.py#C" (Some "CONTAINS") None;
                 RelRow "python:cls" "/app.py#C::m()" (Some "CONTAINS") None] [] [].

Definition delete_file_payload : result_payload :=
  ResultPayload [] [] ["python:file"] [].

(** [e] is an edge that row [r] may produce over the nodes [ns]: from a node
    whose gid is the row's source to a node whose canonical id is its target,
    typed with the row's type. *)
Definition edge_of_row (ns : list gnode) (r : rel_row) (e : gedge) : Prop :=
  exists a b, In a ns /\ In b ns /\ n_gid a = rr_source_gid r /\
              n_canonical_id b = rr_target_canonical_id r /\
              e = GEdge (nid a) (rel_type r) (nid b).
(** The store holding the nodes of [nested_payload], and its relationship
    rows plus one import of [os], which no node provides. *)
Definition sample_store : store := ingest_nodes empty_store (nodes_upserted nested_payload).

(** Two CONTAINS rows as the analyzer builds them, each with its
    [properties] map (empty here): the first joins two nodes of
    [sample_store], the second names a target no node has. *)
Definition stub_rows : list rel_row :=
  [RelRow "python:file" "/app.py#C" (Some "CONTAINS") (Some []);
   RelRow "python:cls" "/app.py#D" (Some "CONTAINS") (Some [])].

(** [p] has been turned into an edge of [s]: a node with its source gid, a
    node with its target canonical id and the typed edge between them. *)
Definition resolved_in (s : store) (p : pending) : Prop :=
  exists a b, In a (nodes s) /\ In b (nodes s) /\ n_gid a = p_source_gid p /\
              n_canonical_id b = p_target_cid p /\ In (GEdge (nid a) (p_type p) (nid b)) (edges s).

(** What one step of pending resolution may do to a store. *)
Definition progress (s s' : store) : Prop :=
  nodes s' = nodes s /\ fresh s' = fresh s /\ incl (edges s) (edges s') /\ incl (pendings s') (pendings s) /\
  (forall p, In p (pendings s) -> In p (pendings s') \/ resolved_in s' p) /\
  (forall e, In e (edges s') -> In e (edges s) \/
     exists a b, In a (nodes s) /\ In b (nodes s) /\ e_src e = nid a /\ e_tgt e = nid b).

(** The store's own bookkeeping: node ids are distinct and below the
    counter [fresh], and every edge joins two node ids of the store. *)
Definition store_ok (s : store) : Prop :=
  List.NoDup (map nid (nodes s)) /\ Forall (fun i => (i < fresh s)%nat) (map nid (nodes s)) /\
  (forall e, In e (edges s) -> In (e_src e) (map nid (nodes s)) /\ In (e_tgt e) (map nid (nodes s))).

(** [r] selects the type [t] in [delete_relationships]: no type, or an empty
    one, selects every type. *)
Definition type_matches (r : rel_row) (t : string) : Prop :=
  match rr_type r with Some t' => t' = ""%string \/ t = t' | None => True end.

Definition edge_matches (s : store) (r : rel_row) (e : gedge) : Prop :=
  (exists a, In a (nodes s) /\ nid a = e_src e /\ n_gid a = rr_source_gid r) /\
  (exists b, In b (nodes s) /\ nid b = e_tgt e /\ n_canonical_id b = rr_target_canonical_id r) /\
  type_matches r (e_type e).

Definition stalled_store : store :=
  Store [] [] (repeat (Pending "python:file" "os" "IMPORTS") 100) 0.

(** What [SET n += row.properties] does to a matched node. *)
Definition upd_node (row : node_row) (n : gnode) : gnode :=
  GNode (nid n) (r_gid row) (r_canonical_id row) (r_file_path row) (n_labels n).

(** The rows of [ingest_nodes] in the order the MERGE batches handle them,
    each with the labels of its batch.  A batch holding a row whose
    properties are a map fails as a whole ([SET n += row] rejects a
    map-valued property); its error is caught and logged, so its rows
    contribute nothing. *)
Definition merge_sequence (rows : list node_row) : list (list string * node_row) :=
  flat_map (fun '(labels, group) =>
              if existsb (fun r => has_properties_map (r_properties r)) group then []
              else map (pair labels) group) (group_by labels_eqb r_labels rows).

(** The last row of [xs] that a MERGE would match on [n]. *)
Definition last_hit (xs : list (list string * node_row)) (n : gnode) : option (list string * node_row) :=
  find (fun '(l, r) => merge_hit l r n) (rev xs).




Definition mstep (s : store) (x : list string * node_row) : store :=
  merge_node (fst x) s (snd x).
Definition gstep (x : list string * node_row) (n : gnode) : gnode :=
  if merge_hit (fst x) (snd x) n then upd_node (snd x) n else n.
Definition gall (xs : list (list string * node_row)) (n : gnode) : gnode :=
  fold_left (fun n x => gstep x n) xs n.

(** A store in which a target arrives late: the file and class nodes of
    [nested_payload] are ingested, then both of its CONTAINS rows (the row to
    the method stays pending, since the method node is still missing), then
    the method node. *)
Definition late_target_store : store :=
  ingest_nodes
    (ingest_relationships
       (ingest_nodes empty_store (firstn 2 (nodes_upserted nested_payload)))
       (relationships_upserted nested_payload))
    (skipn 2 (nodes_upserted nested_payload)).

Definition late_resolved : store :=
  match resolve_pending_relationships 10 late_target_store with Some s => s | None => empty_store end.
End Ingest.

(* ===================================================================== *)
(** * SQL scanning of [parse_sql_query]
    (api_gateway/orchestration_logic/helpers.py)

    The two [re.findall] patterns are matched by a small backtracking
    matcher in continuation-passing style: a matcher takes a position and a
    continuation, and the first alternative whose continuation succeeds wins,
    as in Python's [re].  Queries are ASCII text; on code points below 128
    Python's [\w] is [[A-Za-z0-9_]] and [\s] is [\t\n\v\f\r], [\x1c-\x1f] and
    space, and [re.IGNORECASE] folds the ASCII letters. *)

Module Sql.
Local Open Scope string_scope.

Definition is_word (c : ascii) : bool :=
  let n := Ascii.nat_of_ascii c in
  ((48 <=? n) && (n <=? 57) || (65 <=? n) && (n <=? 90) || (97 <=? n) && (n <=? 122) || (n =? 95))%nat.

Definition is_space (c : ascii) : bool :=
  let n := Ascii.nat_of_ascii c in
  ((9 <=? n) && (n <=? 13) || (28 <=? n) && (n <=? 32))%nat.

Definition upper (c : ascii) : ascii :=
  let n := Ascii.nat_of_ascii c in
  if ((97 <=? n) && (n <=? 122))%nat then Ascii.ascii_of_nat (n - 32) else c.

Section Matcher.
Variable q : list ascii.

Definition char_at (i : nat) : option ascii := nth_error q i.

Definition word_at (i : nat) : bool :=
  match char_at i with Some c => is_word c | None => false end.

(** [\b]: the characters on the two sides of [i] differ in being word characters. *)
Definition boundary (i : nat) : bool :=
  xorb (match i with O => false | S j => word_at j end) (word_at i).

Fixpoint run_len (p : ascii -> bool) (s : list ascii) : nat :=
  match s with c :: s' => if p c then S (run_len p s') else O | [] => O end.

Definition matcher := forall R : Type, nat -> (nat -> option R) -> option R.

Definition m_bound : matcher := fun R i k => if boundary i then k i else None.

Definition m_char (c : ascii) : matcher := fun R i k =>
  match char_at i with Some d => if Ascii.eqb c d then k (S i) else None | None => None end.

(** A keyword under [re.IGNORECASE]; [kw] is upper case. *)
Fixpoint m_keyword (kw : list ascii) : matcher := fun R i k =>
  match kw with
  | [] => k i
  | c :: kw' => match char_at i with
                | Some d => if Ascii.eqb c (upper d) then m_keyword kw' R (S i) k else None
                | None => None end
  end.

Definition m_alt (m1 m2 : matcher) : matcher := fun R i k =>
  match m1 R i k with Some r => Some r | None => m2 R i k end.

(** [(?:KW1|KW2|...)], alternatives tried in order. *)
Fixpoint m_keywords (kws : list string) : matcher :=
  match kws with
  | [] => fun R i k => None
  | kw :: kws' => m_alt (m_keyword (list_ascii_of_string kw)) (m_keywords kws')
  end.

(** Greedy [m?]. *)
Definition m_opt (m : matcher) : matcher := fun R i k =>
  match m R i k with Some r => Some r | None => k i end.

Fixpoint try_desc {R} (n lo : nat) (k : nat -> option R) : option R :=
  match k n with
  | Some r => Some r
  | None => match n with O => None | S n' => if (n' <? lo)%nat then None else try_desc n' lo k end
  end.

(** Greedy repetition of a character class, at least [lo] times, giving back
    one character at a time on failure. *)
Definition m_class (p : ascii -> bool) (lo : nat) : matcher := fun R i k =>
  let n := run_len p (skipn i q) in
  if (n <? lo)%nat then None else try_desc n lo (fun m => k (i + m)%nat).

Definition backtick : ascii := "`".

(** [\b(?:FROM|JOIN|UPDATE|INTO)\s+`?(\w+)`?]: the group's span and the end. *)
Definition table_pattern (i : nat) : option ((nat * nat) * nat) :=
  m_bound _ i (fun i =>
  m_keywords ["FROM"; "JOIN"; "UPDATE"; "INTO"] _ i (fun i =>
  m_class is_space 1 _ i (fun i =>
  m_opt (m_char backtick) _ i (fun g0 =>
  m_class is_word 1 _ g0 (fun g1 =>
  m_opt (m_char backtick) _ g1 (fun e => Some ((g0, g1), e)))))))%nat.

(** [\b(?:SELECT|WHERE|SET|ON)\s+(?:`?(\w+)`?|STAR)|`?(\w+)`?\s*=\s*], where
    STAR is the escaped asterisk: the spans of groups 1 and 2 ([None] when the group did not take part). *)
Definition column_pattern (i : nat) : option ((option (nat * nat) * option (nat * nat)) * nat) :=
  match m_bound _ i (fun i =>
        m_keywords ["SELECT"; "WHERE"; "SET"; "ON"] _ i (fun i =>
        m_class is_space 1 _ i (fun j =>
        match m_opt (m_char backtick) _ j (fun g0 =>
              m_class is_word 1 _ g0 (fun g1 =>
              m_opt (m_char backtick) _ g1 (fun e => Some ((Some (g0, g1), None), e)))) with
        | Some r => Some r
        | None => m_char "*" _ j (fun e => Some ((None, None), e))
        end)))%nat with
  | Some r => Some r
  | None =>
    m_opt (m_char backtick) _ i (fun g0 =>
    m_class is_word 1 _ g0 (fun g1 =>
    m_opt (m_char backtick) _ g1 (fun j =>
    m_class is_space 0 _ j (fun j =>
    m_char "=" _ j (fun j =>
    m_class is_space 0 _ j (fun e => Some ((None, Some (g0, g1)), e)))))))%nat
  end.

(** [re.findall]: leftmost matches, each search resuming where the previous
    match ended (neither pattern matches the empty string). *)
Fixpoint findall {G} (pat : nat -> option (G * nat)) (fuel i : nat) : list G :=
  match fuel with
  | O => []
  | S fuel' => match pat i with
               | Some (g, e) => g :: findall pat fuel' e
               | None => findall pat fuel' (S i)
               end
  end.

Definition span_text (sp : nat * nat) : string :=
  string_of_list_ascii (firstn (snd sp - fst sp) (skipn (fst sp) q)).

(** [re.search(r'\bKW\b', query, re.IGNORECASE)] *)
Definition search_word (kw : string) : bool :=
  existsb (fun i => match m_bound _ i (fun i =>
                          m_keyword (list_ascii_of_string kw) _ i (fun i =>
                          m_bound _ i (fun e => Some e))) with Some _ => true | None => false end)
          (seq 0 (S (length q))).
End Matcher.

Definition str_dedup (xs : list string) : list string :=
  fold_left (fun acc x => if existsb (String.eqb x) acc then acc else (acc ++ [x])%list) xs [].

(** [parse_sql_query]: the table and column sets (as duplicate-free lists
    in order of first occurrence; Python's set order plays no role below). *)
Definition parse_tables (query : string) : list string :=
  let q := list_ascii_of_string query in
  str_dedup (map (span_text q) (findall (table_pattern q) (S (length q)) 0)).

Definition parse_columns (query : string) : list string :=
  let q := list_ascii_of_string query in
  let groups := findall (column_pattern q) (S (length q)) 0 in
  str_dedup (List.filter (fun c => negb (String.eqb c ""))
    (flat_map (fun '(g1, g2) => [match g1 with Some sp => span_text q sp | None => "" end;
                                 match g2 with Some sp => span_text q sp | None => "" end]) groups)).

Definition search (kw query : string) : bool := search_word (list_ascii_of_string query) kw.
End Sql.

(* ===================================================================== *)
(** * Cross-language heuristics ([resolve_cross_language_heuristics],
    api_gateway/orchestration_logic/resolution.py) *)

Module Resolve.
Local Open Scope string_scope.

(** A [GraphNode] with its string property map, and the fields of a
    [GraphRelationship] the heuristics set (its location is left out). *)
Record graph_node := GraphNode {
  global_id : string; node_type : string; properties : gmap string string }.

Record graph_rel := GraphRelationship {
  source_node_global_id : string; target_node_global_id : string;
  relationship_type : string; heuristic_match : string }.

(** [properties.get(k, "")] *)
Definition get (props : gmap string string) (k : string) : string :=
  match props !! k with Some v => v | None => "" end.

Fixpoint drop_slashes (l : list ascii) : list ascii :=
  match l with
  | c :: l' => if Ascii.eqb c "/" then drop_slashes l' else l
  | [] => []
  end.

(** [s.strip("/")] *)
Definition strip_slash (s : string) : string :=
  string_of_list_ascii (rev (drop_slashes (rev (drop_slashes (list_ascii_of_string s))))).

(** [s.split("?")[0]] *)
Fixpoint before_question (s : string) : string :=
  match s with
  | EmptyString => EmptyString
  | String c s' => if Ascii.eqb c "?" then EmptyString else String c (before_question s')
  end.

Record collected := Collected {
  api_callers : list graph_node;
  api_endpoints : gmap string string;
  db_query_nodes : list graph_node;
  db_tables : gmap string string;
  db_columns : gmap string string }.

(** One iteration of [for gid, node in final_nodes.items()]. *)
Definition collect_step (c : collected) (gn : string * graph_node) : collected :=
  let '(gid, node) := gn in
  let t := node_type node in
  if String.eqb t "ApiCall" then
    Collected (api_callers c ++ [node])%list (api_endpoints c) (db_query_nodes c) (db_tables c) (db_columns c)
  else if String.eqb t "ApiEndpoint" then
    let path := strip_slash (get (properties node) "path") in
    if String.eqb path "" then c else
    Collected (api_callers c) (<[path := gid]> (api_endpoints c)) (db_query_nodes c) (db_tables c) (db_columns c)
  else if String.eqb t "DatabaseQuery" then
    Collected (api_callers c) (api_endpoints c) (db_query_nodes c ++ [node])%list (db_tables c) (db_columns c)
  else if String.eqb t "Table" then
    let name := get (properties node) "name" in
    if String.eqb name "" then c else
    Collected (api_callers c) (api_endpoints c) (db_query_nodes c) (<[name := gid]> (db_tables c)) (db_columns c)
  else if String.eqb t "Column" then
    let name := get (properties node) "name" in
    if String.eqb name "" then c else
    Collected (api_callers c) (api_endpoints c) (db_query_nodes c) (db_tables c) (<[name := gid]> (db_columns c))
  else c.

(** [final_nodes] in its iteration order. *)
Definition collect (final_nodes : list (string * graph_node)) : collected :=
  fold_left collect_step final_nodes (Collected [] ∅ [] ∅ ∅).

(** [caller.properties.get("url", "") or caller.properties.get("path", "")] *)
Definition call_url (n : graph_node) : string :=
  let u := get (properties n) "url" in
  if String.eqb u "" then get (properties n) "path" else u.

Definition match_path (url : string) : string := strip_slash (before_question url).

Definition api_edges (c : collected) : list graph_rel :=
  flat_map (fun caller =>
    let url := call_url caller in
    if String.eqb url "" then [] else
    match api_endpoints c !! match_path url with
    | Some target_gid => [GraphRelationship (global_id caller) target_gid "CALLS_API" "url_path"]
    | None => []
    end) (api_callers c).

Definition table_rel_type (query : string) : string :=
  if Sql.search "UPDATE" query || Sql.search "INSERT" query || Sql.search "DELETE" query
  then "MODIFIES_TABLE"
  else if Sql.search "SELECT" query then "READS_TABLE" else "QUERIES_TABLE".

Definition table_edges (c : collected) (qn : graph_node) (query : string) : list graph_rel :=
  flat_map (fun table_name =>
    match db_tables c !! table_name with
    | Some target_gid => [GraphRelationship (global_id qn) target_gid (table_rel_type query) "table_name_in_query"]
    | None => []
    end) (Sql.parse_tables query).

Definition column_edges (c : collected) (qn : graph_node) (query : string) : list graph_rel :=
  flat_map (fun col_name =>
    match db_columns c !! col_name with
    | Some target_gid => [GraphRelationship (global_id qn) target_gid "USES_COLUMN" "column_name_in_query"]
    | None => []
    end) (Sql.parse_columns query).

Definition db_edges (c : collected) : list graph_rel :=
  flat_map (fun qn =>
    let query := get (properties qn) "query" in
    if String.eqb query "" then [] else (table_edges c qn query ++ column_edges c qn query)%list)
    (db_query_nodes c).

Definition resolve_cross_language_heuristics (final_nodes : list (string * graph_node)) : list graph_rel :=
  let c := collect final_nodes in (api_edges c ++ db_edges c)%list.

(** The key under which a node is registered in one of the dicts. *)
Definition endpoint_key (n : graph_node) : option string :=
  if String.eqb (node_type n) "ApiEndpoint" then
    let path := strip_slash (get (properties n) "path") in
    if String.eqb path "" then None else Some path
  else None.

Definition name_key (ty : string) (n : graph_node) : option string :=
  if String.eqb (node_type n) ty then
    let name := get (properties n) "name" in
    if String.eqb name "" then None else Some name
  else None.

(** A dict filled by [d[key] = gid] over [final_nodes]. *)
Definition register_step (key : graph_node -> option string) (m : gmap string string)
    (gn : string * graph_node) : gmap string string :=
  let '(gid, n) := gn in match key n with Some k => <[k := gid]> m | None => m end.

Definition register (key : graph_node -> option string) (final_nodes : list (string * graph_node))
    : gmap string string :=
  fold_left (register_step key) final_nodes ∅.

(** [gid] is the last entry of [final_nodes] registered under [k]. *)
Definition last_registered (key : graph_node -> option string) (final_nodes : list (string * graph_node))
    (k gid : string) : Prop :=
  exists pre n post, final_nodes = (pre ++ (gid, n) :: post)%list /\ key n = Some k /\
                     Forall (fun x => key (snd x) <> Some k) post.

Definition of_type (ty : string) (gn : string * graph_node) : list graph_node :=
  if String.eqb (node_type (snd gn)) ty then [snd gn] else [].

(** Sample graphs. *)
Definition props (kvs : list (string * string)) : gmap string string := list_to_map kvs.

Definition users_query : string := "SELECT name FROM users WHERE id=?".

Definition duplicate_tables_nodes : list (string * graph_node) :=
  [("sql:t1", GraphNode "sql:t1" "Table" (props [("name", "users")]));
   ("sql:t2", GraphNode "sql:t2" "Table" (props [("name", "users")]));
   ("sql:c1", GraphNode "sql:c1" "Column" (props [("name", "name")]));
   ("py:q1", GraphNode "py:q1" "DatabaseQuery" (props [("query", users_query)]))].

Definition host_url_nodes : list (string * graph_node) :=
  [("java:ep", GraphNode "java:ep" "ApiEndpoint" (props [("path", "/api/items")]));
   ("js:call", GraphNode "js:call" "ApiCall" (props [("url", "http://host/api/items")]))].
Definition query_string_nodes : list (string * graph_node) :=
  [("java:ep", GraphNode "java:ep" "ApiEndpoint" (props [("path", "/api/items/")]));
   ("js:call", GraphNode "js:call" "ApiCall" (props [("url", ""); ("path", "api/items?page=2")]))].

(** resolve_intra_language_calls (resolution.py). *)
Module Intra.
Local Open Scope string_scope.

(** [LocalKey = (analyzer_name, file_path, local_id)] *)
Abbreviation local_key := (string * string * Z)%type.

(** The fields of an [analyzer_pb2.Relationship] this pass reads. *)
Record relationship := Relationship {
  relationship_type : string;
  target_node_local_id : Z;
  rel_properties : gmap string string }.

(** A Python dict iterated in insertion order: an association list with
    unique keys; assigning an existing key keeps its position. *)
Fixpoint dict_set (d : list (string * string)) (k v : string) : list (string * string) :=
  match d with
  | [] => [(k, v)]
  | (k', v') :: d' => if String.eqb k k' then (k, v) :: d' else (k', v') :: dict_set d' k v
  end.

(** [file_imports.update(imports)] *)
Definition dict_update (d imports : list (string * string)) : list (string * string) :=
  fold_left (fun d '(k, v) => dict_set d k v) imports d.

(** The imports of every [import_info] key with this analyzer and file. *)
Definition file_imports_of (import_info : list (local_key * list (string * string)))
    (analyzer_name file_path : string) : list (string * string) :=
  fold_left (fun acc '(k, imports) =>
      let '(a, f, _) := k in
      if String.eqb a analyzer_name && String.eqb f file_path then dict_update acc imports else acc)
    import_info [].

(** [s.split(".", 1)[1]]: the text after the first dot. *)
Fixpoint after_first_dot (s : string) : string :=
  match s with
  | EmptyString => EmptyString
  | String c s' => if Ascii.eqb c "." then s' else after_first_dot s'
  end.

(** The [potential_target_gid] an import [alias -> imported_entity] gives the
    call name [target_name]. *)
Definition potential_target_gid (lang target_name alias imported_entity : string) : option string :=
  if String.eqb target_name alias then Some (lang ++ "::" ++ imported_entity)
  else if String.prefix (alias ++ ".") target_name then
    Some (lang ++ "::" ++ imported_entity ++ "." ++ after_first_dot target_name)
  else None.

(** [gid in definition_registry] *)
Definition registered (definition_registry : gmap string local_key) (g : string) : bool :=
  match definition_registry !! g with Some _ => true | None => false end.

(** The loop over [file_imports.items()] up to its [break]. *)
Fixpoint resolve_via_imports (definition_registry : gmap string local_key) (lang target_name : string)
    (file_imports : list (string * string)) : option string :=
  match file_imports with
  | [] => None
  | (alias, imported_entity) :: rest =>
      match potential_target_gid lang target_name alias imported_entity with
      | Some g => if String.eqb g "" then resolve_via_imports definition_registry lang target_name rest
                  else if registered definition_registry g then Some g
                  else resolve_via_imports definition_registry lang target_name rest
      | None => resolve_via_imports definition_registry lang target_name rest
      end
  end.

Abbreviation resolved_target_map := (gmap (local_key * Z) string).

(** The body of [for rel in rel_list]. *)
Definition resolve_rel (definition_registry : gmap string local_key)
    (resolved_global_ids : gmap local_key string) (source_key : local_key) (lang : string)
    (file_imports : list (string * string)) (resolved_targets : resolved_target_map)
    (rel : relationship) : resolved_target_map :=
  let '(analyzer_name, file_path, _) := source_key in
  if String.eqb (relationship_type rel) "CALLS" || String.eqb (relationship_type rel) "CALLS_HINT" then
    let target_local_id := target_node_local_id rel in
    let via_imports :=
      let name := get (rel_properties rel) "name" in
      let target_name := if String.eqb name "" then get (rel_properties rel) "identifier" else name in
      if String.eqb target_name "" then resolved_targets
      else match resolve_via_imports definition_registry lang target_name file_imports with
           | Some g => <[(source_key, target_local_id) := g]> resolved_targets
           | None => resolved_targets
           end in
    match resolved_global_ids !! (analyzer_name, file_path, target_local_id) with
    | Some g => if negb (String.eqb g "") && registered definition_registry g
                then <[(source_key, target_local_id) := g]> resolved_targets
                else via_imports
    | None => via_imports
    end
  else resolved_targets.

(** [resolve_intra_language_calls]; the counters and log lines are left out. *)
Definition resolve_intra_language_calls
    (relationships_by_source : list (local_key * list relationship))
    (import_info : list (local_key * list (string * string)))
    (definition_registry : gmap string local_key)
    (resolved_global_ids : gmap local_key string) : resolved_target_map :=
  fold_left (fun resolved_targets '(source_key, rel_list) =>
      let '(analyzer_name, file_path, _) := source_key in
      let lang := IdGen.lower (Visitor.split_first "_" analyzer_name) in
      let file_imports := file_imports_of import_info analyzer_name file_path in
      match file_imports with
      | [] => resolved_targets
      | _ => fold_left (resolve_rel definition_registry resolved_global_ids source_key lang file_imports)
               rel_list resolved_targets
      end)
    relationships_by_source ∅.

(** A sample for the pass: a call [u.f] through the import [u -> mod_u]. *)
Definition caller : local_key := ("python_analyzer", "a.py", 1%Z).
Definition sample_rels : list (local_key * list relationship) :=
  [(caller, [Relationship "CALLS" 7 (<["name" := "u.f"]> ∅); Relationship "CONTAINS" 8 ∅])].
Definition sample_imports : list (local_key * list (string * string)) :=
  [(("python_analyzer", "a.py", 0%Z), [("u", "mod_u")])].
Definition sample_registry : gmap string local_key := <["python::mod_u.f" := ("python_analyzer", "b.py", 3%Z)]> ∅.

End Intra.

End Resolve.

(* ===================================================================== *)
(** * Theorems *)
(* ===================================================================== *)

(** ** Identifier generation *)

Example sha256_abc :
  IdGen.hexdigest_sha256 "abc" =
  "ba7816bf8f01cfea414140de5dae2223b00361a396177a9cb410ff61f20015ad".
Proof. vm_compute. reflexivity. Qed.

Example sha256_empty :
  IdGen.hexdigest_sha256 "" =
  "e3b0c44298fc1c149afbf4c8996fb92427ae41e4649b934ca495991b7852b855".
Proof. vm_compute. reflexivity. Qed.


Lemma hex_of_bytes_length (bs : list Z) :
  String.length (Sha256.hex_of_bytes bs) = (2 * length bs)%nat.
Proof. induction bs as [|b bs IH]; simpl; [reflexivity | rewrite IH; lia]. Qed.

Lemma digest_bytes_length (s : Sha256.hstate) : length (Sha256.digest_bytes s) = 32%nat.
Proof. reflexivity. Qed.

Lemma hex_digit_nibble (x : Z) : IdGen.is_lower_hex (Sha256.hex_digit (Z.land x 15)) = true.
Proof.
  change 15 with (Z.ones 4). rewrite Z.land_ones by lia.
  assert (H : 0 <= x mod 2 ^ 4 < 16) by (apply Z.mod_pos_bound; lia).
  remember (x mod 2 ^ 4) as n eqn:En; clear En.
  assert (Hall : forallb (fun k => IdGen.is_lower_hex (Sha256.hex_digit k))
                         (map Z.of_nat (seq 0 16)) = true) by reflexivity.
  rewrite forallb_forall in Hall. apply Hall, in_map_iff.
  exists (Z.to_nat n); split; [apply Z2Nat.id; lia | apply in_seq; lia].
Qed.

Lemma hex_of_bytes_lower (bs : list Z) : IdGen.all_lower_hex (Sha256.hex_of_bytes bs) = true.
Proof.
  induction bs as [|b bs IH]; [reflexivity |].
  unfold IdGen.all_lower_hex in *. simpl.
  rewrite !hex_digit_nibble. exact IH.
Qed.

Lemma hexdigest_shape (s : string) :
  String.length (IdGen.hexdigest_sha256 s) = 64%nat /\
  IdGen.all_lower_hex (IdGen.hexdigest_sha256 s) = true.
Proof.
  unfold IdGen.hexdigest_sha256, Sha256.sha256. split.
  - rewrite hex_of_bytes_length, digest_bytes_length. reflexivity.
  - apply hex_of_bytes_lower.
Qed.

(** Claim C7. Identifier generation is deterministic and content addressed:
    the pair minted for an entity is [(c, "python:" ++ h)] where [c] is the
    canonical id built from the entity alone and [h] is the 64-character
    lower-case hex SHA-256 digest of [c]; the gid depends on nothing but the
    language and the canonical id (not on the relative path passed along). *)
Theorem generate_id_content_addressed :
  (forall e : IdGen.entity,
      IdGen.generate_id e =
        (IdGen.canonical_of e,
         (IdGen.LANGUAGE ++ ":" ++ IdGen.hexdigest_sha256 (IdGen.canonical_of e))%string) /\
      String.length (IdGen.hexdigest_sha256 (IdGen.canonical_of e)) = 64%nat /\
      IdGen.all_lower_hex (IdGen.hexdigest_sha256 (IdGen.canonical_of e)) = true) /\
  (forall lang p1 p2 c : string,
      IdGen.generate_global_id lang p1 c = IdGen.generate_global_id lang p2 c /\
      IdGen.generate_global_id lang p1 c = (lang ++ ":" ++ IdGen.hexdigest_sha256 c)%string).
Proof.
  split.
  - intros e. split; [reflexivity | apply hexdigest_shape].
  - intros lang p1 p2 c. split; reflexivity.
Qed.

(** ** File watcher debouncing *)

Ltac wsimpl :=
  cbn [Watcher.run Watcher.dispatch Watcher.kind_type Watcher.kind Watcher.t_any Watcher.t_own
       Watcher.is_directory Watcher.src_path Watcher.event_type_eqb
       Watcher.should_process_now negb andb fst snd app].

Section Debounce.

Variable root : string.
Variable patterns : list string.
Variable p : string.
Hypothesis Hpy : Watcher.py_suffix (Watcher.resolve p) = true.
Hypothesis Hkeep : Watcher.should_ignore_path patterns (Watcher.resolve p) = false.

Lemma process_modified k a b ts t :
  Watcher.process_event root patterns ts (Watcher.FsEvent p false k a b) Watcher.MODIFIED t =
  (match ts !! Watcher.resolve p with
   | Some t0 => if (Watcher.DEBOUNCE_MS <=? t - t0)%Z
                then [Watcher.Job (Watcher.job_path root (Watcher.FsEvent p false k a b) Watcher.MODIFIED)
                                  Watcher.MODIFIED]
                else []
   | None => []
   end, <[Watcher.resolve p := t]> ts).
Proof.
  unfold Watcher.process_event. wsimpl. rewrite Hpy, Hkeep. wsimpl.
  destruct (ts !! Watcher.resolve p) as [t0|]; [destruct (Watcher.DEBOUNCE_MS <=? t - t0)%Z|]; reflexivity.
Qed.

Lemma burst_silent (rs : list (Z * Z)) :
  forall ts, match ts !! Watcher.resolve p with
             | None => True
             | Some t0 => match Watcher.readings rs with [] => True | t :: _ => (t - t0 < Watcher.DEBOUNCE_MS)%Z end
             end ->
  Watcher.gaps_ok (Watcher.readings rs) ->
  fst (Watcher.run root patterns ts (Watcher.burst p rs)) = [].
Proof.
  induction rs as [|[a b] rs IH]; intros ts Hts Hg; [reflexivity|].
  cbn [Watcher.burst map Watcher.readings Watcher.gaps_ok Watcher.gaps_below] in *.
  destruct Hg as [Hab Hg].
  unfold Watcher.run; fold Watcher.run. unfold Watcher.dispatch. wsimpl.
  rewrite !process_modified, lookup_insert_eq.
  assert (H1 : match ts !! Watcher.resolve p with
               | Some t0 => if (Watcher.DEBOUNCE_MS <=? a - t0)%Z
                            then [Watcher.Job (Watcher.job_path root (Watcher.FsEvent p false Watcher.EvModified a b) Watcher.MODIFIED)
                                              Watcher.MODIFIED] else []
               | None => [] end = []).
  { destruct (ts !! Watcher.resolve p) as [t0|]; [|reflexivity].
    replace (Watcher.DEBOUNCE_MS <=? a - t0)%Z with false by (symmetry; apply Z.leb_gt; lia). reflexivity. }
  rewrite H1.
  replace (Watcher.DEBOUNCE_MS <=? b - a)%Z with false by (symmetry; apply Z.leb_gt; lia).
  set (ts2 := <[Watcher.resolve p := b]> (<[Watcher.resolve p := a]> ts)).
  change (map _ rs) with (Watcher.burst p rs).
  destruct (Watcher.run root patterns ts2 (Watcher.burst p rs)) as [out ts''] eqn:E.
  cbn [fst app]. change out with (fst (out, ts'')). rewrite <- E.
  apply IH.
  - subst ts2. rewrite lookup_insert_eq.
    destruct rs as [|[a' b'] rs']; [exact I|]. cbn in Hg |- *. exact (proj1 Hg).
  - destruct rs as [|[a' b'] rs']; [exact I|]. cbn in Hg |- *. exact (proj2 Hg).
Qed.

End Debounce.

(** C4 (code bug): a burst of MODIFIED events on one kept .py path, from a
    timestamp table without an entry for the path, publishes no job at all
    when consecutive clock readings of the handler calls are less than
    DEBOUNCE_MS apart.  The first call only records the time, and every
    later call finds an entry less than DEBOUNCE_MS old; watchdog runs
    [_process_event] twice per event, so even the last event of the burst is
    suppressed by its own first call. *)
Theorem debounce_burst_emits_nothing (root : string) (patterns : list string) (p : string)
    (rs : list (Z * Z)) (ts : Watcher.timestamps) :
  Watcher.py_suffix (Watcher.resolve p) = true ->
  Watcher.should_ignore_path patterns (Watcher.resolve p) = false ->
  ts !! Watcher.resolve p = None ->
  Watcher.gaps_ok (Watcher.readings rs) ->
  fst (Watcher.run root patterns ts (Watcher.burst p rs)) = [].
Proof.
  intros Hpy Hkeep Hts Hg. apply (burst_silent root patterns p Hpy Hkeep rs ts); [rewrite Hts; exact I | exact Hg].
Qed.

(** Witness for C4: five writes of /codebase/src/app.py 100 ms apart, from
    an empty table, with the default configuration. *)
Lemma debounce_burst_emits_nothing_witness :
  length Watcher.five_writes = 5%nat /\
  Watcher.gaps_ok (Watcher.readings Watcher.five_writes) /\
  fst (Watcher.run Watcher.CODEBASE_ROOT Watcher.DEFAULT_IGNORED_PATTERNS ∅
         (Watcher.burst "/codebase/src/app.py" Watcher.five_writes)) = [].
Proof.
  assert (Hg : Watcher.gaps_ok (Watcher.readings Watcher.five_writes))
    by (cbn; unfold Watcher.DEBOUNCE_MS; lia).
  split; [reflexivity|]. split; [exact Hg|].
  apply (debounce_burst_emits_nothing Watcher.CODEBASE_ROOT Watcher.DEFAULT_IGNORED_PATTERNS
           "/codebase/src/app.py" Watcher.five_writes ∅).
  - vm_compute; reflexivity.
  - vm_compute; reflexivity.
  - apply lookup_empty.
  - exact Hg.
Defined.

(** ** Python analyzer job handler *)

Lemma all_some_map_Forall2 {A B} (f : A -> option B) (l : list A) (r : list B) :
  Analyzer.all_some (map f l) = Some r -> Forall2 (fun x y => f x = Some y) l r.
Proof.
  revert r; induction l as [|x l IH]; intros r H; simpl in H.
  - injection H as <-. constructor.
  - destruct (f x) as [y|] eqn:Hy; [|discriminate].
    destruct (Analyzer.all_some (map f l)) as [r'|] eqn:Hr; [|discriminate].
    injection H as <-. constructor; [exact Hy | apply IH; reflexivity].
Qed.

Lemma Forall2_In_r {A B} (R : A -> B -> Prop) l r y :
  Forall2 R l r -> In y r -> exists x, In x l /\ R x y.
Proof.
  induction 1 as [|x y' l r Hxy _ IH]; simpl; [tauto|].
  intros [<- | Hy]; [exists x; auto | destruct (IH Hy) as [x' [? ?]]; exists x'; auto].
Qed.

Lemma mem_In (x : string) (l : list string) : Analyzer.mem x l = true -> In x l.
Proof.
  unfold Analyzer.mem. rewrite existsb_exists. intros [y [Hy Heq]].
  apply String.eqb_eq in Heq. subst y. exact Hy.
Qed.

Lemma stub_canonical_ids (nodes : list Analyzer.node_dict) ids stubs :
  Forall2 (fun n i => Analyzer.nd_canonical_id n = Some i) nodes ids ->
  Forall2 (fun n st => Analyzer.create_analysis_node_stub n = Some st) nodes stubs ->
  ids = map Analyzer.ns_canonical_id stubs.
Proof.
  intros H1; revert stubs; induction H1 as [|n i nodes ids Hi H1 IH]; intros stubs H2.
  - inversion H2; reflexivity.
  - inversion H2 as [|? st ? stubs' Hst H2']; subst. simpl. f_equal.
    + unfold Analyzer.create_analysis_node_stub in Hst.
      destruct (Analyzer.nd_type n); [|discriminate]. injection Hst as <-. simpl. rewrite Hi. reflexivity.
    + apply IH. exact H2'.
Qed.

Lemma external_insert_fails pg (es : list Analyzer.node_dict) :
  es <> [] -> Forall (fun n => Analyzer.nd_path n = None) es ->
  Analyzer.batch_insert_nodes pg es = false.
Proof.
  intros Hne Hp. destruct es as [|e es']; [congruence|].
  unfold Analyzer.batch_insert_nodes. inversion Hp as [|? ? He _]; subst.
  simpl. rewrite He. destruct pg; simpl; [|reflexivity].
  rewrite !andb_false_r. reflexivity.
Qed.

Lemma external_nodes_pathless (ts : list string) :
  Forall (fun n => Analyzer.nd_path n = None)
    (List.filter (fun n => Analyzer.is_some (Analyzer.nd_type n) && Analyzer.is_some (Analyzer.nd_canonical_id n)
                      && Analyzer.is_some (Analyzer.nd_external n))
            (map Analyzer.external_node ts)).
Proof.
  apply List.Forall_forall. intros n Hn. apply filter_In in Hn as [Hn _].
  apply in_map_iff in Hn as [t [<- _]]. reflexivity.
Qed.

(** Claim C10. Every payload the Python analyzer publishes is self-contained:
    the source and the target of every relationship stub are canonical ids of
    node stubs of the same payload. (Relationships with an endpoint outside
    the id set are filtered out; and when external nodes would have to be
    synthesised, their Postgres insert fails on the missing 'path' key, so
    nothing is published for such a file.) *)
Theorem analyzer_payload_self_contained (m : Analyzer.job_message) (a : Analyzer.file_analysis)
    (pg_ok : bool) (k : Analyzer.ack) (pl : Analyzer.payload) :
  Analyzer.process_message m a pg_ok = (k, Some pl) ->
  forall r, In r (Analyzer.pl_relationships_upserted pl) ->
    In (Analyzer.rs_source_gid r) (map Analyzer.ns_canonical_id (Analyzer.pl_nodes_upserted pl)) /\
    In (Analyzer.rs_target_canonical_id r) (map Analyzer.ns_canonical_id (Analyzer.pl_nodes_upserted pl)).
Proof.
  intros H r Hr. unfold Analyzer.process_message in H.
  destruct (negb (Analyzer.nonempty (Analyzer.m_id m))); [discriminate|].
  destruct (Analyzer.m_file_path m) as [fp|]; [|discriminate].
  destruct (negb (Watcher.ends_with ".py" fp)); [discriminate|].
  destruct (match Analyzer.m_event_type m with
            | Some et => String.eqb et "DELETED" | None => false end); [discriminate|].
  destruct (Analyzer.analyze_python_file a) as [nodes rels].
  destruct nodes as [|n0 ns]; [discriminate|].
  destruct (Analyzer.all_some (map Analyzer.nd_canonical_id (n0 :: ns))) as [ids|] eqn:Hids;
    [|discriminate].
  set (ext := List.filter _ (map Analyzer.external_node _)) in H.
  assert (Hext := external_nodes_pathless
    (Analyzer.dedup (List.filter (fun t => negb (Analyzer.mem t ids)) (map Analyzer.rd_target_canonical_id rels)))).
  fold ext in Hext.
  destruct ext as [|e es] eqn:Eext.
  2:{ rewrite (external_insert_fails pg_ok (e :: es)) in H by (congruence || exact Hext).
      discriminate. }
  cbn beta iota zeta in H.
  cbn [negb] in H.
  destruct (negb (Analyzer.batch_insert_nodes pg_ok (n0 :: ns))); [discriminate|].
  match type of H with
  | (if negb (Analyzer.batch_insert_relationships pg_ok ?F) then _ else _) = _ =>
      set (filtered := F) in H
  end.
  destruct (negb (Analyzer.batch_insert_relationships pg_ok filtered)); [discriminate|].
  destruct (Analyzer.all_some (map Analyzer.create_analysis_node_stub (n0 :: ns))) as [stubs|] eqn:Hst;
    [|discriminate].
  destruct (Analyzer.all_some (map Analyzer.create_analysis_relationship_stub filtered)) as [rstubs|] eqn:Hrs;
    [|discriminate].
  injection H as <- <-. simpl in Hr |- *.
  rewrite <- (stub_canonical_ids (n0 :: ns) ids stubs
               (all_some_map_Forall2 _ _ _ Hids) (all_some_map_Forall2 _ _ _ Hst)).
  apply all_some_map_Forall2 in Hrs.
  destruct (Forall2_In_r _ _ _ _ Hrs Hr) as [rel [Hin Hmk]].
  apply filter_In in Hin as [_ Hcond].
  unfold Analyzer.create_analysis_relationship_stub in Hmk.
  destruct (Analyzer.rd_source_canonical_id rel) as [src|]; [|discriminate].
  injection Hmk as <-. simpl.
  apply andb_prop in Hcond as [Hs Ht].
  split; apply mem_In; assumption.
Qed.

(** Witness for C10: the sample job is published, and its one stub is closed. *)
Lemma analyzer_payload_self_contained_witness :
  Analyzer.process_message Analyzer.sample_job Analyzer.sample_analysis true =
    (Analyzer.Acked, Some Analyzer.sample_payload) /\
  In "/app.py#f()"%string (map Analyzer.ns_canonical_id (Analyzer.pl_nodes_upserted Analyzer.sample_payload)) /\
  In "/app.py#g()"%string (map Analyzer.ns_canonical_id (Analyzer.pl_nodes_upserted Analyzer.sample_payload)).
Proof.
  assert (Hrun : Analyzer.process_message Analyzer.sample_job Analyzer.sample_analysis true =
                 (Analyzer.Acked, Some Analyzer.sample_payload)) by reflexivity.
  split; [exact Hrun|].
  exact (analyzer_payload_self_contained _ _ _ _ _ Hrun
           (Analyzer.RelStub "/app.py#f()" "/app.py#g()" ":CALLS") (or_introl eq_refl)).
Defined.

(** Counterexample for C5: a MODIFIED job on [app.py] whose parse raises is
    acknowledged and nothing is published, so no ERROR result exists. *)
Lemma parse_error_publishes_nothing :
  Analyzer.process_message
    (Analyzer.JobMessage (Some "app.py"%string) (Some "MODIFIED"%string) (Some "job-1"%string))
    Analyzer.Raised true = (Analyzer.Acked, None).
Proof. reflexivity. Qed.

(** C5 (amended): for every job carrying a file path, whatever its event type,
    id and database state, a file whose analysis raises (a syntax error, an
    unreadable file) is acknowledged and no AnalyzerResult is published; the
    error is only logged, and the payload's [error] field is never filled. *)
Theorem parse_error_acked_unpublished (p : string) (et id : option string) (pg_ok : bool) :
  Analyzer.process_message (Analyzer.JobMessage (Some p) et id) Analyzer.Raised pg_ok =
    (Analyzer.Acked, None).
Proof.
  unfold Analyzer.process_message; cbn [Analyzer.m_id Analyzer.m_file_path Analyzer.m_event_type].
  destruct (negb (Analyzer.nonempty id)); [reflexivity|].
  destruct (negb (Watcher.ends_with ".py" p)); [reflexivity|].
  destruct (match et with Some e => String.eqb e "DELETED" | None => false end); reflexivity.
Qed.

(** Counterexample for C6: a DELETED job on [app.py] is acknowledged and
    nothing is published, so no payload carries the file in [nodes_deleted]. *)
Lemma deleted_job_publishes_nothing :
  Analyzer.process_message
    (Analyzer.JobMessage (Some "app.py"%string) (Some "DELETED"%string) (Some "job-1"%string))
    Analyzer.sample_analysis true = (Analyzer.Acked, None).
Proof. reflexivity. Qed.

(** C6 (amended): every job with a file path and event type DELETED is
    acknowledged and no AnalyzerResult is published for it (no payload with
    [nodes_deleted] is built), whatever the file's analysis or the database
    state would be. *)
Theorem deleted_job_acked_unpublished (p : string) (id : option string)
    (a : Analyzer.file_analysis) (pg_ok : bool) :
  Analyzer.process_message (Analyzer.JobMessage (Some p) (Some "DELETED"%string) id) a pg_ok =
    (Analyzer.Acked, None).
Proof.
  unfold Analyzer.process_message; cbn [Analyzer.m_id Analyzer.m_file_path Analyzer.m_event_type].
  destruct (negb (Analyzer.nonempty id)); [reflexivity|].
  destruct (negb (Watcher.ends_with ".py" p)); reflexivity.
Qed.

(** C1 (code bug): ingesting [app_payload] twice from an empty store is not
    idempotent.  After the first ingestion the store holds 1 node, 0 edges and
    1 pending; after the second it holds 1 node, 0 edges and 2 pendings,
    because unmatched rows are written with [CREATE], not [MERGE]. *)
Theorem ingest_twice_duplicates_pending :
  option_map Ingest.counts (Ingest.process_message 10 Ingest.empty_store Ingest.app_payload)
    = Some (1, 0, 1)%nat /\
  option_map Ingest.counts
    (match Ingest.process_message 10 Ingest.empty_store Ingest.app_payload with
     | Some s1 => Ingest.process_message 10 s1 Ingest.app_payload
     | None => None end)
    = Some (1, 0, 2)%nat.
Proof. split; vm_compute; reflexivity. Qed.

(** C2 (code bug): after ingesting [nested_payload] (file, class, method
    nested by [CONTAINS]) and then processing a payload that deletes the
    file's gid, all three nodes are still stored with the file's
    [file_path]: the cascade statement of [delete_nodes] does not parse, its
    error is caught, and nothing is deleted. *)
Theorem delete_file_deletes_nothing :
  option_map (fun s => map (fun n => (Ingest.n_gid n, Ingest.n_file_path n)) (Ingest.nodes s))
    (match Ingest.process_message 10 Ingest.empty_store Ingest.nested_payload with
     | Some s1 => Ingest.process_message 10 s1 Ingest.delete_file_payload
     | None => None end)
    = Some [("python:file", "app.py"); ("python:cls", "app.py"); ("python:meth", "app.py")]%string.
Proof. vm_compute; reflexivity. Qed.

(** ** Store lemmas for the ingestion worker *)

Section FoldLemmas.
Context {A B : Type} (f : A -> B -> A).

Lemma fold_left_preserve (I : A -> Prop) (l : list B) (a0 : A) :
  I a0 -> (forall a x, In x l -> I a -> I (f a x)) -> I (fold_left f l a0).
Proof.
  revert a0; induction l as [|x l IH]; intros a0 H0 Hstep; simpl; [exact H0|].
  apply IH; [apply Hstep; [left; reflexivity | exact H0]|].
  intros a y Hy; apply Hstep; right; exact Hy.
Qed.

Lemma fold_left_reaches (I G : A -> Prop) (l : list B) (x : B) (a0 : A) :
  I a0 -> (forall a y, I a -> I (f a y)) -> (forall a y, I a -> G a -> G (f a y)) ->
  (forall a, I a -> G (f a x)) -> In x l -> G (fold_left f l a0).
Proof.
  intros HI0 HI HG Hx Hin.
  enough (Hgen : forall a, I a -> (In x l \/ G a) -> G (fold_left f l a)) by (apply Hgen; auto).
  clear HI0 Hin a0; induction l as [|y l IH]; intros a Ha [Hin|Hg]; simpl.
  - destruct Hin.
  - exact Hg.
  - destruct Hin as [<-|Hin]; apply IH; auto.
  - apply IH; auto.
Qed.
End FoldLemmas.

Section GroupByLemmas.
Context {A K : Type} (eqk : K -> K -> bool) (key : A -> K)
        (eqk_spec : forall a b, eqk a b = true <-> a = b).

Lemma add_to_group_In (k : K) (x : A) (gs : list (K * list A)) (k' : K) (g' : list A) (y : A) :
  In (k', g') (Ingest.add_to_group eqk k x gs) -> In y g' ->
  (exists g, In (k', g) gs /\ In y g) \/ (k' = k /\ y = x).
Proof.
  induction gs as [|[k0 ys] gs IH]; simpl.
  - intros [H|[]] Hy; injection H as <- <-. destruct Hy as [<-|[]]; right; auto.
  - destruct (eqk k k0) eqn:Hk.
    + apply eqk_spec in Hk; subst k0.
      intros [H|H] Hy.
      * injection H as <- <-. apply in_app_or in Hy as [Hy|[<-|[]]].
        -- left; exists ys; auto.
        -- right; auto.
      * left; exists g'; auto.
    + intros [H|H] Hy.
      * injection H as <- <-. left; exists ys; auto.
      * destruct (IH H Hy) as [[g [Hg Hyg]]|Hr]; [left; exists g; auto | right; exact Hr].
Qed.



Lemma group_by_In (xs : list A) (k : K) (g : list A) (y : A) :
  In (k, g) (Ingest.group_by eqk key xs) -> In y g -> key y = k /\ In y xs.
Proof.
  unfold Ingest.group_by.
  enough (Hgen : forall gs, In (k, g) (fold_left (fun gs x => Ingest.add_to_group eqk (key x) x gs) xs gs) ->
                  In y g -> (exists g0, In (k, g0) gs /\ In y g0) \/ (key y = k /\ In y xs)).
  { intros H Hy. destruct (Hgen [] H Hy) as [[g0 [[] _]]|Hr]; exact Hr. }
  induction xs as [|x xs IH]; simpl; intros gs H Hy.
  - left; exists g; auto.
  - destruct (IH _ H Hy) as [[g0 [Hg0 Hy0]]|[Hk Hin]].
    + destruct (add_to_group_In _ _ _ _ _ _ Hg0 Hy0) as [Hl|[-> ->]]; [left; exact Hl|].
      right; split; [reflexivity | left; reflexivity].
    + right; split; [exact Hk | right; exact Hin].
Qed.

End GroupByLemmas.

Lemma gedge_eqb_true e f : Ingest.gedge_eqb e f = true -> e = f.
Proof.
  destruct e as [a t b], f as [a' t' b']; unfold Ingest.gedge_eqb; simpl.
  intros H. apply andb_prop in H as [H H3]. apply andb_prop in H as [H1 H2].
  apply Nat.eqb_eq in H1, H3. apply String.eqb_eq in H2. subst; reflexivity.
Qed.

Lemma merge_edge_nodes s e : Ingest.nodes (Ingest.merge_edge s e) = Ingest.nodes s.
Proof. unfold Ingest.merge_edge; destruct existsb; reflexivity. Qed.

Lemma merge_edge_pendings s e : Ingest.pendings (Ingest.merge_edge s e) = Ingest.pendings s.
Proof. unfold Ingest.merge_edge; destruct existsb; reflexivity. Qed.

Lemma merge_edge_incl s e : incl (Ingest.edges s) (Ingest.edges (Ingest.merge_edge s e)).
Proof.
  unfold Ingest.merge_edge; destruct existsb; simpl; [apply incl_refl|].
  intros x Hx; apply in_or_app; left; exact Hx.
Qed.

Lemma merge_edge_in s e : In e (Ingest.edges (Ingest.merge_edge s e)).
Proof.
  unfold Ingest.merge_edge; destruct existsb eqn:H; simpl.
  - apply existsb_exists in H as [f [Hf He]]. apply gedge_eqb_true in He; subst; exact Hf.
  - apply in_or_app; right; left; reflexivity.
Qed.

Lemma merge_edge_new s e f :
  In f (Ingest.edges (Ingest.merge_edge s e)) -> In f (Ingest.edges s) \/ f = e.
Proof.
  unfold Ingest.merge_edge; destruct existsb; simpl; [left; assumption|].
  intros H; apply in_app_or in H as [H|[<-|[]]]; [left; exact H | right; reflexivity].
Qed.

Lemma match_row_nodes s s' r :
  Ingest.nodes s = Ingest.nodes s' -> Ingest.match_row s r = Ingest.match_row s' r.
Proof. intros H; unfold Ingest.match_row; rewrite H; reflexivity. Qed.

Lemma match_row_key s r r' :
  Ingest.row_key r = Ingest.row_key r' -> Ingest.match_row s r = Ingest.match_row s r'.
Proof. unfold Ingest.row_key, Ingest.match_row; intros H; injection H as -> ->; reflexivity. Qed.

Lemma match_row_In s r a b :
  In (a, b) (Ingest.match_row s r) ->
  In a (Ingest.nodes s) /\ In b (Ingest.nodes s) /\
  Ingest.n_gid a = Ingest.rr_source_gid r /\ Ingest.n_canonical_id b = Ingest.rr_target_canonical_id r.
Proof.
  unfold Ingest.match_row; intros H.
  apply in_flat_map in H as [a' [Ha Hb]]. apply in_map_iff in Hb as [b' [Hab Hb]].
  injection Hab as -> ->.
  apply filter_In in Ha as [Ha Ha']. apply filter_In in Hb as [Hb Hb'].
  apply String.eqb_eq in Ha', Hb'. auto.
Qed.

Lemma key_eqb_true k l : Ingest.key_eqb k l = true -> k = l.
Proof.
  destruct k as [k1 k2], l as [l1 l2]; unfold Ingest.key_eqb; simpl.
  intros H; apply andb_prop in H as [H1 H2]; apply String.eqb_eq in H1, H2; subst; reflexivity.
Qed.

(** The MERGE part of one row: every matched pair gets its edge; nothing else
    changes but the new edges. *)
Lemma row_merge_props (t : string) (s : Ingest.store) (l : list (Ingest.gnode * Ingest.gnode)) :
  let s' := fold_left (fun s '(a, b) => Ingest.merge_edge s (Ingest.GEdge (Ingest.nid a) t (Ingest.nid b))) l s in
  Ingest.nodes s' = Ingest.nodes s /\ Ingest.pendings s' = Ingest.pendings s /\
  incl (Ingest.edges s) (Ingest.edges s') /\
  (forall e, In e (Ingest.edges s') -> In e (Ingest.edges s) \/
             exists a b, In (a, b) l /\ e = Ingest.GEdge (Ingest.nid a) t (Ingest.nid b)) /\
  (forall a b, In (a, b) l -> In (Ingest.GEdge (Ingest.nid a) t (Ingest.nid b)) (Ingest.edges s')).
Proof.
  intros s'. split; [|split; [|split; [|split]]].
  - apply (fold_left_preserve _ (fun st => Ingest.nodes st = Ingest.nodes s)); [reflexivity|].
    intros st [a b] _ H; rewrite merge_edge_nodes; exact H.
  - apply (fold_left_preserve _ (fun st => Ingest.pendings st = Ingest.pendings s)); [reflexivity|].
    intros st [a b] _ H; rewrite merge_edge_pendings; exact H.
  - apply (fold_left_preserve _ (fun st => incl (Ingest.edges s) (Ingest.edges st))); [apply incl_refl|].
    intros st [a b] _ H; eapply incl_tran; [exact H | apply merge_edge_incl].
  - apply (fold_left_preserve _ (fun st => forall e, In e (Ingest.edges st) -> In e (Ingest.edges s) \/
             exists a b, In (a, b) l /\ e = Ingest.GEdge (Ingest.nid a) t (Ingest.nid b))); [auto|].
    intros st [a b] Hab H e He. apply merge_edge_new in He as [He| ->]; [apply H; exact He|].
    right; exists a, b; auto.
  - intros a b Hab.
    apply (fold_left_reaches _ (fun _ => True) (fun st => In (Ingest.GEdge (Ingest.nid a) t (Ingest.nid b)) (Ingest.edges st)) l (a, b)); auto.
    + intros st [a' b'] _ H; apply merge_edge_incl; exact H.
    + intros st _; apply merge_edge_in.
Qed.

(** One type group of [ingest_relationships]. *)
Lemma ingest_rel_group_props (s : Ingest.store) (t : string) (g : list Ingest.rel_row) :
  let s' := Ingest.ingest_rel_group s t g in
  Ingest.nodes s' = Ingest.nodes s /\
  incl (Ingest.edges s) (Ingest.edges s') /\ incl (Ingest.pendings s) (Ingest.pendings s') /\
  (forall e, In e (Ingest.edges s') -> In e (Ingest.edges s) \/
     exists r a b, In r g /\ In (a, b) (Ingest.match_row s r) /\ e = Ingest.GEdge (Ingest.nid a) t (Ingest.nid b)) /\
  (Ingest.group_fails s g = false -> forall r, In r g ->
     (exists a b, In (a, b) (Ingest.match_row s r) /\ In (Ingest.GEdge (Ingest.nid a) t (Ingest.nid b)) (Ingest.edges s'))
     \/ In (Ingest.Pending (Ingest.rr_source_gid r) (Ingest.rr_target_canonical_id r) t) (Ingest.pendings s')).
Proof.
  unfold Ingest.ingest_rel_group.
  destruct (Ingest.group_fails s g) eqn:Hf.
  { cbn zeta. split; [reflexivity|]. split; [apply incl_refl|]. split; [apply incl_refl|].
    split; [auto | discriminate]. }
  set (step := fun s r => fold_left (fun s '(a, b) => Ingest.merge_edge s (Ingest.GEdge (Ingest.nid a) t (Ingest.nid b)))
                                    (Ingest.match_row s r) s).
  set (s1 := fold_left step g s).
  set (created := map Ingest.row_key (List.filter (Ingest.matched s) g)).
  set (pb := List.filter (fun r => negb (existsb (Ingest.key_eqb (Ingest.row_key r)) created)) g).
  assert (Hn1 : Ingest.nodes s1 = Ingest.nodes s).
  { apply (fold_left_preserve _ (fun st => Ingest.nodes st = Ingest.nodes s)); [reflexivity|].
    intros st r _ H. destruct (row_merge_props t st (Ingest.match_row st r)) as [Hn _]. subst step; cbv beta.
    rewrite Hn; exact H. }
  assert (He1 : incl (Ingest.edges s) (Ingest.edges s1)).
  { apply (fold_left_preserve _ (fun st => incl (Ingest.edges s) (Ingest.edges st))); [apply incl_refl|].
    intros st r _ H. destruct (row_merge_props t st (Ingest.match_row st r)) as [_ [_ [Hi _]]].
    eapply incl_tran; [exact H | exact Hi]. }
  assert (Hp1 : Ingest.pendings s1 = Ingest.pendings s).
  { apply (fold_left_preserve _ (fun st => Ingest.pendings st = Ingest.pendings s)); [reflexivity|].
    intros st r _ H. destruct (row_merge_props t st (Ingest.match_row st r)) as [_ [Hp _]]. subst step; cbv beta.
    rewrite Hp; exact H. }
  assert (Hnew1 : forall e, In e (Ingest.edges s1) -> In e (Ingest.edges s) \/
     exists r a b, In r g /\ In (a, b) (Ingest.match_row s r) /\ e = Ingest.GEdge (Ingest.nid a) t (Ingest.nid b)).
  { apply (fold_left_preserve _ (fun st => Ingest.nodes st = Ingest.nodes s /\ forall e, In e (Ingest.edges st) -> In e (Ingest.edges s) \/
     exists r a b, In r g /\ In (a, b) (Ingest.match_row s r) /\ e = Ingest.GEdge (Ingest.nid a) t (Ingest.nid b)));
      [split; [reflexivity | auto] |].
    intros st r Hr [Hn H].
    destruct (row_merge_props t st (Ingest.match_row st r)) as [Hn' [_ [_ [Hnew _]]]].
    subst step; cbv beta. split; [rewrite Hn'; exact Hn|].
    intros e He. apply Hnew in He as [He|[a [b [Hab ->]]]]; [apply H; exact He|].
    right; exists r, a, b. rewrite (match_row_nodes s st r) by (symmetry; exact Hn). auto. }
  cbn zeta. split; [|split; [|split; [|split]]].
  - exact Hn1.
  - exact He1.
  - rewrite Hp1. intros x Hx; cbn; apply in_or_app; left; exact Hx.
  - exact Hnew1.
  - intros _ r Hr. destruct (Ingest.match_row s r) as [|[a b] l] eqn:Hm.
    + right; cbn. apply in_or_app; right.
      apply in_map_iff; exists r; split; [reflexivity|].
      apply filter_In; split; [exact Hr|].
      destruct (existsb (Ingest.key_eqb (Ingest.row_key r)) created) eqn:Hx; [|reflexivity].
      exfalso. apply existsb_exists in Hx as [k [Hk Hkr]]. apply key_eqb_true in Hkr; subst k.
      apply in_map_iff in Hk as [r' [Hkey Hr']]. apply filter_In in Hr' as [_ Hm'].
      unfold Ingest.matched in Hm'. rewrite (match_row_key s r' r Hkey), Hm in Hm'. discriminate.
    + left; exists a, b; split; [left; reflexivity|]. cbn.
      apply (fold_left_reaches step (fun st => Ingest.nodes st = Ingest.nodes s)
               (fun st => In (Ingest.GEdge (Ingest.nid a) t (Ingest.nid b)) (Ingest.edges st)) g r s); auto.
      * intros st y Hst. destruct (row_merge_props t st (Ingest.match_row st y)) as [Hn _].
        subst step; cbv beta; rewrite Hn; exact Hst.
      * intros st y _ H. destruct (row_merge_props t st (Ingest.match_row st y)) as [_ [_ [Hi _]]]. apply Hi, H.
      * intros st Hst. destruct (row_merge_props t st (Ingest.match_row st r)) as [_ [_ [_ [_ Hin]]]].
        apply Hin. rewrite (match_row_nodes st s r Hst), Hm. left; reflexivity.
Qed.



(** C3 (code bug): UpsertRelationships can drop input rows.  Both rows of
    [stub_rows] carry a properties map, as every relationship stub of the
    analyzer does.  The first one matches a source and a target in
    [sample_store], so the MERGE batch of the CONTAINS group reaches
    [SET r += row] with a map-valued key and fails.  The group's [except]
    catches the error before any pending is written.  After the call,
    neither row exists as an edge or as a PendingRelationship, not even the
    second row, whose target is missing. *)
Theorem upsert_relationships_drops_rows :
  let s' := Ingest.ingest_relationships Ingest.sample_store Ingest.stub_rows in
  Ingest.matched Ingest.sample_store (hd (Ingest.RelRow "" "" None None) Ingest.stub_rows) = true /\
  (forall r, In r Ingest.stub_rows ->
     ~ ((exists e, Ingest.edge_of_row (Ingest.nodes s') r e /\ In e (Ingest.edges s'))
        \/ In (Ingest.Pending (Ingest.rr_source_gid r) (Ingest.rr_target_canonical_id r) (Ingest.rel_type r))
              (Ingest.pendings s'))).
Proof.
  cbn zeta. split; [vm_compute; reflexivity|].
  assert (He : Ingest.edges (Ingest.ingest_relationships Ingest.sample_store Ingest.stub_rows) = [])
    by (vm_compute; reflexivity).
  assert (Hp : Ingest.pendings (Ingest.ingest_relationships Ingest.sample_store Ingest.stub_rows) = [])
    by (vm_compute; reflexivity).
  rewrite He, Hp. intros r _ [[e [_ []]]|[]].
Qed.


(** ** Resolver lemmas *)

Lemma collect_step_fields (c : Resolve.collected) (x : string * Resolve.graph_node) :
  Resolve.api_endpoints (Resolve.collect_step c x) = Resolve.register_step Resolve.endpoint_key (Resolve.api_endpoints c) x /\
  Resolve.db_tables (Resolve.collect_step c x) = Resolve.register_step (Resolve.name_key "Table") (Resolve.db_tables c) x /\
  Resolve.db_columns (Resolve.collect_step c x) = Resolve.register_step (Resolve.name_key "Column") (Resolve.db_columns c) x /\
  Resolve.api_callers (Resolve.collect_step c x) = (Resolve.api_callers c ++ Resolve.of_type "ApiCall" x)%list /\
  Resolve.db_query_nodes (Resolve.collect_step c x) = (Resolve.db_query_nodes c ++ Resolve.of_type "DatabaseQuery" x)%list.
Proof.
  destruct x as [gid n]. unfold Resolve.collect_step, Resolve.register_step, Resolve.endpoint_key,
    Resolve.name_key, Resolve.of_type; cbn [snd].
  remember (Resolve.node_type n) as t eqn:Ht.
  destruct (String.eqb_spec t "ApiCall") as [->|N1]; [cbn; rewrite ?app_nil_r; auto|].
  destruct (String.eqb_spec t "ApiEndpoint") as [->|N2].
  { cbn. destruct (String.eqb _ ""); cbn; rewrite ?app_nil_r; auto. }
  destruct (String.eqb_spec t "DatabaseQuery") as [->|N3]; [cbn; rewrite ?app_nil_r; auto|].
  destruct (String.eqb_spec t "Table") as [->|N4].
  { cbn. destruct (String.eqb _ ""); cbn; rewrite ?app_nil_r; auto. }
  destruct (String.eqb_spec t "Column") as [->|N5].
  { cbn. destruct (String.eqb _ ""); cbn; rewrite ?app_nil_r; auto. }
  rewrite ?app_nil_r; auto.
Qed.

Lemma collect_fields (fn : list (string * Resolve.graph_node)) :
  Resolve.api_endpoints (Resolve.collect fn) = Resolve.register Resolve.endpoint_key fn /\
  Resolve.db_tables (Resolve.collect fn) = Resolve.register (Resolve.name_key "Table") fn /\
  Resolve.db_columns (Resolve.collect fn) = Resolve.register (Resolve.name_key "Column") fn /\
  Resolve.api_callers (Resolve.collect fn) = flat_map (Resolve.of_type "ApiCall") fn /\
  Resolve.db_query_nodes (Resolve.collect fn) = flat_map (Resolve.of_type "DatabaseQuery") fn.
Proof.
  unfold Resolve.collect, Resolve.register.
  enough (Hgen : forall c,
    let c' := fold_left Resolve.collect_step fn c in
    Resolve.api_endpoints c' = fold_left (Resolve.register_step Resolve.endpoint_key) fn (Resolve.api_endpoints c) /\
    Resolve.db_tables c' = fold_left (Resolve.register_step (Resolve.name_key "Table")) fn (Resolve.db_tables c) /\
    Resolve.db_columns c' = fold_left (Resolve.register_step (Resolve.name_key "Column")) fn (Resolve.db_columns c) /\
    Resolve.api_callers c' = (Resolve.api_callers c ++ flat_map (Resolve.of_type "ApiCall") fn)%list /\
    Resolve.db_query_nodes c' = (Resolve.db_query_nodes c ++ flat_map (Resolve.of_type "DatabaseQuery") fn)%list)
    by apply Hgen.
  induction fn as [|x fn IH]; intros c; cbn zeta; [rewrite !app_nil_r; auto|].
  cbn [fold_left flat_map].
  destruct (IH (Resolve.collect_step c x)) as [H1 [H2 [H3 [H4 H5]]]].
  destruct (collect_step_fields c x) as [E1 [E2 [E3 [E4 E5]]]].
  rewrite H1, H2, H3, H4, H5, E1, E2, E3, E4, E5, !app_assoc. auto.
Qed.

Lemma app_snoc_split {A} (pre post l : list A) (a x : A) :
  (pre ++ a :: post = l ++ [x])%list ->
  (post = [] /\ pre = l /\ a = x) \/ (exists post', post = (post' ++ [x])%list /\ l = (pre ++ a :: post')%list).
Proof.
  intros H. induction post as [|y post' _] using rev_ind.
  - left. apply app_inj_tail in H as [-> ->]. auto.
  - right. rewrite app_comm_cons, app_assoc in H. apply app_inj_tail in H as [H ->].
    exists post'; split; [reflexivity | symmetry; exact H].
Qed.

Lemma register_last (key : Resolve.graph_node -> option string) (fn : list (string * Resolve.graph_node)) k g :
  Resolve.register key fn !! k = Some g <-> Resolve.last_registered key fn k g.
Proof.
  unfold Resolve.register, Resolve.last_registered.
  induction fn as [|x fn IH] using rev_ind.
  - cbn. rewrite lookup_empty. split; [discriminate|].
    intros [pre [n [post [H _]]]]. destruct pre; discriminate.
  - rewrite fold_left_app. cbn [fold_left]. destruct x as [gid n].
    change (Resolve.register_step key ?m (gid, n)) with
      (match key n with Some k => <[k := gid]> m | None => m end).
    destruct (key n) as [k'|] eqn:Hk.
    + destruct (String.eq_dec k' k) as [->|Hne].
      * rewrite lookup_insert_eq. split.
        -- intros [= <-]. exists fn, n, []; rewrite Hk; auto.
        -- intros [pre [n' [post [Hsplit [Hk' Hpost]]]]].
           symmetry in Hsplit; apply app_snoc_split in Hsplit as [[-> [-> Heq]]|[post' [-> _]]].
           ++ injection Heq as -> ->; reflexivity.
           ++ apply Forall_app in Hpost as [_ Hlast]. inversion Hlast as [|? ? Hne _].
              cbn in Hne. congruence.
      * rewrite lookup_insert_ne by congruence. rewrite IH. split.
        -- intros [pre [n' [post [-> [Hk' Hpost]]]]].
           exists pre, n', (post ++ [(gid, n)])%list. rewrite <- app_assoc. cbn.
           split; [reflexivity|]; split; [exact Hk'|].
           apply Forall_app; split; [exact Hpost|]. constructor; [cbn; congruence | constructor].
        -- intros [pre [n' [post [Hsplit [Hk' Hpost]]]]].
           symmetry in Hsplit; apply app_snoc_split in Hsplit as [[-> [-> Heq]]|[post' [-> ->]]].
           ++ injection Heq as -> ->. congruence.
           ++ apply Forall_app in Hpost as [Hpost _]. exists pre, n', post'; auto.
    + rewrite IH. split.
      * intros [pre [n' [post [-> [Hk' Hpost]]]]].
        exists pre, n', (post ++ [(gid, n)])%list. rewrite <- app_assoc. cbn.
        split; [reflexivity|]; split; [exact Hk'|].
        apply Forall_app; split; [exact Hpost|]. constructor; [cbn; congruence | constructor].
      * intros [pre [n' [post [Hsplit [Hk' Hpost]]]]].
        symmetry in Hsplit; apply app_snoc_split in Hsplit as [[-> [-> Heq]]|[post' [-> ->]]].
        -- injection Heq as -> ->. congruence.
        -- apply Forall_app in Hpost as [Hpost _]. exists pre, n', post'; auto.
Qed.

Lemma of_type_In ty (fn : list (string * Resolve.graph_node)) n :
  In n (flat_map (Resolve.of_type ty) fn) <-> exists gid, In (gid, n) fn /\ Resolve.node_type n = ty.
Proof.
  rewrite in_flat_map. unfold Resolve.of_type. split.
  - intros [[gid m] [Hin Hn]]. cbn in Hn.
    destruct (String.eqb_spec (Resolve.node_type m) ty) as [Ht|]; [|destruct Hn].
    destruct Hn as [<-|[]]. exists gid; auto.
  - intros [gid [Hin Ht]]. exists (gid, n); split; [exact Hin|]. cbn.
    rewrite Ht, String.eqb_refl. left; reflexivity.
Qed.

Lemma api_edges_In c x :
  In x (Resolve.api_edges c) <->
  exists caller g, In caller (Resolve.api_callers c) /\ Resolve.call_url caller <> ""%string /\
    Resolve.api_endpoints c !! Resolve.match_path (Resolve.call_url caller) = Some g /\
    x = Resolve.GraphRelationship (Resolve.global_id caller) g "CALLS_API" "url_path".
Proof.
  unfold Resolve.api_edges; rewrite in_flat_map. split.
  - intros [caller [Hc Hx]].
    destruct (String.eqb_spec (Resolve.call_url caller) "") as [_|Hne]; [destruct Hx|].
    destruct (Resolve.api_endpoints c !! _) as [g|] eqn:Hg; [|destruct Hx].
    destruct Hx as [<-|[]]. exists caller, g; auto.
  - intros [caller [g [Hc [Hne [Hg ->]]]]]. exists caller; split; [exact Hc|].
    destruct (String.eqb_spec (Resolve.call_url caller) "") as [He|_]; [contradiction|].
    rewrite Hg; left; reflexivity.
Qed.

Lemma table_edges_In c qn query x :
  In x (Resolve.table_edges c qn query) <->
  exists t g, In t (Sql.parse_tables query) /\ Resolve.db_tables c !! t = Some g /\
    x = Resolve.GraphRelationship (Resolve.global_id qn) g (Resolve.table_rel_type query) "table_name_in_query".
Proof.
  unfold Resolve.table_edges; rewrite in_flat_map. split.
  - intros [t [Ht Hx]]. destruct (Resolve.db_tables c !! t) as [g|] eqn:Hg; [|destruct Hx].
    destruct Hx as [<-|[]]. exists t, g; auto.
  - intros [t [g [Ht [Hg ->]]]]. exists t; split; [exact Ht|]. rewrite Hg; left; reflexivity.
Qed.

Lemma column_edges_In c qn query x :
  In x (Resolve.column_edges c qn query) <->
  exists col g, In col (Sql.parse_columns query) /\ Resolve.db_columns c !! col = Some g /\
    x = Resolve.GraphRelationship (Resolve.global_id qn) g "USES_COLUMN" "column_name_in_query".
Proof.
  unfold Resolve.column_edges; rewrite in_flat_map. split.
  - intros [col [Hcol Hx]]. destruct (Resolve.db_columns c !! col) as [g|] eqn:Hg; [|destruct Hx].
    destruct Hx as [<-|[]]. exists col, g; auto.
  - intros [col [g [Hcol [Hg ->]]]]. exists col; split; [exact Hcol|]. rewrite Hg; left; reflexivity.
Qed.

Lemma db_edges_In c x :
  In x (Resolve.db_edges c) <->
  exists qn, In qn (Resolve.db_query_nodes c) /\ Resolve.get (Resolve.properties qn) "query" <> ""%string /\
    (In x (Resolve.table_edges c qn (Resolve.get (Resolve.properties qn) "query")) \/
     In x (Resolve.column_edges c qn (Resolve.get (Resolve.properties qn) "query"))).
Proof.
  unfold Resolve.db_edges; rewrite in_flat_map. split.
  - intros [qn [Hq Hx]].
    destruct (String.eqb_spec (Resolve.get (Resolve.properties qn) "query") "") as [_|Hne]; [destruct Hx|].
    exists qn; split; [exact Hq|]; split; [exact Hne|]. apply in_app_or; exact Hx.
  - intros [qn [Hq [Hne Hx]]]. exists qn; split; [exact Hq|].
    destruct (String.eqb_spec (Resolve.get (Resolve.properties qn) "query") "") as [He|_]; [contradiction|].
    apply in_or_app; exact Hx.
Qed.

Lemma resolve_In fn x :
  In x (Resolve.resolve_cross_language_heuristics fn) <->
  In x (Resolve.api_edges (Resolve.collect fn)) \/ In x (Resolve.db_edges (Resolve.collect fn)).
Proof. unfold Resolve.resolve_cross_language_heuristics; cbn zeta; apply in_app_iff. Qed.

(** Counterexample for C8: with two Table nodes named [users], the query
    [SELECT name FROM users WHERE id=?] gets READS_TABLE only to the second
    one ([sql:t2], the last registered) and USES_COLUMN to Column [name]; the
    Table [sql:t1], although named [users], gets no edge. *)
Lemma duplicate_table_name_single_edge :
  Resolve.resolve_cross_language_heuristics Resolve.duplicate_tables_nodes =
    [Resolve.GraphRelationship "py:q1" "sql:t2" "READS_TABLE" "table_name_in_query";
     Resolve.GraphRelationship "py:q1" "sql:c1" "USES_COLUMN" "column_name_in_query"]%string.
Proof. vm_compute; reflexivity. Qed.

(** Counterexample for C9: an endpoint declared with path [/api/items] and a
    call to [http://host/api/items] produce no CALLS_API edge; the call's
    scheme and host are not stripped. *)
Lemma host_url_not_matched :
  Resolve.resolve_cross_language_heuristics Resolve.host_url_nodes = [].
Proof. vm_compute; reflexivity. Qed.

(** C9 (amended): the resolver emits a CALLS_API edge with
    [heuristic_match = "url_path"] from [src] to [tgt] exactly when some
    ApiCall node with global id [src] has a non-empty url (its [url], or its
    [path] when [url] is empty) whose [match_path] (cut at the first [?], then
    leading and trailing slashes stripped; scheme and host are kept) is a key
    of the endpoint dict with value [tgt].  That dict maps each ApiEndpoint's
    [path] with only its leading and trailing slashes stripped, when
    non-empty, to the endpoint's gid, the last such endpoint winning. *)
Theorem calls_api_url_path_iff (fn : list (string * Resolve.graph_node)) (src tgt : string) :
  (In (Resolve.GraphRelationship src tgt "CALLS_API" "url_path") (Resolve.resolve_cross_language_heuristics fn) <->
   exists gid n, In (gid, n) fn /\ Resolve.node_type n = "ApiCall"%string /\ Resolve.call_url n <> ""%string /\
     Resolve.global_id n = src /\
     Resolve.register Resolve.endpoint_key fn !! Resolve.match_path (Resolve.call_url n) = Some tgt) /\
  (forall k g, Resolve.register Resolve.endpoint_key fn !! k = Some g <->
               Resolve.last_registered Resolve.endpoint_key fn k g).
Proof.
  split; [|intros k g; apply register_last].
  rewrite resolve_In. destruct (collect_fields fn) as [Hep [_ [_ [Hcall _]]]].
  split.
  - intros [H|H].
    + apply api_edges_In in H as [caller [g [Hc [Hne [Hg Heq]]]]]. injection Heq as -> ->.
      rewrite Hcall in Hc. apply of_type_In in Hc as [gid [Hin Ht]]. rewrite Hep in Hg.
      exists gid, caller; auto.
    + exfalso. apply db_edges_In in H as [qn [_ [_ [H|H]]]];
        [apply table_edges_In in H | apply column_edges_In in H];
        destruct H as [? [? [_ [_ Heq]]]]; discriminate.
  - intros [gid [n [Hin [Ht [Hne [<- Hg]]]]]]. left. apply api_edges_In.
    exists n, tgt. rewrite Hcall, of_type_In, Hep. repeat split; eauto.
Qed.

(** C8 (amended): for every DatabaseQuery node with a non-empty [query], the
    resolver emits, for each table name [parse_sql_query] extracts (after
    FROM, JOIN, UPDATE or INTO) that is a key of the table dict, one edge to
    the gid registered under it, typed [table_rel_type query]
    (MODIFIES_TABLE when [\bUPDATE\b], [\bINSERT\b] or [\bDELETE\b] occurs,
    case-insensitively; else READS_TABLE when [\bSELECT\b] occurs; else
    QUERIES_TABLE), and for each extracted column name that is a key of the
    column dict a USES_COLUMN edge to the gid registered under it; no other
    table or column edges are emitted.  The dicts map each non-empty Table
    (resp. Column) name to the gid of the LAST node of that type with that
    name, so among several Tables sharing a name only the last one gets
    edges. *)
Theorem db_query_edges_iff (fn : list (string * Resolve.graph_node)) (src tgt ty : string) :
  (In (Resolve.GraphRelationship src tgt ty "table_name_in_query") (Resolve.resolve_cross_language_heuristics fn) <->
   exists gid n, In (gid, n) fn /\ Resolve.node_type n = "DatabaseQuery"%string /\
     Resolve.get (Resolve.properties n) "query" <> ""%string /\ Resolve.global_id n = src /\
     exists t, In t (Sql.parse_tables (Resolve.get (Resolve.properties n) "query")) /\
       Resolve.register (Resolve.name_key "Table") fn !! t = Some tgt /\
       ty = Resolve.table_rel_type (Resolve.get (Resolve.properties n) "query")) /\
  (In (Resolve.GraphRelationship src tgt ty "column_name_in_query") (Resolve.resolve_cross_language_heuristics fn) <->
   ty = "USES_COLUMN"%string /\
   exists gid n, In (gid, n) fn /\ Resolve.node_type n = "DatabaseQuery"%string /\
     Resolve.get (Resolve.properties n) "query" <> ""%string /\ Resolve.global_id n = src /\
     exists col, In col (Sql.parse_columns (Resolve.get (Resolve.properties n) "query")) /\
       Resolve.register (Resolve.name_key "Column") fn !! col = Some tgt) /\
  (forall k g, Resolve.register (Resolve.name_key "Table") fn !! k = Some g <->
               Resolve.last_registered (Resolve.name_key "Table") fn k g) /\
  (forall k g, Resolve.register (Resolve.name_key "Column") fn !! k = Some g <->
               Resolve.last_registered (Resolve.name_key "Column") fn k g).
Proof.
  destruct (collect_fields fn) as [_ [Htab [Hcol [_ Hq]]]].
  split; [|split; [|split; intros k g; apply register_last]].
  - rewrite resolve_In. split.
    + intros [H|H].
      * exfalso. apply api_edges_In in H as [? [? [_ [_ [_ Heq]]]]]. discriminate.
      * apply db_edges_In in H as [qn [Hqn [Hne [H|H]]]].
        -- apply table_edges_In in H as [t [g [Ht [Hg Heq]]]]. injection Heq as -> -> ->.
           rewrite Hq in Hqn. apply of_type_In in Hqn as [gid [Hin Hty]]. rewrite Htab in Hg.
           exists gid, qn. repeat split; auto. exists t; auto.
        -- exfalso. apply column_edges_In in H as [? [? [_ [_ Heq]]]]. discriminate.
    + intros [gid [n [Hin [Hty [Hne [<- [t [Ht [Hg ->]]]]]]]]]. right. apply db_edges_In.
      exists n. rewrite Hq, of_type_In. split; [eauto|]. split; [exact Hne|]. left.
      apply table_edges_In. exists t, tgt. rewrite Htab. auto.
  - rewrite resolve_In. split.
    + intros [H|H].
      * exfalso. apply api_edges_In in H as [? [? [_ [_ [_ Heq]]]]]. discriminate.
      * apply db_edges_In in H as [qn [Hqn [Hne [H|H]]]].
        -- exfalso. apply table_edges_In in H as [? [? [_ [_ Heq]]]]. discriminate.
        -- apply column_edges_In in H as [col [g [Hc [Hg Heq]]]]. injection Heq as -> -> ->.
           rewrite Hq in Hqn. apply of_type_In in Hqn as [gid [Hin Hty]]. rewrite Hcol in Hg.
           split; [reflexivity|]. exists gid, qn. repeat split; auto. exists col; auto.
    + intros [-> [gid [n [Hin [Hty [Hne [<- [col [Hc Hg]]]]]]]]]. right. apply db_edges_In.
      exists n. rewrite Hq, of_type_In. split; [eauto|]. split; [exact Hne|]. right.
      apply column_edges_In. exists col, tgt. rewrite Hcol. auto.
Qed.

(** Witness for C9: a call whose [url] is empty and whose [path] is
    [api/items?page=2] is linked to the endpoint declared as [/api/items/]. *)
Lemma calls_api_url_path_iff_witness :
  In (Resolve.GraphRelationship "js:call" "java:ep" "CALLS_API" "url_path")%string
     (Resolve.resolve_cross_language_heuristics Resolve.query_string_nodes).
Proof.
  apply (proj2 (proj1 (calls_api_url_path_iff Resolve.query_string_nodes "js:call" "java:ep"))).
  exists "js:call"%string, (Resolve.GraphNode "js:call" "ApiCall" (Resolve.props [("url", ""); ("path", "api/items?page=2")]))%string.
  split; [right; left; reflexivity|].
  split; [reflexivity|]. split; [vm_compute; discriminate|]. split; [reflexivity|].
  vm_compute; reflexivity.
Defined.

(** Witness for C8: on the graph of [duplicate_tables_nodes] the query node
    gets READS_TABLE to the last Table named [users] and USES_COLUMN to
    Column [name]. *)
Lemma db_query_edges_iff_witness :
  In (Resolve.GraphRelationship "py:q1" "sql:t2" "READS_TABLE" "table_name_in_query")%string
     (Resolve.resolve_cross_language_heuristics Resolve.duplicate_tables_nodes) /\
  In (Resolve.GraphRelationship "py:q1" "sql:c1" "USES_COLUMN" "column_name_in_query")%string
     (Resolve.resolve_cross_language_heuristics Resolve.duplicate_tables_nodes).
Proof.
  set (qn := Resolve.GraphNode "py:q1" "DatabaseQuery" (Resolve.props [("query", Resolve.users_query)])%string).
  destruct (db_query_edges_iff Resolve.duplicate_tables_nodes "py:q1" "sql:t2" "READS_TABLE")
    as [[_ Htab] _].
  destruct (db_query_edges_iff Resolve.duplicate_tables_nodes "py:q1" "sql:c1" "USES_COLUMN")
    as [_ [[_ Hcol] _]].
  split.
  - apply Htab. exists "py:q1"%string, qn.
    split; [right; right; right; left; reflexivity|].
    split; [reflexivity|]. split; [vm_compute; discriminate|]. split; [reflexivity|].
    exists "users"%string. split; [vm_compute; left; reflexivity|].
    split; vm_compute; reflexivity.
  - apply Hcol. split; [reflexivity|]. exists "py:q1"%string, qn.
    split; [right; right; right; left; reflexivity|].
    split; [reflexivity|]. split; [vm_compute; discriminate|]. split; [reflexivity|].
    exists "name"%string. split; [vm_compute; left; reflexivity|].
    vm_compute; reflexivity.
Defined.

(* ===================================================================== *)
(** * Further properties of the embedded code *)
(* ===================================================================== *)

Lemma progress_refl s : Ingest.progress s s.
Proof.
  split; [reflexivity|]; split; [reflexivity|]; split; [apply incl_refl|]; split; [apply incl_refl|]; split; auto.
Qed.

Lemma resolved_in_mono s s' p :
  Ingest.nodes s' = Ingest.nodes s -> incl (Ingest.edges s) (Ingest.edges s') ->
  Ingest.resolved_in s p -> Ingest.resolved_in s' p.
Proof.
  intros Hn He [a [b [Ha [Hb [Hg [Hc Hin]]]]]].
  exists a, b; rewrite Hn; repeat split; auto.
Qed.

Lemma progress_trans s1 s2 s3 :
  Ingest.progress s1 s2 -> Ingest.progress s2 s3 -> Ingest.progress s1 s3.
Proof.
  intros [Hn1 [Hf1 [He1 [Hp1 [Hr1 Hnew1]]]]] [Hn2 [Hf2 [He2 [Hp2 [Hr2 Hnew2]]]]].
  split; [congruence|]. split; [congruence|]. split; [eapply incl_tran; eauto|]. split; [eapply incl_tran; eauto|].
  split.
  - intros p Hp. destruct (Hr1 p Hp) as [Hp'|Hres].
    + destruct (Hr2 p Hp') as [H|H]; [left; exact H | right; exact H].
    + right. eapply resolved_in_mono; [| | exact Hres]; [exact Hn2 | exact He2].
  - intros e He. destruct (Hnew2 e He) as [H|[a [b [Ha [Hb Hab]]]]].
    + destruct (Hnew1 e H) as [H'|H']; [left; exact H' | right; exact H'].
    + right. exists a, b. rewrite Hn1 in Ha, Hb. auto.
Qed.

Lemma fold_merge_fresh t s l :
  Ingest.fresh (fold_left (fun s '(a, b) => Ingest.merge_edge s (Ingest.GEdge (Ingest.nid a) t (Ingest.nid b))) l s)
  = Ingest.fresh s.
Proof.
  apply (fold_left_preserve _ (fun st => Ingest.fresh st = Ingest.fresh s)); [reflexivity|].
  intros st [a b] _ H. unfold Ingest.merge_edge. destruct existsb; exact H.
Qed.

Lemma resolve_row_progress t s row : Ingest.progress s (Ingest.resolve_row t s row).
Proof.
  destruct row as [src tgt]. unfold Ingest.resolve_row.
  destruct (Ingest.match_row s (Ingest.RelRow src tgt None None)) as [|[a b] l] eqn:Hm; [apply progress_refl|].
  match goal with |- context [List.filter ?h (Ingest.pendings s)] => set (hit := h) end.
  destruct (List.filter hit (Ingest.pendings s)) as [|q qs] eqn:Hf; [apply progress_refl|].
  rewrite <- Hm.
  destruct (row_merge_props t s (Ingest.match_row s (Ingest.RelRow src tgt None None)))
    as [Hn [Hp [Hi [Hnew Hall]]]].
  set (s1 := fold_left _ _ s) in *.
  unfold Ingest.set_pendings; cbn [Ingest.nodes Ingest.edges Ingest.pendings].
  split; [exact Hn|]. split; [apply fold_merge_fresh|]. split; [exact Hi|]. split.
  { intros x Hx. apply filter_In in Hx as [Hx _]. exact Hx. }
  split.
  - intros p Hp'. destruct (hit p) eqn:Hh.
    + right. rewrite Hm in Hall. specialize (Hall a b (or_introl eq_refl)).
      destruct (match_row_In s (Ingest.RelRow src tgt None None) a b) as [Ha [Hb [Hga Hcb]]];
        [rewrite Hm; left; reflexivity|].
      subst hit. cbv beta in Hh.
      apply andb_prop in Hh as [Hh Ht]. apply andb_prop in Hh as [Hs Htg].
      apply String.eqb_eq in Hs, Htg, Ht.
      exists a, b; cbn [Ingest.nodes Ingest.edges]; rewrite Hn.
      repeat split; auto; simpl in *; try congruence; rewrite Ht; exact Hall.

    + left. apply filter_In; split; [exact Hp'|]. subst hit; cbv beta in Hh; rewrite Hh; reflexivity.
  - intros e He. destruct (Hnew e He) as [H|[a' [b' [Hab ->]]]]; [left; exact H|].
    right. destruct (match_row_In s _ a' b' Hab) as [Ha [Hb _]]. exists a', b'; auto.
Qed.

Lemma resolve_round_progress s batch :
  Ingest.progress s
    (fold_left (fun s '(t, group) =>
       fold_left (Ingest.resolve_row t) (map (fun p => (Ingest.p_source_gid p, Ingest.p_target_cid p)) group) s)
       (Ingest.group_by String.eqb Ingest.p_type batch) s).
Proof.
  apply (fold_left_preserve _ (Ingest.progress s)); [apply progress_refl|].
  intros st [t g] _ H. cbv beta iota.
  apply (fold_left_preserve _ (Ingest.progress s)); [exact H|].
  intros st' row _ H'. eapply progress_trans; [exact H' | apply resolve_row_progress].
Qed.

Lemma resolve_progress fuel s s' :
  Ingest.resolve_pending_relationships fuel s = Some s' -> Ingest.progress s s'.
Proof.
  revert s; induction fuel as [|fuel IH]; intros s H; [discriminate|].
  cbn [Ingest.resolve_pending_relationships] in H.
  destruct (firstn Ingest.RELATIONSHIP_BATCH_SIZE (Ingest.pendings s)) as [|p ps] eqn:Hb.
  - injection H as <-; apply progress_refl.
  - rewrite <- Hb in H.
    destruct (Nat.ltb _ _).
    + injection H as <-. apply resolve_round_progress.
    + eapply progress_trans; [apply resolve_round_progress | apply IH; exact H].
Qed.

(** When [resolve_pending_relationships] returns, the nodes are unchanged, edges were only added, pendings only removed, and each removed pending has its edge in the store, from a node with its source gid to a node with its target canonical id. *)
Theorem resolve_pending_sound (fuel : nat) (s s' : Ingest.store) :
  Ingest.resolve_pending_relationships fuel s = Some s' ->
  Ingest.nodes s' = Ingest.nodes s /\
  incl (Ingest.edges s) (Ingest.edges s') /\
  incl (Ingest.pendings s') (Ingest.pendings s) /\
  (forall p, In p (Ingest.pendings s) -> In p (Ingest.pendings s') \/ Ingest.resolved_in s' p).
Proof.
  intros H. destruct (resolve_progress fuel s s' H) as [Hn [_ [He [Hp [Hr _]]]]]. auto.
Qed.

Lemma resolve_row_stuck t s row :
  (forall a b, In a (Ingest.nodes s) -> In b (Ingest.nodes s) ->
     Ingest.n_gid a = fst row -> Ingest.n_canonical_id b = snd row -> False) ->
  Ingest.resolve_row t s row = s.
Proof.
  destruct row as [src tgt]; intros Hno. unfold Ingest.resolve_row.
  destruct (Ingest.match_row s (Ingest.RelRow src tgt None None)) as [|[a b] l] eqn:Hm; [reflexivity|].
  exfalso. destruct (match_row_In s (Ingest.RelRow src tgt None None) a b) as [Ha [Hb [Hga Hcb]]];
    [rewrite Hm; left; reflexivity|].
  exact (Hno a b Ha Hb Hga Hcb).
Qed.

(** When the store holds at least a full batch of pendings and none of the first batch has a source node and a target node, [resolve_pending_relationships] fetches that same batch forever and never returns. *)
Theorem resolve_pending_stalls (s : Ingest.store) :
  (Ingest.RELATIONSHIP_BATCH_SIZE <= length (Ingest.pendings s))%nat ->
  (forall p, In p (firstn Ingest.RELATIONSHIP_BATCH_SIZE (Ingest.pendings s)) ->
     forall a b, In a (Ingest.nodes s) -> In b (Ingest.nodes s) ->
       Ingest.n_gid a = Ingest.p_source_gid p -> Ingest.n_canonical_id b = Ingest.p_target_cid p -> False) ->
  forall fuel, Ingest.resolve_pending_relationships fuel s = None.
Proof.
  intros Hlen Hno fuel. induction fuel as [|fuel IH]; [reflexivity|].
  cbn [Ingest.resolve_pending_relationships].
  set (batch := firstn Ingest.RELATIONSHIP_BATCH_SIZE (Ingest.pendings s)).
  assert (Hbl : length batch = Ingest.RELATIONSHIP_BATCH_SIZE).
  { subst batch; rewrite length_firstn; lia. }
  assert (Hround : fold_left (fun s '(t, group) =>
       fold_left (Ingest.resolve_row t) (map (fun p => (Ingest.p_source_gid p, Ingest.p_target_cid p)) group) s)
       (Ingest.group_by String.eqb Ingest.p_type batch) s = s).
  { apply (fold_left_preserve _ (fun st => st = s)); [reflexivity|].
    intros st [t g] Htg ->. cbv beta iota.
    apply (fold_left_preserve _ (fun st => st = s)); [reflexivity|].
    intros st row Hrow ->. apply in_map_iff in Hrow as [p [<- Hp]].
    apply resolve_row_stuck. intros a b Ha Hb Hga Hcb.
    destruct (group_by_In String.eqb Ingest.p_type String.eqb_eq batch t g p Htg Hp) as [_ Hpb].
    exact (Hno p Hpb a b Ha Hb Hga Hcb). }
  clearbody batch. destruct batch as [|p ps].
  - cbn in Hbl. discriminate.
  - rewrite Hround, Hbl. rewrite Nat.ltb_irrefl. exact IH.
Qed.

Lemma resolve_pending_stalls_witness :
  Ingest.resolve_pending_relationships 1000 Ingest.stalled_store = None.
Proof.
  apply resolve_pending_stalls.
  - vm_compute. lia.
  - intros p _ a b [].
Defined.

(* ---------- store invariant ---------- *)
Lemma nodup_snoc {A} (l : list A) (x : A) : List.NoDup l -> ~ In x l -> List.NoDup (l ++ [x]).
Proof.
  induction l as [|y l IH]; intros Hd Hx; cbn.
  - constructor; [intros H; destruct H | constructor].
  - inversion Hd as [|? ? Hy Hl]; subst. constructor.
    + intros Hin. apply in_app_or in Hin as [H|[H|[]]]; [contradiction|subst; apply Hx; left; reflexivity].
    + apply IH; [exact Hl|intros H; apply Hx; right; exact H].
Qed.

Lemma merge_node_shape labels s r :
  let s' := Ingest.merge_node labels s r in
  Ingest.edges s' = Ingest.edges s /\ Ingest.pendings s' = Ingest.pendings s /\
  ((map Ingest.nid (Ingest.nodes s') = map Ingest.nid (Ingest.nodes s) /\ Ingest.fresh s' = Ingest.fresh s) \/
   (map Ingest.nid (Ingest.nodes s') = map Ingest.nid (Ingest.nodes s) ++ [Ingest.fresh s] /\
    Ingest.fresh s' = S (Ingest.fresh s))).
Proof.
  unfold Ingest.merge_node. destruct existsb; cbn; (split; [reflexivity|split; [reflexivity|]]).
  - left; split; [|reflexivity]. rewrite map_map. apply map_ext. intros n; destruct Ingest.merge_hit; reflexivity.
  - right; split; [apply map_app|reflexivity].
Qed.

Lemma store_ok_merge_node labels s r :
  Ingest.store_ok s -> Ingest.store_ok (Ingest.merge_node labels s r).
Proof.
  intros [Hd [Hlt He]]. destruct (merge_node_shape labels s r) as [Hes [_ [[Hm Hf]|[Hm Hf]]]];
    unfold Ingest.store_ok; rewrite Hes, Hm, Hf.
  - auto.
  - split; [|split].
    + apply nodup_snoc; [exact Hd|]. intros Hin. rewrite List.Forall_forall in Hlt. specialize (Hlt _ Hin). lia.
    + apply List.Forall_app; split; [|constructor; [lia|constructor]].
      eapply List.Forall_impl; [|exact Hlt]. cbv beta; intros; lia.
    + intros e Hin. destruct (He e Hin) as [H1 H2]. split; apply in_or_app; left; assumption.
Qed.

Lemma store_ok_ingest_nodes s rows :
  Ingest.store_ok s -> Ingest.store_ok (Ingest.ingest_nodes s rows).
Proof.
  intros H. unfold Ingest.ingest_nodes. destruct rows; [exact H|].
  apply (fold_left_preserve _ Ingest.store_ok); [exact H|].
  intros st [l g] _ Hst. cbv beta iota. destruct existsb; [exact Hst|].
  apply (fold_left_preserve _ Ingest.store_ok); [exact Hst|].
  intros st' r _ Hst'. apply store_ok_merge_node; exact Hst'.
Qed.

Lemma ingest_rel_group_fresh s t g : Ingest.fresh (Ingest.ingest_rel_group s t g) = Ingest.fresh s.
Proof.
  unfold Ingest.ingest_rel_group. destruct Ingest.group_fails; [reflexivity|]. cbn.
  apply (fold_left_preserve _ (fun st => Ingest.fresh st = Ingest.fresh s)); [reflexivity|].
  intros st r _ H. rewrite fold_merge_fresh; exact H.
Qed.

Lemma store_ok_ingest_relationships s rows :
  Ingest.store_ok s -> Ingest.store_ok (Ingest.ingest_relationships s rows).
Proof.
  intros H. unfold Ingest.ingest_relationships. destruct rows; [exact H|].
  apply (fold_left_preserve _ Ingest.store_ok); [exact H|].
  intros st [t g] _ [Hd [Hlt He]]. cbv beta iota.
  destruct (ingest_rel_group_props st t g) as [Hn [_ [_ [Hnew _]]]].
  unfold Ingest.store_ok. rewrite Hn, ingest_rel_group_fresh. split; [exact Hd|]. split; [exact Hlt|].
  intros e Hin. destruct (Hnew e Hin) as [H'|[r0 [a [b [_ [Hab ->]]]]]]; [apply He; exact H'|].
  destruct (match_row_In st r0 a b Hab) as [Ha [Hb _]]. cbn. split; apply in_map; assumption.
Qed.

Lemma delete_node_id s g : Ingest.delete_node s g = s.
Proof. unfold Ingest.delete_node. destruct List.filter; reflexivity. Qed.

Lemma delete_nodes_id s gids : Ingest.delete_nodes s gids = s.
Proof.
  unfold Ingest.delete_nodes. revert s; induction gids as [|g gs IH]; intros s; [reflexivity|].
  cbn [fold_left]. rewrite delete_node_id; apply IH.
Qed.

Lemma type_ok_spec r t :
  (match Ingest.rr_type r with
   | Some t' => if String.eqb t' "" then true else String.eqb t t'
   | None => true end) = true <-> Ingest.type_matches r t.
Proof.
  unfold Ingest.type_matches. destruct (Ingest.rr_type r) as [t'|]; [|tauto].
  destruct (String.eqb_spec t' ""); [tauto|]. rewrite String.eqb_eq. tauto.
Qed.

Lemma node_is_spec (ns : list Ingest.gnode) i (P : Ingest.gnode -> bool) :
  existsb (fun n => Nat.eqb (Ingest.nid n) i && P n) ns = true <->
  exists n, In n ns /\ Ingest.nid n = i /\ P n = true.
Proof.
  rewrite existsb_exists. split.
  - intros [n [Hn H]]. apply andb_prop in H as [H1 H2]. apply Nat.eqb_eq in H1. eauto.
  - intros [n [Hn [H1 H2]]]. exists n; split; auto. rewrite H1, Nat.eqb_refl; exact H2.
Qed.

Lemma delete_relationship_spec s r :
  let s' := Ingest.delete_relationship s r in
  Ingest.nodes s' = Ingest.nodes s /\ Ingest.fresh s' = Ingest.fresh s /\
  (forall e, In e (Ingest.edges s') <-> In e (Ingest.edges s) /\ ~ Ingest.edge_matches s r e) /\
  Ingest.pendings s' = Ingest.pendings s.
Proof.
  cbn. split; [reflexivity|]. split; [reflexivity|]. split; [|reflexivity].
  - intros e. rewrite filter_In, negb_true_iff. apply and_iff_compat_l.
    unfold Ingest.edge_matches. split.
    + intros H [[a [Ha [Hia Hga]]] [[b [Hb [Hib Hcb]]] Ht]].
      rewrite andb_false_iff, andb_false_iff in H.
      destruct H as [[H|H]|H].
      * rewrite <- Bool.not_true_iff_false in H. apply H, node_is_spec.
        exists a; split; [exact Ha|]; split; [exact Hia|]; apply String.eqb_eq; exact Hga.
      * rewrite <- Bool.not_true_iff_false in H. apply H, node_is_spec.
        exists b; split; [exact Hb|]; split; [exact Hib|]; apply String.eqb_eq; exact Hcb.
      * rewrite <- Bool.not_true_iff_false in H. apply H, type_ok_spec; exact Ht.
    + intros Hn. apply not_true_is_false. intros H. apply Hn.
      apply andb_prop in H as [H Ht]; apply andb_prop in H as [Hs Hg].
      apply node_is_spec in Hs as [a [Ha [Hia Hga]]]. apply node_is_spec in Hg as [b [Hb [Hib Hcb]]].
      apply String.eqb_eq in Hga, Hcb. apply type_ok_spec in Ht. split; [|split]; eauto.
Qed.


Lemma store_ok_delete_relationship s r : Ingest.store_ok s -> Ingest.store_ok (Ingest.delete_relationship s r).
Proof.
  intros [Hd [Hlt He]]. destruct (delete_relationship_spec s r) as [Hn [Hf [Hed _]]].
  unfold Ingest.store_ok. rewrite Hn, Hf. split; [exact Hd|]. split; [exact Hlt|].
  intros e Hin. apply Hed in Hin as [Hin _]. apply He; exact Hin.
Qed.

Lemma store_ok_progress s s' : Ingest.store_ok s -> Ingest.progress s s' -> Ingest.store_ok s'.
Proof.
  intros [Hd [Hlt He]] [Hn [Hf [_ [_ [_ Hnew]]]]]. unfold Ingest.store_ok. rewrite Hn, Hf.
  split; [exact Hd|]. split; [exact Hlt|].
  intros e Hin. destruct (Hnew e Hin) as [H|[a [b [Ha [Hb [-> ->]]]]]]; [apply He; exact H|].
  split; apply in_map; assumption.
Qed.

(** Processing a message keeps the store well formed: node ids distinct and below the id counter, every edge between stored nodes. *)
Theorem process_message_store_ok (fuel : nat) (s s' : Ingest.store) (pl : Ingest.result_payload) :
  Ingest.store_ok s -> Ingest.process_message fuel s pl = Some s' -> Ingest.store_ok s'.
Proof.
  intros Hok H. unfold Ingest.process_message in H.
  eapply store_ok_progress; [|exact (resolve_progress _ _ _ H)].
  rewrite delete_nodes_id. unfold Ingest.delete_relationships.
  apply (fold_left_preserve _ Ingest.store_ok); [|intros st r _ Hst; apply store_ok_delete_relationship; exact Hst].
  apply store_ok_ingest_relationships, store_ok_ingest_nodes; exact Hok.
Qed.

Lemma process_message_store_ok_witness :
  Ingest.store_ok (match Ingest.process_message 10 Ingest.empty_store Ingest.nested_payload with
                    | Some s => s | None => Ingest.empty_store end).
Proof.
  apply (process_message_store_ok 10 Ingest.empty_store _ Ingest.nested_payload).
  - split; [constructor|]. split; [constructor|]. intros e [].
  - vm_compute. reflexivity.
Defined.

Lemma fold_left_map_comm {A B C} (f : A -> B -> A) (h : C -> B) l a :
  fold_left f (map h l) a = fold_left (fun a c => f a (h c)) l a.
Proof. revert a; induction l; intros; cbn; auto. Qed.

Lemma ingest_nodes_flat s rows :
  Ingest.ingest_nodes s rows = fold_left Ingest.mstep (Ingest.merge_sequence rows) s.
Proof.
  unfold Ingest.ingest_nodes, Ingest.merge_sequence. destruct rows as [|r0 rows0]; [reflexivity|].
  generalize (Ingest.group_by Ingest.labels_eqb Ingest.r_labels (r0 :: rows0)) as G.
  intros G; revert s; induction G as [|[l g] G IH]; intros s; cbn; [reflexivity|].
  rewrite fold_left_app. destruct existsb; [apply IH|]. rewrite fold_left_map_comm. apply IH.
Qed.

Lemma merge_hit_congr l r a b :
  Ingest.n_gid a = Ingest.n_gid b -> Ingest.n_labels a = Ingest.n_labels b ->
  Ingest.merge_hit l r a = Ingest.merge_hit l r b.
Proof. unfold Ingest.merge_hit; intros -> ->; reflexivity. Qed.

Lemma gstep_keys x n :
  Ingest.n_gid (Ingest.gstep x n) = Ingest.n_gid n /\ Ingest.n_labels (Ingest.gstep x n) = Ingest.n_labels n.
Proof.
  unfold Ingest.gstep. destruct (Ingest.merge_hit (fst x) (snd x) n) eqn:H; [|auto].
  unfold Ingest.merge_hit in H. apply andb_prop in H as [H _]. apply String.eqb_eq in H.
  cbn. auto.
Qed.

Lemma gstep_hit x y n : Ingest.merge_hit (fst y) (snd y) (Ingest.gstep x n) = Ingest.merge_hit (fst y) (snd y) n.
Proof. destruct (gstep_keys x n); apply merge_hit_congr; auto. Qed.

Lemma merge_node_hit l s r :
  existsb (Ingest.merge_hit l r) (Ingest.nodes s) = true ->
  Ingest.merge_node l s r = Ingest.set_nodes s (map (Ingest.gstep (l, r)) (Ingest.nodes s)).
Proof. intros H. unfold Ingest.merge_node. rewrite H. reflexivity. Qed.

Lemma existsb_map_gstep x y ns :
  existsb (Ingest.merge_hit (fst y) (snd y)) (map (Ingest.gstep x) ns) = existsb (Ingest.merge_hit (fst y) (snd y)) ns.
Proof. induction ns as [|n ns IH]; cbn; [reflexivity|]. rewrite gstep_hit, IH; reflexivity. Qed.

Lemma fold_covered xs s :
  (forall y, In y xs -> existsb (Ingest.merge_hit (fst y) (snd y)) (Ingest.nodes s) = true) ->
  fold_left Ingest.mstep xs s = Ingest.set_nodes s (map (Ingest.gall xs) (Ingest.nodes s)).
Proof.
  revert s; induction xs as [|x xs IH]; intros s Hc; cbn.
  - destruct s as [ns es ps f]; unfold Ingest.set_nodes; cbn. f_equal. clear Hc. induction ns as [|a ns IH]; [reflexivity|cbn; rewrite <- IH; reflexivity].
  - unfold Ingest.mstep at 2. rewrite (merge_node_hit (fst x) s (snd x)) by (apply Hc; left; reflexivity).
    rewrite IH.
    + unfold Ingest.set_nodes; cbn. rewrite map_map. reflexivity.
    + intros y Hy. cbn. destruct x as [l r]. rewrite existsb_map_gstep. apply Hc; right; exact Hy.
Qed.

Lemma upd_upd r r' n : Ingest.upd_node r (Ingest.upd_node r' n) = Ingest.upd_node r n.
Proof. reflexivity. Qed.

Lemma last_hit_snoc xs x n :
  Ingest.last_hit (xs ++ [x]) n =
  if Ingest.merge_hit (fst x) (snd x) n then Some x else Ingest.last_hit xs n.
Proof.
  unfold Ingest.last_hit. rewrite rev_app_distr. destruct x as [l r]; cbn. reflexivity.
Qed.

Lemma gall_hit xs y n :
  Ingest.merge_hit (fst y) (snd y) (Ingest.gall xs n) = Ingest.merge_hit (fst y) (snd y) n.
Proof.
  unfold Ingest.gall; revert n; induction xs as [|x xs IH]; intros n; [reflexivity|].
  cbn. rewrite IH. apply gstep_hit.
Qed.

Lemma gall_last xs n :
  Ingest.gall xs n = match Ingest.last_hit xs n with Some (_, r) => Ingest.upd_node r n | None => n end.
Proof.
  induction xs as [|x xs IH] using rev_ind; [reflexivity|].
  unfold Ingest.gall; rewrite fold_left_app; fold (Ingest.gall xs n); cbn.
  rewrite last_hit_snoc. unfold Ingest.gstep at 1.
  assert (Hk : Ingest.merge_hit (fst x) (snd x) (Ingest.gall xs n) = Ingest.merge_hit (fst x) (snd x) n).
  { apply gall_hit. }
  rewrite Hk. destruct (Ingest.merge_hit (fst x) (snd x) n); [|exact IH].
  rewrite IH. destruct x as [l0 r0]. destruct (Ingest.last_hit xs n) as [[l r]|]; reflexivity.
Qed.

Lemma merge_hit_new l r f :
  Ingest.merge_hit l r (Ingest.GNode f (Ingest.r_gid r) (Ingest.r_canonical_id r) (Ingest.r_file_path r) l) = true.
Proof.
  unfold Ingest.merge_hit; cbn. rewrite String.eqb_refl; cbn.
  apply forallb_forall. intros x Hx. apply existsb_exists. exists x; split; [exact Hx | apply String.eqb_refl].
Qed.

Lemma first_pass xs s :
  let t := fold_left Ingest.mstep xs s in
  (forall y, In y xs -> existsb (Ingest.merge_hit (fst y) (snd y)) (Ingest.nodes t) = true) /\
  (forall n, In n (Ingest.nodes t) ->
     match Ingest.last_hit xs n with Some (_, r) => Ingest.upd_node r n = n | None => True end).
Proof.
  induction xs as [|x xs [Hc Hf]] using rev_ind; cbn zeta in *.
  - split; [intros y []|]. intros n _; exact I.
  - rewrite fold_left_app; cbn [fold_left].
    set (t := fold_left Ingest.mstep xs s) in *. destruct x as [l r].
    unfold Ingest.mstep at 1 2; cbn [fst snd].
    destruct (existsb (Ingest.merge_hit l r) (Ingest.nodes t)) eqn:Hx.
    + rewrite (merge_node_hit l t r Hx); cbn [Ingest.set_nodes Ingest.nodes]. split.
      * intros y Hy. rewrite existsb_map_gstep. apply in_app_or in Hy as [Hy|[<-|[]]]; [apply Hc; exact Hy | exact Hx].
      * intros n' Hn'. apply in_map_iff in Hn' as [n [<- Hn]].
        rewrite last_hit_snoc. cbn [fst snd].
        pose proof (gstep_hit (l, r) (l, r) n) as Hg; cbn [fst snd] in Hg. rewrite Hg. unfold Ingest.gstep; cbn [fst snd].
        destruct (Ingest.merge_hit l r n) eqn:Hh; [reflexivity|].
        apply Hf; exact Hn.
    + unfold Ingest.merge_node. rewrite Hx. cbn [Ingest.nodes]. split.
      * intros y Hy. rewrite existsb_app. apply orb_true_iff.
        apply in_app_or in Hy as [Hy|[<-|[]]]; [left; apply Hc; exact Hy|].
        right; cbn. rewrite merge_hit_new; reflexivity.
      * intros n Hn. rewrite last_hit_snoc; cbn [fst snd].
        apply in_app_or in Hn as [Hn|[<-|[]]].
        -- assert (Hh : Ingest.merge_hit l r n = false).
           { destruct (Ingest.merge_hit l r n) eqn:Hh; [|reflexivity].
             rewrite <- Hx. symmetry. apply existsb_exists. exists n; auto. }
           rewrite Hh. apply Hf; exact Hn.
        -- rewrite merge_hit_new. reflexivity.
Qed.

(** Ingesting the same node rows a second time leaves the store unchanged. *)
Theorem ingest_nodes_idempotent (s : Ingest.store) (rows : list Ingest.node_row) :
  Ingest.ingest_nodes (Ingest.ingest_nodes s rows) rows = Ingest.ingest_nodes s rows.
Proof.
  rewrite !ingest_nodes_flat.
  destruct (first_pass (Ingest.merge_sequence rows) s) as [Hc Hf].
  set (t := fold_left Ingest.mstep (Ingest.merge_sequence rows) s) in *.
  rewrite (fold_covered _ t Hc).
  assert (Hm : map (Ingest.gall (Ingest.merge_sequence rows)) (Ingest.nodes t) = Ingest.nodes t).
  { transitivity (map (fun n => n) (Ingest.nodes t)); [|apply map_id].
    apply map_ext_in. intros n Hn. rewrite gall_last. specialize (Hf n Hn).
    destruct (Ingest.last_hit _ n) as [[l r]|]; [exact Hf|reflexivity]. }
  rewrite Hm. clearbody t. destruct t; reflexivity.
Qed.








Lemma resolve_pending_sound_witness :
  Ingest.resolve_pending_relationships 10 Ingest.late_target_store = Some Ingest.late_resolved /\
  Ingest.nodes Ingest.late_resolved = Ingest.nodes Ingest.late_target_store /\
  incl (Ingest.edges Ingest.late_target_store) (Ingest.edges Ingest.late_resolved) /\
  incl (Ingest.pendings Ingest.late_resolved) (Ingest.pendings Ingest.late_target_store) /\
  (forall p, In p (Ingest.pendings Ingest.late_target_store) ->
     In p (Ingest.pendings Ingest.late_resolved) \/ Ingest.resolved_in Ingest.late_resolved p).
Proof.
  split; [vm_compute; reflexivity|].
  apply (resolve_pending_sound 10 Ingest.late_target_store Ingest.late_resolved).
  vm_compute; reflexivity.
Defined.





Lemma process_event_table_at root pats ts1 ts2 e et now q :
  ts1 !! q = ts2 !! q ->
  (snd (Watcher.process_event root pats ts1 e et now)) !! q =
  (snd (Watcher.process_event root pats ts2 e et now)) !! q.
Proof.
  intros Hq. unfold Watcher.process_event. cbv zeta.
  repeat match goal with |- context [if ?b then _ else _] =>
    lazymatch b with context [Watcher.should_process_now] => fail | _ => destruct b end end;
    try exact Hq.
  set (k := Watcher.resolve (Watcher.src_path e)).
  assert (Hsnd : forall ts, (snd (Watcher.should_process_now ts k et now)) !! q =
    match et with
    | Watcher.DELETED => (delete k ts) !! q
    | _ => (<[k := now]> ts) !! q
    end).
  { intros ts. unfold Watcher.should_process_now. destruct et; [destruct (ts !! k)..|]; reflexivity. }
  assert (Hsame : match et with
    | Watcher.DELETED => (delete k ts1) !! q
    | _ => (<[k := now]> ts1) !! q end =
    match et with
    | Watcher.DELETED => (delete k ts2) !! q
    | _ => (<[k := now]> ts2) !! q end).
  { destruct (String.eq_dec k q) as [->|Hne]; destruct et;
    first [rewrite !lookup_insert_eq | rewrite !lookup_delete_eq
          | rewrite !lookup_insert_ne by exact Hne | rewrite !lookup_delete_ne by exact Hne];
    first [reflexivity | exact Hq]. }
  rewrite <- Hsnd, <- Hsnd in Hsame.
  destruct (Watcher.should_process_now ts1 k et now) as [[|] u1],
           (Watcher.should_process_now ts2 k et now) as [[|] u2]; exact Hsame.
Qed.

Lemma process_event_table_other root pats ts e et now q :
  Watcher.resolve (Watcher.src_path e) <> q ->
  (snd (Watcher.process_event root pats ts e et now)) !! q = ts !! q.
Proof.
  intros Hne. unfold Watcher.process_event. cbv zeta.
  repeat match goal with |- context [if ?b then _ else _] =>
    lazymatch b with context [Watcher.should_process_now] => fail | _ => destruct b end end;
    try reflexivity.
  unfold Watcher.should_process_now.
  destruct et; [destruct (ts !! _)..|]; cbn; try (destruct (_ <=? _)%Z); cbn;
    first [rewrite lookup_insert_ne by exact Hne | rewrite lookup_delete_ne by exact Hne]; reflexivity.
Qed.

Lemma dispatch_table_at root pats ts1 ts2 e q :
  ts1 !! q = ts2 !! q ->
  (snd (Watcher.dispatch root pats ts1 e)) !! q = (snd (Watcher.dispatch root pats ts2 e)) !! q.
Proof.
  intros Hq. unfold Watcher.dispatch. destruct (Watcher.kind_type (Watcher.kind e)) as [et|]; [|exact Hq].
  pose proof (process_event_table_at root pats ts1 ts2 e et (Watcher.t_any e) q Hq) as H1.
  destruct (Watcher.process_event root pats ts1 e et (Watcher.t_any e)) as [o1 u1],
           (Watcher.process_event root pats ts2 e et (Watcher.t_any e)) as [o2 u2]. cbn in H1.
  pose proof (process_event_table_at root pats u1 u2 e et (Watcher.t_own e) q H1) as H2.
  destruct (Watcher.process_event root pats u1 e et (Watcher.t_own e)) as [o3 v1],
           (Watcher.process_event root pats u2 e et (Watcher.t_own e)) as [o4 v2]. exact H2.
Qed.

Lemma dispatch_table_other root pats ts e q :
  Watcher.resolve (Watcher.src_path e) <> q ->
  (snd (Watcher.dispatch root pats ts e)) !! q = ts !! q.
Proof.
  intros Hne. unfold Watcher.dispatch. destruct (Watcher.kind_type (Watcher.kind e)) as [et|]; [|reflexivity].
  pose proof (process_event_table_other root pats ts e et (Watcher.t_any e) q Hne) as H1.
  destruct (Watcher.process_event root pats ts e et (Watcher.t_any e)) as [o1 u1]. cbn in H1.
  pose proof (process_event_table_other root pats u1 e et (Watcher.t_own e) q Hne) as H2.
  destruct (Watcher.process_event root pats u1 e et (Watcher.t_own e)) as [o2 u2]. cbn in H2 |- *.
  congruence.
Qed.

(** The entry of a resolved path in the watcher's timestamp table after a run depends only on its entry before the run and on the events whose resolved path is that path. *)
Theorem run_per_path (root : string) (pats : list string) (ts1 ts2 : Watcher.timestamps)
    (evs : list Watcher.fs_event) (q : string) :
  ts1 !! q = ts2 !! q ->
  (snd (Watcher.run root pats ts1 evs)) !! q =
  (snd (Watcher.run root pats ts2
          (List.filter (fun e => String.eqb (Watcher.resolve (Watcher.src_path e)) q) evs))) !! q.
Proof.
  revert ts1 ts2; induction evs as [|e evs IH]; intros ts1 ts2 Hq; [exact Hq|].
  cbn [Watcher.run List.filter].
  destruct (String.eqb_spec (Watcher.resolve (Watcher.src_path e)) q) as [Heq|Hne].
  - cbn [Watcher.run].
    pose proof (dispatch_table_at root pats ts1 ts2 e q Hq) as Hd.
    destruct (Watcher.dispatch root pats ts1 e) as [o1 u1], (Watcher.dispatch root pats ts2 e) as [o2 u2].
    cbn in Hd. specialize (IH u1 u2 Hd).
    destruct (Watcher.run root pats u1 evs) as [r1 v1], (Watcher.run root pats u2 _) as [r2 v2].
    exact IH.
  - pose proof (dispatch_table_other root pats ts1 e q Hne) as Hd.
    destruct (Watcher.dispatch root pats ts1 e) as [o1 u1]. cbn in Hd.
    specialize (IH u1 ts2 ltac:(congruence)).
    destruct (Watcher.run root pats u1 evs) as [r1 v1]. exact IH.
Qed.

Lemma run_per_path_witness :
  (snd (Watcher.run Watcher.CODEBASE_ROOT [] (<["/codebase/a.py" := 0%Z]> ∅)
      [Watcher.FsEvent "/codebase/b.py" false Watcher.EvModified 100 101;
       Watcher.FsEvent "/codebase/a.py" false Watcher.EvModified 900 901])) !! "/codebase/a.py" =
  (snd (Watcher.run Watcher.CODEBASE_ROOT [] (<["/codebase/a.py" := 0%Z]> (<["/codebase/b.py" := 50%Z]> ∅))
      (List.filter (fun e => String.eqb (Watcher.resolve (Watcher.src_path e)) "/codebase/a.py")
        [Watcher.FsEvent "/codebase/b.py" false Watcher.EvModified 100 101;
         Watcher.FsEvent "/codebase/a.py" false Watcher.EvModified 900 901]))) !! "/codebase/a.py".
Proof.
  apply run_per_path. vm_compute. reflexivity.
Defined.



Lemma dedup_In x l : In x l -> In x (Analyzer.dedup l).
Proof.
  induction l as [|y l IH]; cbn; [tauto|]. intros [->|H].
  - destruct (Analyzer.mem x l) eqn:Hm; [apply IH, mem_In; exact Hm | left; reflexivity].
  - destruct (Analyzer.mem y l); [apply IH; exact H | right; apply IH; exact H].
Qed.

Lemma mem_false x l : ~ In x l -> Analyzer.mem x l = false.
Proof.
  intros H. apply not_true_is_false. intros Hm. apply H, mem_In; exact Hm.
Qed.

(** A Python file whose analysis has a relationship with a nonempty target canonical id that none of its nodes has is nacked for requeue and nothing is published. *)
Theorem missing_target_requeued (m : Analyzer.job_message) (fp : string)
    (ns : list Analyzer.node_dict) (rs : list Analyzer.rel_dict) (cids : list string)
    (r : Analyzer.rel_dict) (pg_ok : bool) :
  Analyzer.nonempty (Analyzer.m_id m) = true ->
  Analyzer.m_file_path m = Some fp -> Watcher.ends_with ".py" fp = true ->
  Analyzer.m_event_type m <> Some "DELETED"%string ->
  ns <> [] -> Analyzer.all_some (map Analyzer.nd_canonical_id ns) = Some cids ->
  In r rs -> Analyzer.rd_target_canonical_id r <> ""%string -> ~ In (Analyzer.rd_target_canonical_id r) cids ->
  Analyzer.process_message m (Analyzer.Visited ns rs) pg_ok = (Analyzer.Nacked_requeue, None).
Proof.
  intros Hid Hfp Hpy Hdel Hns Hc Hr Hne Hmiss.
  unfold Analyzer.process_message. rewrite Hid, Hfp, Hpy. cbn [negb].
  replace (match Analyzer.m_event_type m with Some et => String.eqb et "DELETED" | None => false end) with false
    by (destruct (Analyzer.m_event_type m) as [et|]; [|reflexivity];
        symmetry; apply String.eqb_neq; intros ->; apply Hdel; reflexivity).
  cbn [Analyzer.analyze_python_file].
  destruct ns as [|n0 ns']; [contradiction|]. rewrite Hc.
  match goal with |- context [List.filter ?f (map Analyzer.external_node ?mt)] =>
    assert (Hin : In (Analyzer.external_node (Analyzer.rd_target_canonical_id r)) (List.filter f (map Analyzer.external_node mt)));
    [|pose proof (external_insert_fails pg_ok _ ltac:(intros Hnil; rewrite Hnil in Hin; exact Hin)
                     (external_nodes_pathless mt)) as Hfail;
      destruct (List.filter f (map Analyzer.external_node mt)) as [|e es]; [contradiction|];
      rewrite Hfail; reflexivity] end.
  apply filter_In. split.
  - apply in_map. apply dedup_In. apply filter_In. split; [apply in_map; exact Hr|].
    rewrite mem_false by exact Hmiss. reflexivity.
  - unfold Analyzer.external_node, Analyzer.keep_nonempty. cbn.
    destruct (String.eqb_spec (Analyzer.rd_target_canonical_id r) ""); [contradiction|]. reflexivity.
Qed.

Lemma missing_target_requeued_witness :
  Analyzer.process_message Analyzer.sample_job Analyzer.print_analysis true = (Analyzer.Nacked_requeue, None).
Proof.
  apply (missing_target_requeued Analyzer.sample_job "app.py" Analyzer.sample_nodes
           [Analyzer.RelDict (Some "/app.py#f()") "/app.py#g()" ":CALLS";
            Analyzer.RelDict (Some "/app.py#f()") "print" ":CALLS"]
           ["/app.py"; "/app.py#f()"; "/app.py#g()"]%string
           (Analyzer.RelDict (Some "/app.py#f()") "print" ":CALLS") true).
  - vm_compute; reflexivity.
  - vm_compute; reflexivity.
  - vm_compute; reflexivity.
  - discriminate.
  - discriminate.
  - vm_compute; reflexivity.
  - right; left; reflexivity.
  - discriminate.
  - cbn; intuition discriminate.
Defined.

Lemma external_nodes_hit (cids : list string) (rs : list Analyzer.rel_dict) (r : Analyzer.rel_dict) :
  In r rs -> Analyzer.rd_target_canonical_id r <> ""%string -> ~ In (Analyzer.rd_target_canonical_id r) cids ->
  In (Analyzer.external_node (Analyzer.rd_target_canonical_id r))
    (List.filter (fun n => Analyzer.is_some (Analyzer.nd_type n) && Analyzer.is_some (Analyzer.nd_canonical_id n)
                           && Analyzer.is_some (Analyzer.nd_external n))
       (map Analyzer.external_node
          (Analyzer.dedup (List.filter (fun t => negb (Analyzer.mem t cids)) (map Analyzer.rd_target_canonical_id rs))))).
Proof.
  intros Hr Hne Hmiss. apply filter_In. split.
  - apply in_map. apply dedup_In. apply filter_In. split; [apply in_map; exact Hr|].
    rewrite mem_false by exact Hmiss. reflexivity.
  - unfold Analyzer.external_node, Analyzer.keep_nonempty. cbn.
    destruct (String.eqb_spec (Analyzer.rd_target_canonical_id r) ""); [contradiction|]. reflexivity.
Qed.

(** A payload the analyzer publishes upserts exactly the visited nodes (by canonical id, in order), every relationship of the file targets one of them or the empty id, and it deletes no node. *)
Theorem published_payload_local (m : Analyzer.job_message) (ns : list Analyzer.node_dict)
    (rs : list Analyzer.rel_dict) (pg_ok : bool) (ack : Analyzer.ack) (pl : Analyzer.payload) :
  Analyzer.process_message m (Analyzer.Visited ns rs) pg_ok = (ack, Some pl) ->
  exists cids, Analyzer.all_some (map Analyzer.nd_canonical_id ns) = Some cids /\
    map Analyzer.ns_canonical_id (Analyzer.pl_nodes_upserted pl) = cids /\
    (forall r, In r rs -> Analyzer.rd_target_canonical_id r = ""%string \/ In (Analyzer.rd_target_canonical_id r) cids) /\
    Analyzer.pl_nodes_deleted pl = [].
Proof.
  intros H. unfold Analyzer.process_message in H.
  destruct (negb (Analyzer.nonempty (Analyzer.m_id m))); [discriminate|].
  destruct (Analyzer.m_file_path m) as [fp|]; [|discriminate].
  destruct (negb (Watcher.ends_with ".py" fp)); [discriminate|].
  destruct (match Analyzer.m_event_type m with Some et => String.eqb et "DELETED" | None => false end); [discriminate|].
  cbn [Analyzer.analyze_python_file] in H.
  destruct ns as [|n0 ns']; [discriminate|].
  destruct (Analyzer.all_some (map Analyzer.nd_canonical_id (n0 :: ns'))) as [cids|] eqn:Hc; [|discriminate].
  exists cids. split; [reflexivity|].
  assert (Hloc : forall r, In r rs -> Analyzer.rd_target_canonical_id r = ""%string \/ In (Analyzer.rd_target_canonical_id r) cids).
  { intros r Hr. destruct (String.eqb_spec (Analyzer.rd_target_canonical_id r) "") as [He|Hne]; [left; exact He|].
    right. destruct (in_dec String.string_dec (Analyzer.rd_target_canonical_id r) cids) as [Hi|Hmiss]; [exact Hi|].
    exfalso. pose proof (external_nodes_hit cids rs r Hr Hne Hmiss) as Hin.
    revert H. set (ext := List.filter _ (map Analyzer.external_node _)) in Hin |- *.
    pose proof (external_insert_fails pg_ok ext ltac:(intros Hnil; rewrite Hnil in Hin; exact Hin)
                     (external_nodes_pathless _)) as Hfail.
    destruct ext as [|e es]; [contradiction|]. rewrite Hfail. discriminate. }
  set (ext := List.filter _ (map Analyzer.external_node _)) in H.
  assert (Hext : ext = []).
  { destruct ext as [|e es] eqn:He; [reflexivity|]. exfalso.
    pose proof (external_insert_fails pg_ok ext ltac:(rewrite He; discriminate) (external_nodes_pathless _)) as Hfail.
    rewrite He in Hfail. rewrite Hfail in H. discriminate. }
  rewrite Hext in H. cbn iota beta in H.
  destruct (negb (Analyzer.batch_insert_nodes pg_ok (n0 :: ns'))); [discriminate|].
  destruct (negb (Analyzer.batch_insert_relationships pg_ok _)); [discriminate|].
  destruct (Analyzer.all_some (map Analyzer.create_analysis_node_stub (n0 :: ns'))) as [stubs|] eqn:Hs; [|discriminate].
  destruct (Analyzer.all_some (map Analyzer.create_analysis_relationship_stub _)) as [rstubs|]; [|discriminate].
  injection H as <- <-. cbn. split; [|split; [exact Hloc | reflexivity]].
  symmetry. apply (stub_canonical_ids (n0 :: ns')); apply all_some_map_Forall2; assumption.
Qed.

Lemma published_payload_local_witness :
  exists cids, Analyzer.all_some (map Analyzer.nd_canonical_id Analyzer.sample_nodes) = Some cids /\
    map Analyzer.ns_canonical_id (Analyzer.pl_nodes_upserted Analyzer.sample_payload) = cids /\
    (forall r, In r [Analyzer.RelDict (Some "/app.py#f()") "/app.py#g()" ":CALLS"] ->
       Analyzer.rd_target_canonical_id r = ""%string \/ In (Analyzer.rd_target_canonical_id r) cids) /\
    Analyzer.pl_nodes_deleted Analyzer.sample_payload = [].
Proof.
  apply (published_payload_local Analyzer.sample_job Analyzer.sample_nodes
           [Analyzer.RelDict (Some "/app.py#f()") "/app.py#g()" ":CALLS"] true Analyzer.Acked).
  vm_compute. reflexivity.
Defined.

Ltac ascii_cases c := destruct c as [[] [] [] [] [] [] [] []].

Lemma lower_char_idem c : IdGen.lower_char (IdGen.lower_char c) = IdGen.lower_char c.
Proof. ascii_cases c; vm_compute; reflexivity. Qed.

Lemma lower_char_backslash c :
  Ascii.eqb (IdGen.lower_char c) "092"%char = Ascii.eqb c "092"%char.
Proof. ascii_cases c; vm_compute; reflexivity. Qed.

Lemma lower_char_dot c : IdGen.lower_char c = "."%char <-> c = "."%char.
Proof. ascii_cases c; vm_compute; split; intros H; first [reflexivity | discriminate H]. Qed.

Lemma lower_char_slash c : IdGen.lower_char c = "/"%char <-> c = "/"%char.
Proof. ascii_cases c; vm_compute; split; intros H; first [reflexivity | discriminate H]. Qed.

Lemma lower_idem s : IdGen.lower (IdGen.lower s) = IdGen.lower s.
Proof. induction s as [|c s IH]; cbn; [reflexivity|]. rewrite lower_char_idem, IH; reflexivity. Qed.

Lemma lower_length s : String.length (IdGen.lower s) = String.length s.
Proof. induction s as [|c s IH]; cbn; congruence. Qed.

Lemma lower_substring n m s : IdGen.lower (substring n m s) = substring n m (IdGen.lower s).
Proof.
  revert n m; induction s as [|c s IH]; intros n m; destruct n, m; cbn; try reflexivity; rewrite ?IH; reflexivity.
Qed.

Lemma rb_lower s : IdGen.replace_backslash (IdGen.lower s) = IdGen.lower (IdGen.replace_backslash s).
Proof.
  induction s as [|c s IH]; cbn; [reflexivity|]. rewrite IH, lower_char_backslash.
  destruct (Ascii.eqb c "092"%char); reflexivity.
Qed.

Lemma rb_idem s : IdGen.replace_backslash (IdGen.replace_backslash s) = IdGen.replace_backslash s.
Proof.
  induction s as [|c s IH]; cbn; [reflexivity|]. rewrite IH.
  destruct (Ascii.eqb c "092"%char) eqn:H; [reflexivity|]. rewrite H; reflexivity.
Qed.

Lemma rb_substring n m s :
  IdGen.replace_backslash (substring n m s) = substring n m (IdGen.replace_backslash s).
Proof.
  revert n m; induction s as [|c s IH]; intros n m; destruct n, m; cbn; try reflexivity; rewrite ?IH; reflexivity.
Qed.

Lemma rb_length s : String.length (IdGen.replace_backslash s) = String.length s.
Proof. induction s as [|c s IH]; cbn; congruence. Qed.

Lemma prefix_cons a b s1 s2 :
  String.prefix (String a s1) (String b s2) = if ascii_dec a b then String.prefix s1 s2 else false.
Proof. reflexivity. Qed.

Lemma prefix_lower s : String.prefix "./" (IdGen.lower s) = String.prefix "./" s.
Proof.
  destruct s as [|c [|d s]]; [reflexivity| |]; cbn [IdGen.lower]; rewrite !prefix_cons.
  - destruct (ascii_dec "." (IdGen.lower_char c)), (ascii_dec "." c); reflexivity.
  - destruct (ascii_dec "." (IdGen.lower_char c)) as [H|H], (ascii_dec "." c) as [H'|H'].
    + rewrite ?prefix_cons.
      destruct (ascii_dec "/" (IdGen.lower_char d)) as [K|K], (ascii_dec "/" d) as [K'|K']; try reflexivity; try (destruct s; reflexivity).
      * exfalso; apply K'. symmetry; apply lower_char_slash; symmetry; exact K.
      * exfalso; apply K. subst d; reflexivity.
    + exfalso; apply H'. symmetry; apply lower_char_dot; symmetry; exact H.
    + exfalso; apply H. subst c; reflexivity.
    + reflexivity.
Qed.

Lemma normalize_lower p : IdGen.normalize_path (IdGen.lower p) = IdGen.normalize_path p.
Proof.
  unfold IdGen.normalize_path. rewrite rb_lower, prefix_lower.
  destruct (String.prefix "./" (IdGen.replace_backslash p)).
  - rewrite lower_length, <- lower_substring, lower_idem. reflexivity.
  - apply lower_idem.
Qed.

Lemma normalize_rb p : IdGen.normalize_path (IdGen.replace_backslash p) = IdGen.normalize_path p.
Proof. unfold IdGen.normalize_path. rewrite rb_idem. reflexivity. Qed.

(** The canonical id and gid of a file, class or function do not change when the ASCII letters of its path are lowercased or its backslashes replaced by slashes. *)
Theorem generate_id_path_variants (e : IdGen.entity) :
  IdGen.generate_id (IdGen.map_path IdGen.lower e) = IdGen.generate_id e /\
  IdGen.generate_id (IdGen.map_path IdGen.replace_backslash e) = IdGen.generate_id e.
Proof.
  destruct e; unfold IdGen.generate_id, IdGen.generate_global_id; cbn [IdGen.map_path IdGen.canonical_of];
    rewrite ?normalize_lower, ?normalize_rb; split; reflexivity.
Qed.

Lemma substring_length_le n m s : (String.length (substring n m s) <= m)%nat.
Proof.
  revert n m; induction s as [|c s IH]; intros [|n] [|m]; cbn;
    first [lia | pose proof (IH 0%nat m); lia | apply IH].
Qed.

(** [normalize_path] is idempotent on a path exactly when its result does not start with "./". *)
Theorem normalize_path_idempotent_iff (p : string) :
  IdGen.normalize_path (IdGen.normalize_path p) = IdGen.normalize_path p <->
  String.prefix "./" (IdGen.normalize_path p) = false.
Proof.
  set (n := IdGen.normalize_path p).
  assert (Hrb : IdGen.replace_backslash n = n).
  { subst n; unfold IdGen.normalize_path. rewrite rb_lower.
    destruct (String.prefix "./" (IdGen.replace_backslash p)); [rewrite rb_substring|]; rewrite rb_idem; reflexivity. }
  assert (Hlo : IdGen.lower n = n) by (subst n; unfold IdGen.normalize_path; apply lower_idem).
  unfold IdGen.normalize_path at 1. rewrite Hrb.
  destruct (String.prefix "./" n) eqn:Hp; split; intros H; try reflexivity.
  - exfalso. assert (Hl : (2 <= String.length n)%nat).
    { clear -Hp. destruct n as [|c [|d s]]; [discriminate | |cbn; lia].
      rewrite prefix_cons in Hp. destruct (ascii_dec "." c); discriminate. }
    pose proof (f_equal String.length H) as Hlen. rewrite lower_length in Hlen.
    pose proof (substring_length_le 2 (String.length n - 2) n). lia.
  - discriminate.
  - exact Hlo.
Qed.

Section VisitorProofs.
Import Visitor.

Variable unparse : pyast -> string.

Lemma go_fold (st : vstate) (l : list pyast) :
  (fix go (st : vstate) (l : list pyast) : vstate :=
     match l with [] => st | x :: l' => go (visit unparse st x) l' end) st l
  = fold_left (visit unparse) l st.
Proof. revert st; induction l; intros st; cbn; auto. Qed.

Lemma gokw_fold (st : vstate) (l : list (option string * pyast)) :
  (fix gokw (st : vstate) (l : list (option string * pyast)) : vstate :=
     match l with [] => st | (_, v) :: l' => gokw (visit unparse st v) l' end) st l
  = fold_left (fun st kv => visit unparse st (snd kv)) l st.
Proof. revert st; induction l as [|[k v] l IH]; intros st; cbn; auto. Qed.

Lemma visit_ClassDef_eq st n b k body d t loc :
  visit unparse st (ClassDef n b k body d t loc) =
  let class_canonical := IdGen.create_canonical_class (normalized_path st) n in
  let '(st, class_global_id) := _add_node st "Class" n class_canonical loc in
  let st := add_from_scope st class_global_id "CONTAINS" in
  let st := set_scope st (enter_scope (scope st) class_global_id class_canonical "Class") in
  let st := fold_left (visit unparse) b st in
  let st := fold_left (fun st kv => visit unparse st (snd kv)) k st in
  let st := fold_left (visit unparse) body st in
  let st := fold_left (visit unparse) d st in
  let st := fold_left (visit unparse) t st in
  set_scope st (exit_scope (scope st)).
Proof. cbn. destruct (_add_node _ _ _ _ _). rewrite !go_fold, gokw_fold. reflexivity. Qed.

Lemma visit_FunctionDef_eq st a n args body d r loc :
  visit unparse st (FunctionDef a n args body d r loc) =
  let is_method := is_in_class_scope (scope st) in
  let node_type := if is_method then "Method" else "Function" in
  let class_canonical := if is_method then get_current_class_canonical (scope st) else None in
  let func_canonical := IdGen.create_canonical_function n (normalized_path st)
                          (Some (param_types unparse args)) (class_name_of class_canonical) in
  let '(st, func_global_id) := _add_node st node_type n func_canonical loc in
  let st := add_from_scope st func_global_id "CONTAINS" in
  let st := set_scope st (enter_scope (scope st) func_global_id func_canonical node_type) in
  let st := fold_left (visit unparse) body st in
  set_scope st (exit_scope (scope st)).
Proof. cbn. destruct (_add_node _ _ _ _ _). rewrite go_fold. reflexivity. Qed.

Lemma visit_Call_eq st f a k loc :
  visit unparse st (Call f a k loc) =
  let st := add_from_scope st (unparse f) (call_rel_type (unparse f)) in
  fold_left (fun st kv => visit unparse st (snd kv)) k
    (fold_left (visit unparse) a (visit unparse st f)).
Proof. cbn. rewrite go_fold, gokw_fold. reflexivity. Qed.

Lemma visit_Other_eq st kd c loc :
  visit unparse st (Other kd c loc) = fold_left (visit unparse) c st.
Proof. cbn. apply go_fold. Qed.

Lemma exit_enter sm g c t : exit_scope (enter_scope sm g c t) = sm.
Proof.
  destruct sm as [f stk]; unfold exit_scope, enter_scope; cbn.
  rewrite List.removelast_last. destruct stk; reflexivity.
Qed.

Lemma vstep_refl st : vstep st st.
Proof. repeat split; try (exists []; rewrite app_nil_r; reflexivity). apply incl_refl. Qed.

Lemma vstep_trans a b c : vstep a b -> vstep b c -> vstep a c.
Proof.
  intros (P1 & [n1 N1] & [r1 R1] & D1) (P2 & [n2 N2] & [r2 R2] & D2).
  repeat split.
  - congruence.
  - exists (n1 ++ n2). rewrite N2, N1, app_assoc. reflexivity.
  - exists (r1 ++ r2). rewrite R2, R1, app_assoc. reflexivity.
  - eapply incl_tran; eauto.
Qed.

Lemma vgood_refl st : vgood st st.
Proof. split; [apply vstep_refl|]. split; auto. Qed.

Lemma vgood_trans a b c : vgood a b -> vgood b c -> vgood a c.
Proof.
  intros (S1 & E1 & I1) (S2 & E2 & I2). split; [eapply vstep_trans; eauto|].
  split; [congruence|auto].
Qed.

Lemma vgood_fold {A} (f : vstate -> A -> vstate) (l : list A) st :
  (forall st x, In x l -> vgood st (f st x)) -> vgood st (fold_left f l st).
Proof.
  revert st; induction l as [|x l IH]; intros st H; cbn; [apply vgood_refl|].
  eapply vgood_trans; [apply H; left; reflexivity|]. apply IH; intros; apply H; right; auto.
Qed.

Lemma scope_ok_mono sm d d' : incl d d' -> scope_ok sm d -> scope_ok sm d'.
Proof. intros Hi [H1 H2]; split; intros; [apply Hi, H1 | apply Hi, H2]; auto. Qed.

Lemma rels_ok_mono rs d d' : incl d d' -> rels_ok rs d -> rels_ok rs d'.
Proof. intros Hi H r Hr; destruct (H r Hr) as [A B]; split; auto. Qed.

Lemma scope_id_ok sm d p : scope_ok sm d -> get_current_scope_id sm = Some p -> In p d.
Proof.
  intros [Hf Hs]. unfold get_current_scope_id, stack_top.
  destruct (rev (scope_stack sm)) as [|[[g c] t] r] eqn:E; [apply Hf|].
  intros [= <-]. apply (Hs (g, c, t)). apply in_rev. rewrite E. left; reflexivity.
Qed.

Lemma add_node_in st t n c loc :
  In (snd (_add_node st t n c loc)) (defined_node_ids_in_run (fst (_add_node st t n c loc))).
Proof.
  unfold _add_node. destruct existsb eqn:E; cbn; [|left; reflexivity].
  apply existsb_exists in E as [x [Hx Hg]]. apply String.eqb_eq in Hg; subst; exact Hx.
Qed.

Lemma add_node_good st t n c loc : vgood st (fst (_add_node st t n c loc)).
Proof.
  unfold _add_node. set (g := IdGen.generate_global_id _ _ _).
  destruct (existsb (String.eqb g) _) eqn:E; cbn; [apply vgood_refl|].
  assert (Hi : incl (defined_node_ids_in_run st) (g :: defined_node_ids_in_run st))
    by (intros x Hx; right; exact Hx).
  split; [|split; [reflexivity|]].
  { repeat split; auto. eexists; reflexivity. exists []; rewrite app_nil_r; reflexivity. }
  intros (Hn & Hd & Hs & Hr).
  assert (Hg : ~ In g (defined_node_ids_in_run st)).
  { intros Hin. assert (existsb (String.eqb g) (defined_node_ids_in_run st) = true) as E'
      by (apply existsb_exists; exists g; split; [exact Hin|apply String.eqb_refl]). congruence. }
  unfold vinv; cbn [nodes_data defined_node_ids_in_run scope relationships_data].
  rewrite map_app. split; [|split; [|split]].
  - apply nodup_snoc; [exact Hn|rewrite <- Hd; exact Hg].
  - intros x; split.
    + intros [<-|H]; apply in_or_app; [right; left; reflexivity|left; apply Hd; exact H].
    + intros H. apply in_app_or in H as [H|[<-|[]]]; [right; apply Hd; exact H|left; reflexivity].
  - apply (scope_ok_mono _ _ _ Hi Hs).
  - apply (rels_ok_mono _ _ _ Hi Hr).
Qed.

Lemma add_from_scope_good st t r :
  (r = "CONTAINS" -> In t (defined_node_ids_in_run st)) -> vgood st (add_from_scope st t r).
Proof.
  intros Ht. unfold add_from_scope.
  destruct get_current_scope_id as [p|] eqn:Ep; [destruct String.eqb|]; try apply vgood_refl.
  split; [|split; [reflexivity|]].
  { repeat split; auto. exists []; rewrite app_nil_r; reflexivity. eexists; reflexivity. apply incl_refl. }
  intros (Hn & Hd & Hs & Hr).
  split; [exact Hn|]. split; [exact Hd|]. split; [exact Hs|].
  intros x Hx. apply in_app_or in Hx as [Hx|[<-|[]]]; [apply Hr; exact Hx|cbn].
  split; [eapply scope_id_ok; eauto | exact Ht].
Qed.

Lemma add_from_scope_defined st t r :
  defined_node_ids_in_run (add_from_scope st t r) = defined_node_ids_in_run st.
Proof.
  unfold add_from_scope. destruct get_current_scope_id; [destruct String.eqb|]; reflexivity.
Qed.

(** [_add_node] followed by a CONTAINS relationship from the current scope
    to the node it returns, the step every definition begins with. *)
Lemma add_contains_good st t n c loc :
  let '(st1, g) := _add_node st t n c loc in
  vgood st (add_from_scope st1 g "CONTAINS") /\
  In g (defined_node_ids_in_run (add_from_scope st1 g "CONTAINS")).
Proof.
  pose proof (add_node_good st t n c loc) as G1. pose proof (add_node_in st t n c loc) as I1.
  destruct (_add_node st t n c loc) as [st1 g]; cbn in G1, I1.
  rewrite add_from_scope_defined. split; [|exact I1].
  eapply vgood_trans; [exact G1|]. apply add_from_scope_good. intros _; exact I1.
Qed.

Lemma enter_inv st g c t :
  vinv st -> In g (defined_node_ids_in_run st) -> vinv (set_scope st (enter_scope (scope st) g c t)).
Proof.
  intros (Hn & Hd & [Hf Hs] & Hr) Hg. split; [exact Hn|]. split; [exact Hd|]. split; [|exact Hr].
  split; [exact Hf|]. intros x Hx. cbn in Hx. apply in_app_or in Hx as [Hx|[<-|[]]]; [apply Hs; exact Hx|exact Hg].
Qed.

Lemma in_removelast_in {A} (l : list A) x : In x (removelast l) -> In x l.
Proof.
  induction l as [|a [|b l] IH]; cbn; auto.
  intros [H|H]; [left; exact H|right; apply IH; exact H].
Qed.

Lemma exit_inv st : vinv st -> vinv (set_scope st (exit_scope (scope st))).
Proof.
  intros (Hn & Hd & [Hf Hs] & Hr). unfold exit_scope.
  destruct (scope_stack (scope st)) eqn:E; cbn; split; try exact Hn; split; try exact Hd;
    split; try exact Hr; split; try exact Hf.
  - intros x Hx. cbn in Hx. rewrite E in Hx. exact (Hs x Hx).
  - intros x Hx. apply Hs. apply in_removelast_in, Hx.
Qed.

(** [enter_scope], a step that leaves the scope as it found it, then
    [exit_scope]: the body of [visit_ClassDef] and [visit_FunctionDef]. *)
Lemma scoped_good st g c t (F : vstate -> vstate) :
  In g (defined_node_ids_in_run st) -> (forall st', vgood st' (F st')) ->
  vgood st (set_scope (F (set_scope st (enter_scope (scope st) g c t)))
                      (exit_scope (scope (F (set_scope st (enter_scope (scope st) g c t)))))).
Proof.
  intros Hg HF. set (s1 := set_scope st _). destruct (HF s1) as (S & E & I).
  split; [|split].
  - eapply vstep_trans; [|eapply vstep_trans; [exact S|]]; repeat split; try apply incl_refl;
      exists []; rewrite app_nil_r; reflexivity.
  - cbn. rewrite E. unfold s1; cbn. apply exit_enter.
  - intros Hv. apply exit_inv, I. apply enter_inv; auto.
Qed.

Lemma import_alias_good st m src aloc :
  vgood st (let '(st, _) := _add_node st "Import" m (create_canonical_import (normalized_path st) m src) aloc in
            add_from_scope st src "IMPORTS").
Proof.
  pose proof (add_node_good st "Import" m (create_canonical_import (normalized_path st) m src) aloc) as G.
  destruct (_add_node _ _ _ _ _) as [st1 g]; cbn in G.
  eapply vgood_trans; [exact G|]. apply add_from_scope_good; discriminate.
Qed.

Lemma visit_Import_good st ns : vgood st (visit_Import st ns).
Proof. unfold visit_Import. apply vgood_fold. intros st0 [[m a] l] _. apply import_alias_good. Qed.

Lemma visit_ImportFrom_good st m ns l : vgood st (visit_ImportFrom st m ns l).
Proof. unfold visit_ImportFrom. apply vgood_fold. intros st0 [[n a] al] _. apply import_alias_good. Qed.

Lemma call_rel_type_not_contains s : call_rel_type s <> "CONTAINS".
Proof. unfold call_rel_type. destruct existsb; [discriminate|]. destruct existsb; discriminate. Qed.

Lemma assign_target_good csp st x : vgood st (assign_target unparse csp st x).
Proof.
  unfold assign_target. destruct (_ || _); [apply vgood_refl|].
  match goal with |- context [_add_node st ?t ?n ?c ?l] =>
    pose proof (add_contains_good st t n c l) as G; destruct (_add_node st t n c l) end.
  apply G.
Qed.

Lemma vgood_fold_visit l st :
  Forall (fun n => forall st, vgood st (visit unparse st n)) l -> vgood st (fold_left (visit unparse) l st).
Proof. intros H. apply vgood_fold. intros st0 x Hx. rewrite List.Forall_forall in H. apply H, Hx. Qed.

Lemma vgood_fold_kw (l : list (option string * pyast)) st :
  Forall (fun kv => forall st, vgood st (visit unparse st (snd kv))) l ->
  vgood st (fold_left (fun st kv => visit unparse st (snd kv)) l st).
Proof. intros H. apply vgood_fold. intros st0 x Hx. rewrite List.Forall_forall in H. apply H, Hx. Qed.

Ltac vgood_chain :=
  repeat first
    [ apply vgood_refl
    | apply vgood_fold_visit; assumption
    | apply vgood_fold_kw; assumption
    | eapply vgood_trans; [| apply vgood_fold_visit; assumption]
    | eapply vgood_trans; [| apply vgood_fold_kw; assumption] ].

(** Every node, whatever its type and however deeply it nests, is visited
    by a step that grows the output, leaves the scope as it found it and
    keeps the invariant. *)
Lemma visit_good n : forall st, vgood st (visit unparse st n).
Proof.
  induction n as [nm b k body d t loc IHb IHk IHbody IHd IHt | a nm args body d r loc IHbody
                 | ts v loc IHv | tg an v loc IHan IHv | i l loc | v atr loc IHv
                 | f a k loc IHf IHa IHk | ns loc | m ns l loc | kd c loc IHc] using pyast_ind'; intros st.
  - rewrite visit_ClassDef_eq; cbn zeta.
    set (cc := IdGen.create_canonical_class _ _).
    pose proof (add_contains_good st "Class" nm cc loc) as G.
    destruct (_add_node st "Class" nm cc loc) as [st1 g]. destruct G as [G1 I1].
    eapply vgood_trans; [exact G1|].
    apply (scoped_good _ g cc "Class"
      (fun s => fold_left (visit unparse) t (fold_left (visit unparse) d (fold_left (visit unparse) body
         (fold_left (fun st kv => visit unparse st (snd kv)) k (fold_left (visit unparse) b s)))))); [exact I1|].
    intros st'. vgood_chain.
  - rewrite visit_FunctionDef_eq; cbn zeta.
    set (ct := IdGen.create_canonical_function _ _ _ _).
    set (nt := if is_in_class_scope (scope st) then _ else _).
    pose proof (add_contains_good st nt nm ct loc) as G.
    destruct (_add_node st nt nm ct loc) as [st1 g]. destruct G as [G1 I1].
    eapply vgood_trans; [exact G1|].
    apply (scoped_good _ g ct nt (fold_left (visit unparse) body)); [exact I1|].
    intros st'. vgood_chain.
  - cbn. eapply vgood_trans; [|apply IHv]. apply vgood_fold; intros; apply assign_target_good.
  - cbn. destruct (_ || _).
    + destruct v as [v|]; cbn in IHv |- *; [eapply vgood_trans; [apply IHv|]|]; apply IHan.
    + set (nt := if is_attribute tg then _ else _).
      set (vc := create_canonical_variable _ _ _).
      pose proof (add_contains_good st nt (unparse tg) vc (loc_of tg)) as G.
      destruct (_add_node st nt (unparse tg) vc (loc_of tg)) as [st1 g]. destruct G as [G1 _].
      eapply vgood_trans; [exact G1|]. eapply vgood_trans; [apply IHan|].
      destruct v as [v|]; cbn in IHv |- *; [apply IHv|apply vgood_refl].
  - cbn. destruct l; [apply add_from_scope_good; discriminate|apply vgood_refl].
  - cbn. apply IHv.
  - rewrite visit_Call_eq; cbn zeta.
    eapply vgood_trans; [|apply vgood_fold_kw; exact IHk].
    eapply vgood_trans; [|apply vgood_fold_visit; exact IHa].
    eapply vgood_trans; [|apply IHf].
    apply add_from_scope_good. intros E; exfalso; exact (call_rel_type_not_contains _ E).
  - cbn. apply visit_Import_good.
  - cbn. apply visit_ImportFrom_good.
  - rewrite visit_Other_eq. vgood_chain.
Qed.

Lemma visit_list_good l st : vgood st (visit_list unparse st l).
Proof. unfold visit_list. apply vgood_fold. intros; apply visit_good. Qed.

(** In the visitor's output for any module, node ids are pairwise
    distinct; every relationship starts at an emitted node; every CONTAINS
    relationship ends at an emitted node. *)
Theorem visit_Module_output_ok (rp : string) (body : list pyast) :
  let '(nodes, rels) := visit_Module unparse rp body in
  List.NoDup (map uniqueId nodes) /\
  (forall r, In r rels -> In (sourceId r) (map uniqueId nodes) /\
     (rel_type r = "CONTAINS" -> In (targetIdentifier r) (map uniqueId nodes))).
Proof.
  unfold visit_Module. set (st0 := VState rp [] [] (ScopeManager None []) []).
  assert (H0 : vinv st0).
  { split; [constructor|]. split; [cbn; tauto|]. split; [split; [discriminate|cbn; tauto]|].
    intros r []. }
  pose proof (add_node_good st0 "File" (basename rp)
    (IdGen.create_canonical_file (normalized_path st0)) (module_location body)) as (_ & _ & H1).
  pose proof (add_node_in st0 "File" (basename rp)
    (IdGen.create_canonical_file (normalized_path st0)) (module_location body)) as G1.
  destruct (_add_node _ _ _ _ _) as [st1 g]; cbn in H1, G1. specialize (H1 H0).
  assert (H2 : vinv (set_scope st1 (ScopeManager (Some g) []))).
  { destruct H1 as (Hn & Hd & _ & Hr). split; [exact Hn|]. split; [exact Hd|].
    split; [|exact Hr]. split; [intros g' [= <-]; exact G1|intros t []]. }
  destruct (visit_list_good (List.filter is_import body) (set_scope st1 (ScopeManager (Some g) [])))
    as (_ & _ & I1).
  match goal with |- context [visit_list unparse ?s0 (List.filter (fun x => negb (is_import x)) body)] =>
    destruct (visit_list_good (List.filter (fun x => negb (is_import x)) body) s0) as (_ & _ & I2) end.
  pose proof (I2 (I1 H2)) as Hv.
  match type of Hv with vinv ?s =>
    destruct Hv as (Hn & Hd & _ & Hr); split; [exact Hn|] end.
  intros r Hrin. destruct (Hr r Hrin) as [A B]. split; [apply Hd, A|intros E; apply Hd, B, E].
Qed.

Lemma str_app_assoc (a b c : string) : ((a ++ b) ++ c)%string = (a ++ b ++ c)%string.
Proof.
  induction a as [|x a IH]; [reflexivity|].
  change (String x ((a ++ b) ++ c) = String x (a ++ b ++ c))%string. rewrite IH; reflexivity.
Qed.

Lemma split_first_none ch s : has_char ch s = false -> split_first ch s = s.
Proof.
  induction s as [|c s IH]; cbn; auto.
  intros H. apply orb_false_iff in H as [H1 H2]. rewrite H1, IH; auto.
Qed.

Lemma stack_top_enter sm g c t : stack_top (enter_scope sm g c t) = Some (g, c, t).
Proof. unfold stack_top, enter_scope; cbn. rewrite rev_app_distr. reflexivity. Qed.

Lemma class_canonical_enter sm g c : get_current_class_canonical (enter_scope sm g c "Class") = Some c.
Proof. unfold get_current_class_canonical, enter_scope; cbn. rewrite rev_app_distr. reflexivity. Qed.

Lemma add_node_fields st t n c loc :
  snd (_add_node st t n c loc) = IdGen.generate_global_id IdGen.LANGUAGE (relative_path st) c /\
  relative_path (fst (_add_node st t n c loc)) = relative_path st /\
  relationships_data (fst (_add_node st t n c loc)) = relationships_data st /\
  scope (fst (_add_node st t n c loc)) = scope st.
Proof. unfold _add_node; destruct existsb; cbn; auto. Qed.

Lemma gid_nonempty rp c : String.eqb (IdGen.generate_global_id IdGen.LANGUAGE rp c) "" = false.
Proof. reflexivity. Qed.

Lemma rels_grow st st' r : vstep st st' -> In r (relationships_data st) -> In r (relationships_data st').
Proof. intros (_ & _ & [rs E] & _) H. rewrite E. apply in_or_app; left; exact H. Qed.

Lemma fold_visit_good l st : vgood st (fold_left (visit unparse) l st).
Proof. apply vgood_fold. intros; apply visit_good. Qed.

Lemma fold_kw_good (l : list (option string * pyast)) st :
  vgood st (fold_left (fun st kv => visit unparse st (snd kv)) l st).
Proof. apply vgood_fold. intros; apply visit_good. Qed.

Lemma method_rel st sm cg cc a m args fb fd fr floc :
  scope st = enter_scope sm cg cc "Class" -> String.eqb cg "" = false ->
  String.eqb cc "" = false -> has_char "(" cc = false ->
  In (RelDict cg (IdGen.generate_global_id IdGen.LANGUAGE (relative_path st)
                   (IdGen.create_canonical_function m (normalized_path st)
                      (Some (param_types unparse args)) (Some cc)))
              "CONTAINS")
     (relationships_data (visit unparse st (FunctionDef a m args fb fd fr floc))).
Proof.
  intros Hs Hg Hc Hp. rewrite visit_FunctionDef_eq; cbn zeta.
  assert (Hm : is_in_class_scope (scope st) = true).
  { rewrite Hs. unfold is_in_class_scope, get_current_scope_type. rewrite stack_top_enter. reflexivity. }
  rewrite Hm, Hs, class_canonical_enter. cbn [class_name_of]. rewrite Hc, split_first_none by exact Hp.
  set (fc := IdGen.create_canonical_function _ _ _ _).
  pose proof (add_node_fields st "Method" m fc floc) as (F1 & F2 & F3 & F4).
  destruct (_add_node _ _ _ _ _) as [st1 g]; cbn in F1, F2, F3, F4; subst g.
  set (st2 := add_from_scope st1 _ "CONTAINS").
  assert (Hin : In (RelDict cg (IdGen.generate_global_id IdGen.LANGUAGE (relative_path st) fc) "CONTAINS")
                   (relationships_data st2)).
  { unfold st2, add_from_scope. rewrite F4, Hs. unfold get_current_scope_id. rewrite stack_top_enter, Hg.
    cbn. apply in_or_app; right; left; reflexivity. }
  destruct (fold_visit_good fb (set_scope st2 (enter_scope (scope st2)
    (IdGen.generate_global_id IdGen.LANGUAGE (relative_path st) fc) fc "Method"))) as [S _].
  cbn. eapply rels_grow; [exact S|exact Hin].
Qed.

Lemma class_method_rel st c bases kws body decos tps loc a m args fb fd fr floc :
  let np := normalized_path st in
  has_char "(" (np ++ "#" ++ c)%string = false ->
  In (FunctionDef a m args fb fd fr floc) body ->
  In (RelDict (IdGen.generate_global_id IdGen.LANGUAGE (relative_path st) (np ++ "#" ++ c)%string)
              (IdGen.generate_global_id IdGen.LANGUAGE (relative_path st)
                 (IdGen.create_canonical_function m np (Some (param_types unparse args))
                    (Some (np ++ "#" ++ c)%string)))
              "CONTAINS")
     (relationships_data (visit unparse st (ClassDef c bases kws body decos tps loc))).
Proof.
  intros np Hp Hin. rewrite visit_ClassDef_eq; cbn zeta.
  pose proof (add_node_fields st "Class" c (IdGen.create_canonical_class np c) loc) as (F1 & F2 & F3 & F4).
  destruct (_add_node _ _ _ _ _) as [st1 g]; cbn in F1, F2, F3, F4; subst g.
  set (cg := IdGen.generate_global_id _ _ _).
  set (st2 := add_from_scope st1 cg "CONTAINS").
  assert (E2 : scope st2 = scope st1) by (unfold st2, add_from_scope; destruct get_current_scope_id;
    [destruct String.eqb|]; reflexivity).
  assert (P2 : relative_path st2 = relative_path st1) by (unfold st2, add_from_scope; destruct get_current_scope_id;
    [destruct String.eqb|]; reflexivity).
  set (st3 := set_scope st2 _).
  set (st4 := fold_left (fun st kv => visit unparse st (snd kv)) kws (fold_left (visit unparse) bases st3)).
  assert (S4 : vgood st3 st4).
  { unfold st4. eapply vgood_trans; [apply fold_visit_good|apply fold_kw_good]. }
  apply in_split in Hin as [b1 [b2 ->]].
  rewrite fold_left_app.
  set (st5 := fold_left (visit unparse) b1 st4).
  destruct (vgood_trans _ _ _ S4 (fold_visit_good b1 st4)) as ([P5 _] & E5 & _). fold st5 in P5, E5.
  cbn [fold_left].
  pose proof (method_rel st5 (scope st) cg (IdGen.create_canonical_class np c) a m args fb fd fr floc) as H.
  unfold IdGen.create_canonical_class in H. unfold normalized_path in H.
  rewrite P5 in H. cbn in H. rewrite P2, F2 in H.
  assert (Hc : String.eqb (np ++ "#" ++ c)%string "" = false) by (destruct np; reflexivity).
  specialize (H ltac:(rewrite E5; cbn; rewrite E2, F4; reflexivity) (gid_nonempty _ _) Hc Hp).
  set (st6 := visit unparse st5 (FunctionDef a m args fb fd fr floc)) in H |- *.
  destruct (vgood_trans _ _ _ (fold_visit_good b2 st6)
             (vgood_trans _ _ _ (fold_visit_good decos _) (fold_visit_good tps _))) as [S _].
  cbn. eapply rels_grow; [exact S|exact H].
Qed.

Lemma canonical_method_string np c m ps :
  IdGen.create_canonical_function m np (Some ps) (Some (np ++ "#" ++ c)%string) =
  (np ++ "#" ++ np ++ "#" ++ c ++ "::" ++ m ++ "(" ++ IdGen.join_comma ps ++ ")")%string.
Proof.
  unfold IdGen.create_canonical_function.
  replace (String.eqb (np ++ "#" ++ c)%string "") with false by (destruct np; reflexivity).
  rewrite !str_app_assoc. destruct ps; reflexivity.
Qed.

(** A method [m] (sync or async) defined directly in the body of a
    top-level class [c] of the file [rp], whose class canonical id [np#c]
    ([np] the normalized path) contains no "(", gets the canonical id
    [np#np#c::m(types)], in which the normalized path occurs twice:
    [visit_FunctionDef] passes the whole class canonical id as the class
    name.  The visitor links it from the class with a CONTAINS
    relationship, whatever the rest of the module, the class's bases,
    keywords, decorators and other members are. *)
Theorem visit_Module_method_canonical rp pre c bases kws body decos tps loc post a m args fb fd fr floc :
  has_char "(" (IdGen.normalize_path rp ++ "#" ++ c)%string = false ->
  In (FunctionDef a m args fb fd fr floc) body ->
  let np := IdGen.normalize_path rp in
  In (RelDict (IdGen.generate_global_id IdGen.LANGUAGE rp (np ++ "#" ++ c)%string)
              (IdGen.generate_global_id IdGen.LANGUAGE rp
                 (np ++ "#" ++ np ++ "#" ++ c ++ "::" ++ m ++ "(" ++
                  IdGen.join_comma (param_types unparse args) ++ ")")%string)
              "CONTAINS")
     (snd (visit_Module unparse rp (pre ++ ClassDef c bases kws body decos tps loc :: post))).
Proof.
  intros Hp Hin np. unfold visit_Module.
  set (st0 := VState rp [] [] (ScopeManager None []) []).
  pose proof (add_node_fields st0 "File" (basename rp)
    (IdGen.create_canonical_file (normalized_path st0))
    (module_location (pre ++ ClassDef c bases kws body decos tps loc :: post))) as (_ & F2 & _ & _).
  destruct (_add_node _ _ _ _ _) as [st1 g]; cbn in F2.
  set (st2 := visit_list unparse (set_scope st1 _) _).
  assert (P2 : relative_path st2 = rp).
  { destruct (visit_list_good (List.filter is_import (pre ++ ClassDef c bases kws body decos tps loc :: post))
      (set_scope st1 (ScopeManager (Some g) []))) as ([P _] & _). unfold st2. rewrite P. exact F2. }
  rewrite List.filter_app. cbn [List.filter is_import negb]. unfold visit_list. rewrite fold_left_app.
  cbn [fold_left snd].
  set (st3 := fold_left (visit unparse) (List.filter _ pre) st2).
  assert (P3 : relative_path st3 = rp).
  { destruct (fold_visit_good (List.filter (fun s => negb (is_import s)) pre) st2) as ([P _] & _).
    unfold st3. rewrite P. exact P2. }
  pose proof (class_method_rel st3 c bases kws body decos tps loc a m args fb fd fr floc) as H.
  unfold normalized_path in H. rewrite P3 in H. specialize (H Hp Hin).
  rewrite canonical_method_string in H.
  destruct (fold_visit_good (List.filter (fun s => negb (is_import s)) post)
    (visit unparse st3 (ClassDef c bases kws body decos tps loc))) as [S _].
  eapply rels_grow; [exact S|exact H].
Qed.

(** Visiting any node, however deeply its definitions nest, leaves the
    scope manager as it found it: every [enter_scope] is matched by an
    [exit_scope]. *)
Theorem visit_scope_balanced (st : vstate) (n : pyast) : scope (visit unparse st n) = scope st.
Proof. exact (proj1 (proj2 (visit_good n st))). Qed.

End VisitorProofs.

Lemma visit_Module_method_canonical_witness :
  Visitor.has_char "(" (IdGen.normalize_path "src/app.py" ++ "#" ++ "Greeter")%string = false /\
  let np := IdGen.normalize_path "src/app.py" in
  In (Visitor.RelDict (IdGen.generate_global_id IdGen.LANGUAGE "src/app.py" (np ++ "#" ++ "Greeter")%string)
        (IdGen.generate_global_id IdGen.LANGUAGE "src/app.py"
           (np ++ "#" ++ np ++ "#" ++ "Greeter" ++ "::" ++ "hello" ++ "(" ++
            IdGen.join_comma (Visitor.param_types Visitor.unparse_fallback
              [("self", None); ("n", Some (Visitor.Name "int" true (Some 3, Some 3)))]) ++ ")")%string)
        "CONTAINS")
     (snd (Visitor.visit_Module Visitor.unparse_fallback "src/app.py"
        ([Visitor.Import [("os", None, (Some 1, Some 1))] (Some 1, Some 1)] ++
         Visitor.ClassDef "Greeter" [Visitor.Name "Base" true (Some 2, Some 2)] []
           [Visitor.FunctionDef true "hello" [("self", None); ("n", Some (Visitor.Name "int" true (Some 3, Some 3)))]
              [Visitor.Other "Pass" [] (Some 4, Some 4)] [] None (Some 3, Some 4)]
           [] [] (Some 2, Some 4) :: []))).
Proof.
  split; [reflexivity|].
  apply (visit_Module_method_canonical Visitor.unparse_fallback "src/app.py"
    [Visitor.Import [("os", None, (Some 1, Some 1))] (Some 1, Some 1)] "Greeter"
    [Visitor.Name "Base" true (Some 2, Some 2)] []
    [Visitor.FunctionDef true "hello" [("self", None); ("n", Some (Visitor.Name "int" true (Some 3, Some 3)))]
       [Visitor.Other "Pass" [] (Some 4, Some 4)] [] None (Some 3, Some 4)]
    [] [] (Some 2, Some 4) [] true "hello" [("self", None); ("n", Some (Visitor.Name "int" true (Some 3, Some 3)))]
    [Visitor.Other "Pass" [] (Some 4, Some 4)] [] None (Some 3, Some 4)).
  - reflexivity.
  - left; reflexivity.
Defined.

Section IntraProofs.
Import Resolve.Intra.

Lemma resolve_via_imports_registered reg lang name fi g :
  resolve_via_imports reg lang name fi = Some g -> registered reg g = true.
Proof.
  induction fi as [|[a e] fi IH]; cbn; [discriminate|].
  destruct potential_target_gid as [g'|]; auto.
  destruct String.eqb; auto. destruct (registered reg g') eqn:R; auto. intros [= <-]; exact R.
Qed.

Lemma resolve_rel_new reg rg sk lang fi res rel k g :
  resolve_rel reg rg sk lang fi res rel !! k = Some g ->
  res !! k = Some g \/
  (k = (sk, target_node_local_id rel) /\ registered reg g = true /\
   (relationship_type rel = "CALLS" \/ relationship_type rel = "CALLS_HINT")%string).
Proof.
  destruct sk as [[an fp] lid]. unfold resolve_rel.
  destruct (String.eqb (relationship_type rel) "CALLS") eqn:E1;
  destruct (String.eqb (relationship_type rel) "CALLS_HINT") eqn:E2; cbn; auto;
  [apply String.eqb_eq in E1 | apply String.eqb_eq in E1 | apply String.eqb_eq in E2];
  (assert (Ht : (relationship_type rel = "CALLS" \/ relationship_type rel = "CALLS_HINT")%string) by auto).
  all: assert (Hv : forall res', res' = res \/ (exists g', res' = <[(an, fp, lid, target_node_local_id rel) := g']> res
                                                    /\ registered reg g' = true) ->
                    res' !! k = Some g -> res !! k = Some g \/
                    (k = (an, fp, lid, target_node_local_id rel) /\ registered reg g = true /\
                     (relationship_type rel = "CALLS" \/ relationship_type rel = "CALLS_HINT")%string))
    by (intros res' [->|[g' [-> Hg']]] Hk; auto;
        destruct (decide (k = (an, fp, lid, target_node_local_id rel))) as [->|Hne];
        [rewrite lookup_insert_eq in Hk; injection Hk as <-; right; auto
        |rewrite lookup_insert_ne in Hk by congruence; left; exact Hk]).
  all: apply Hv; clear Hv.
  all: assert (Hi : forall tn, (if String.eqb tn "" then res else
                 match resolve_via_imports reg lang tn fi with
                 | Some g0 => <[(an, fp, lid, target_node_local_id rel) := g0]> res | None => res end) = res \/
                 (exists g', (if String.eqb tn "" then res else
                 match resolve_via_imports reg lang tn fi with
                 | Some g0 => <[(an, fp, lid, target_node_local_id rel) := g0]> res | None => res end)
                 = <[(an, fp, lid, target_node_local_id rel) := g']> res /\ registered reg g' = true))
    by (intros tn; destruct (String.eqb tn ""); auto; destruct resolve_via_imports as [g1|] eqn:R; auto;
        right; exists g1; split; [reflexivity|eapply resolve_via_imports_registered; eauto]).
  all: destruct (rg !! _) as [g0|]; [|apply Hi].
  all: destruct (negb (String.eqb g0 "") && registered reg g0) eqn:Hg; [|apply Hi].
  all: right; exists g0; split; [reflexivity|]; apply andb_true_iff in Hg; tauto.
Qed.

(** every call target [resolve_intra_language_calls] resolves is a
    registered definition, and comes from a CALLS or CALLS_HINT relationship
    of that source whose target local id is the resolved one, in a file that
    has imports. *)
Theorem resolve_intra_language_calls_sound rbs ii reg rg sk t g :
  resolve_intra_language_calls rbs ii reg rg !! (sk, t) = Some g ->
  registered reg g = true /\
  exists rels rel, In (sk, rels) rbs /\ In rel rels /\
    (relationship_type rel = "CALLS" \/ relationship_type rel = "CALLS_HINT")%string /\
    target_node_local_id rel = t /\
    file_imports_of ii sk.1.1 sk.1.2 <> [].
Proof.
  unfold resolve_intra_language_calls. revert sk t g.
  set (Inv := fun res : resolved_target_map => forall sk t g, res !! (sk, t) = Some g ->
    registered reg g = true /\
    exists rels rel, In (sk, rels) rbs /\ In rel rels /\
      (relationship_type rel = "CALLS" \/ relationship_type rel = "CALLS_HINT")%string /\
      target_node_local_id rel = t /\ file_imports_of ii sk.1.1 sk.1.2 <> []).
  match goal with |- forall sk t g, ?r !! _ = _ -> _ => change (Inv r) end.
  apply fold_left_preserve; [intros ? ? ? H; rewrite lookup_empty in H; discriminate|].
  intros res [[[an fp] lid] rels] Hin Hres. cbn -[resolve_rel file_imports_of].
  destruct (file_imports_of ii an fp) as [|imp imps] eqn:Ef; [exact Hres|].
  revert Hres. generalize res. clear res.
  assert (Hrels : forall rel, In rel rels -> In rel rels) by auto. revert Hrels.
  generalize rels at 1 3. intros l Hl. induction l as [|rel l IH]; intros res Hres; cbn [fold_left]; [exact Hres|].
  apply IH; [intros; apply Hl; right; auto|].
  intros sk t g Hk. apply resolve_rel_new in Hk as [Hk|(Hk & Hr & Ht)]; [apply Hres, Hk|].
  injection Hk as -> ->. split; [exact Hr|].
  exists rels, rel. split; [exact Hin|]. split; [apply Hl; left; auto|].
  split; [exact Ht|]. split; [reflexivity|]. cbn. rewrite Ef. discriminate.
Qed.

End IntraProofs.

Section IntraMore.
Import Resolve.Intra.

Lemma prefix_app_self (a b : string) : String.prefix a (a ++ b)%string = true.
Proof.
  induction a as [|c a IH]; [destruct b; reflexivity|].
  change (String.prefix (String c a) (String c (a ++ b))%string = true).
  cbn. destruct (ascii_dec c c); [exact IH|contradiction].
Qed.

Lemma after_first_dot_app p r : Visitor.has_char "." p = false -> after_first_dot (p ++ "." ++ r)%string = r.
Proof.
  induction p as [|c p IH]; [reflexivity|].
  intros H. cbn in H. apply orb_false_iff in H as [H1 H2].
  change (after_first_dot (String c (p ++ "." ++ r)%string) = r). cbn. rewrite H1. apply IH, H2.
Qed.

Lemma string_app_length (a b : string) : String.length (a ++ b)%string = (String.length a + String.length b)%nat.
Proof. induction a as [|c a IH]; [reflexivity|]. change (S (String.length (a ++ b)%string) = S (String.length a + String.length b))%nat. rewrite IH; reflexivity. Qed.

(** for an import alias [p.q] with a dot in it, a call [p.q.m] through the
    alias is looked up as [lang::entity.q.m]: the member name is the text
    after the first dot of the call name, so the alias' own tail [q] is
    repeated. *)
Theorem potential_target_gid_dotted_alias lang p q m entity :
  Visitor.has_char "." p = false ->
  potential_target_gid lang (p ++ "." ++ q ++ "." ++ m)%string (p ++ "." ++ q)%string entity =
  Some (lang ++ "::" ++ entity ++ "." ++ q ++ "." ++ m)%string.
Proof.
  intros Hp. unfold potential_target_gid.
  replace (String.eqb (p ++ "." ++ q ++ "." ++ m)%string (p ++ "." ++ q)%string) with false.
  2:{ symmetry. apply String.eqb_neq. intros E. apply (f_equal String.length) in E.
      rewrite !string_app_length in E. cbn in E. lia. }
  replace ((p ++ "." ++ q ++ "." ++ m))%string with (((p ++ "." ++ q) ++ ".") ++ m)%string
    by (rewrite !str_app_assoc; reflexivity).
  rewrite prefix_app_self. rewrite !str_app_assoc. rewrite after_first_dot_app by exact Hp.
  reflexivity.
Qed.

End IntraMore.


Lemma resolve_intra_language_calls_sound_witness :
  Resolve.Intra.resolve_intra_language_calls Resolve.Intra.sample_rels Resolve.Intra.sample_imports
    Resolve.Intra.sample_registry ∅ !! (Resolve.Intra.caller, 7%Z) = Some "python::mod_u.f"%string /\
  Resolve.Intra.registered Resolve.Intra.sample_registry "python::mod_u.f" = true /\
  exists rels rel, In (Resolve.Intra.caller, rels) Resolve.Intra.sample_rels /\ In rel rels /\
    (Resolve.Intra.relationship_type rel = "CALLS" \/ Resolve.Intra.relationship_type rel = "CALLS_HINT")%string /\
    Resolve.Intra.target_node_local_id rel = 7%Z /\
    Resolve.Intra.file_imports_of Resolve.Intra.sample_imports Resolve.Intra.caller.1.1 Resolve.Intra.caller.1.2 <> [].
Proof.
  split; [vm_compute; reflexivity|].
  apply (resolve_intra_language_calls_sound Resolve.Intra.sample_rels Resolve.Intra.sample_imports
    Resolve.Intra.sample_registry ∅ Resolve.Intra.caller 7%Z "python::mod_u.f"%string).
  vm_compute; reflexivity.
Defined.

Lemma potential_target_gid_dotted_alias_witness :
  Visitor.has_char "." "os" = false /\
  Resolve.Intra.potential_target_gid "python" "os.path.join" "os.path" "os.path" = Some "python::os.path.path.join"%string.
Proof.
  split; [reflexivity|].
  exact (potential_target_gid_dotted_alias "python" "os" "path" "join" "os.path" eq_refl).
Defined.
